(** * linenoise (non-blocking port): the editor engine, its history store
      and its renderer, embedded from linenoise.c

    The embedding follows the version of linenoise.c whose column probe is
    switched off (the [goto failed] at the head of [getColumns]) and which
    has the dumb-terminal handler.  Every C function that the properties
    below talk about is a Rocq function of the same name on a record that
    holds the static [l_state] and the other file-scope statics.

    Conventions.
    - [size_t] and [int] are 32 bits wide (the code prints [size_t] values
      with [%u]); a [size_t] is a [Z] in [0, 2^32) and every addition and
      subtraction is reduced with [sz].
    - A [char] is a [Z] in [0, 256); a C string is the list of the bytes
      before its terminator.
    - The host's line array is the list [buf]; its length is the real size of
      the array.  A store outside of the array is undefined in C: here it
      leaves the array as it is, and a load outside of it reads 0.  The
      invariants proved below keep every access of the paths they cover
      inside the array.
    - Two runs into undefined behaviour are marked in the state: the pop of
      an empty history store ([history_len--] at 0 and the [free] behind it)
      and a copy of the renderer that reads past the end of the array.  They
      set [fault], which no call takes back; what the embedding does from
      there on says nothing about the code.
    - [malloc], [realloc] and [strdup] succeed. *)

From Stdlib Require Import String Ascii.
From Stdlib Require Import ZArith List Lia Bool.
Import ListNotations.
Local Open Scope Z_scope.

(** ** Bytes and literals *)

Definition bytes_of (s : string) : list Z :=
  map (fun a => Z.of_nat (nat_of_ascii a)) (list_ascii_of_string s).
Arguments bytes_of s%_string.

Definition ESC : Z := 27.
Definition NUL : Z := 0.
Definition SPACE : Z := 32.
Definition CR : Z := 13.
Definition LF : Z := 10.

(** [enum KEY_ACTION] *)
Definition KEY_NULL : Z := 0.
Definition CTRL_A : Z := 1.
Definition CTRL_B : Z := 2.
Definition CTRL_C : Z := 3.
Definition CTRL_D : Z := 4.
Definition CTRL_E : Z := 5.
Definition CTRL_F : Z := 6.
Definition CTRL_H : Z := 8.
Definition TAB : Z := 9.
Definition CTRL_K : Z := 11.
Definition CTRL_L : Z := 12.
Definition ENTER : Z := 13.
Definition CTRL_N : Z := 14.
Definition CTRL_P : Z := 16.
Definition CTRL_T : Z := 20.
Definition CTRL_U : Z := 21.
Definition CTRL_W : Z := 23.
Definition BACKSPACE : Z := 127.

Definition LINENOISE_DEFAULT_HISTORY_MAX_LEN : Z := 100.
Definition LINENOISE_MAX_LINE : Z := 4096.
Definition LINENOISE_HISTORY_NEXT : Z := 0.
Definition LINENOISE_HISTORY_PREV : Z := 1.

Definition PROMPT_HDR : list Z := ESC :: bytes_of "[1;37;49m".
Definition PROMPT_TLR : list Z := ESC :: bytes_of "[0m".

(** ** Machine integers *)

Definition SIZE_MOD : Z := 4294967296.
Definition INT_MAX : Z := 2147483647.

(** reduction of a value to [size_t] *)
Definition sz (x : Z) : Z := x mod SIZE_MOD.

(** conversion of a [size_t] to [ssize_t] or [int] (two's complement) *)
Definition to_int (x : Z) : Z :=
  if sz x <=? INT_MAX then sz x else sz x - SIZE_MOD.

(** conversion of an [int] to [char]: the low eight bits *)
Definition to_char (c : Z) : Z := c mod 256.

Definition MIN (a b : Z) : Z := if a <? b then a else b.

(** [%u] and [%d] of [snprintf] *)
Fixpoint udec_aux (fuel : nat) (n : Z) (acc : list Z) : list Z :=
  match fuel with
  | O => acc
  | S f =>
      let acc' := (48 + n mod 10) :: acc in
      if n / 10 =? 0 then acc' else udec_aux f (n / 10) acc'
  end.

Definition udec (n : Z) : list Z := udec_aux 12 (sz n) [].

Definition sdec (n : Z) : list Z :=
  if to_int n <? 0 then 45 :: udec_aux 12 (- to_int n) [] else udec_aux 12 (to_int n) [].

(** ** Arrays of bytes *)

Fixpoint upd {A : Type} (i : nat) (v : A) (b : list A) {struct b} : list A :=
  match b with
  | [] => []
  | x :: r => match i with O => v :: r | S j => x :: upd j v r end
  end.

Definition take {A : Type} (n : Z) (l : list A) : list A := firstn (Z.to_nat n) l.
Definition drop {A : Type} (n : Z) (l : list A) : list A := skipn (Z.to_nat n) l.

(** [b[i]] and [b[i] = v] with a [size_t] index *)
Definition buf_get (b : list Z) (i : Z) : Z := nth (Z.to_nat i) b 0.
Definition buf_set (b : list Z) (i : Z) (v : Z) : list Z := upd (Z.to_nat i) v b.

(** the [n] bytes that a copy from [b + off] reads, [b[off]] up to
    [b[off + n - 1]] *)
Definition read_bytes (b : list Z) (off n : Z) : list Z :=
  map (fun i => buf_get b (off + Z.of_nat i)) (List.seq 0 (Z.to_nat n)).

(** successive stores of [data] from index [i] on *)
Fixpoint store_bytes (i : nat) (data : list Z) (b : list Z) : list Z :=
  match data with
  | [] => b
  | x :: d => store_bytes (S i) d (upd i x b)
  end.

(** [memmove(b + dst, b + src, n)]: the source bytes are read first *)
Definition memmove (b : list Z) (dst src n : Z) : list Z :=
  store_bytes (Z.to_nat dst) (firstn (Z.to_nat n) (skipn (Z.to_nat src) b)) b.

(** the C string that starts at the head of an array *)
Fixpoint cstr (b : list Z) : list Z :=
  match b with
  | [] => []
  | x :: r => if x =? 0 then [] else x :: cstr r
  end.

Definition strlen (b : list Z) : Z := Z.of_nat (length (cstr b)).

Fixpoint bytes_eqb (a b : list Z) : bool :=
  match a, b with
  | [], [] => true
  | x :: a', y :: b' => (x =? y) && bytes_eqb a' b'
  | _, _ => false
  end.

(** [strcmp(a, b) == 0] *)
Definition strcmp0 (a b : list Z) : bool := bytes_eqb (cstr a) (cstr b).

(** [strchr(s, c) != NULL] for a byte [c] other than the terminator *)
Definition strchr_found (s : list Z) (c : Z) : bool :=
  existsb (fun x => x =? c) (cstr s).

(** [strncpy(b, src, n)]: [n] bytes are written, the string and then zeros *)
Definition strncpy (b : list Z) (src : list Z) (n : Z) : list Z :=
  store_bytes 0 (firstn (Z.to_nat n) (cstr src ++ repeat 0 (Z.to_nat n))) b.

(** [snprintf(b, n, "%s", src)]: at most [n - 1] bytes and a terminator are
    written when [n > 0]; the value returned is the length of [src] *)
Definition snprintf_s (b : list Z) (n : Z) (src : list Z) : list Z * Z :=
  (if n =? 0 then b
   else store_bytes 0 (firstn (Z.to_nat (n - 1)) (cstr src) ++ [0]) b,
   strlen src).

(** ** The state

    [struct linenoiseState] (the static [l_state]) together with the other
    file-scope statics and the two output streams.  The fields
    [cur_pos_buf], [cur_pos_idx] and [cur_pos_initial] are left out: only
    the code behind the [goto failed] of [getColumns] uses them.  The
    history is the list of its [history_len] entries;
    [history_len] is the length of that list.

    Two fields are not in the C program.  [fault] is set where the code
    runs into undefined behaviour that the list model cannot follow: the
    pop of an empty history ([history_len--] wraps and the [free] is out of
    range) and a copy of line bytes that reads past the end of the array.
    Nothing resets it, and from then on the other fields say nothing about
    the program.  [ml_calls] is a record that no code reads: every run of
    [refreshMultiLine] appends the values of its locals [old_rows] and
    [rpos].  *)

Inductive ln_mode : Type :=
  | ln_init
  | ln_read_regular
  | ln_read_esc
  | ln_completion
  | ln_getColumns
  | ln_getColumns_1
  | ln_getColumns_2.

Definition ln_mode_eqb (a b : ln_mode) : bool :=
  match a, b with
  | ln_init, ln_init | ln_read_regular, ln_read_regular
  | ln_read_esc, ln_read_esc | ln_completion, ln_completion
  | ln_getColumns, ln_getColumns | ln_getColumns_1, ln_getColumns_1
  | ln_getColumns_2, ln_getColumns_2 => true
  | _, _ => false
  end.

Record linenoiseState : Type := mkState {
  mode : ln_mode;  (* current mode of the state machine *)
  seq : list Z;  (* escape sequence buffer, [char seq[3]] *)
  seq_idx : Z;  (* escape sequence read index *)
  completion_idx : Z;  (* selected completion *)
  lc : list (list Z);  (* [lc.cvec], [lc.len] is its length *)
  smart_term_connected : bool;
  buf : list Z;  (* the array behind [l->buf] *)
  buflen : Z;
  prompt : list Z;
  plen : Z;
  pos : Z;
  oldpos : Z;
  len : Z;
  cols : Z;
  maxrows : Z;
  history_index : Z;  (* [ssize_t] *)
  mlmode : bool;  (* file-scope static *)
  history_max_len : Z;  (* file-scope static *)
  history : list (list Z);  (* the entries [history[0 .. history_len - 1]] *)
  out : list Z;  (* the bytes given to [linenoise_write] so far *)
  err : list Z;  (* the bytes printed on [stderr] so far *)
  fault : bool;  (* set once the code has run into undefined behaviour *)
  ml_calls : list (Z * Z)
    (* for every run of [refreshMultiLine] so far, its [old_rows] and [rpos] *)
}.

Definition history_len (w : linenoiseState) : Z := Z.of_nat (length (history w)).

Definition set_mode (v : ln_mode) (w : linenoiseState) : linenoiseState :=
  mkState v (seq w) (seq_idx w) (completion_idx w) (lc w) (smart_term_connected w) (buf w) (buflen w) (prompt w) (plen w) (pos w) (oldpos w) (len w) (cols w) (maxrows w) (history_index w) (mlmode w) (history_max_len w) (history w) (out w) (err w) (fault w) (ml_calls w).
Definition set_seq (v : list Z) (w : linenoiseState) : linenoiseState :=
  mkState (mode w) v (seq_idx w) (completion_idx w) (lc w) (smart_term_connected w) (buf w) (buflen w) (prompt w) (plen w) (pos w) (oldpos w) (len w) (cols w) (maxrows w) (history_index w) (mlmode w) (history_max_len w) (history w) (out w) (err w) (fault w) (ml_calls w).
Definition set_seq_idx (v : Z) (w : linenoiseState) : linenoiseState :=
  mkState (mode w) (seq w) v (completion_idx w) (lc w) (smart_term_connected w) (buf w) (buflen w) (prompt w) (plen w) (pos w) (oldpos w) (len w) (cols w) (maxrows w) (history_index w) (mlmode w) (history_max_len w) (history w) (out w) (err w) (fault w) (ml_calls w).
Definition set_completion_idx (v : Z) (w : linenoiseState) : linenoiseState :=
  mkState (mode w) (seq w) (seq_idx w) v (lc w) (smart_term_connected w) (buf w) (buflen w) (prompt w) (plen w) (pos w) (oldpos w) (len w) (cols w) (maxrows w) (history_index w) (mlmode w) (history_max_len w) (history w) (out w) (err w) (fault w) (ml_calls w).
Definition set_lc (v : list (list Z)) (w : linenoiseState) : linenoiseState :=
  mkState (mode w) (seq w) (seq_idx w) (completion_idx w) v (smart_term_connected w) (buf w) (buflen w) (prompt w) (plen w) (pos w) (oldpos w) (len w) (cols w) (maxrows w) (history_index w) (mlmode w) (history_max_len w) (history w) (out w) (err w) (fault w) (ml_calls w).
Definition set_smart_term_connected (v : bool) (w : linenoiseState) : linenoiseState :=
  mkState (mode w) (seq w) (seq_idx w) (completion_idx w) (lc w) v (buf w) (buflen w) (prompt w) (plen w) (pos w) (oldpos w) (len w) (cols w) (maxrows w) (history_index w) (mlmode w) (history_max_len w) (history w) (out w) (err w) (fault w) (ml_calls w).
Definition set_buf (v : list Z) (w : linenoiseState) : linenoiseState :=
  mkState (mode w) (seq w) (seq_idx w) (completion_idx w) (lc w) (smart_term_connected w) v (buflen w) (prompt w) (plen w) (pos w) (oldpos w) (len w) (cols w) (maxrows w) (history_index w) (mlmode w) (history_max_len w) (history w) (out w) (err w) (fault w) (ml_calls w).
Definition set_buflen (v : Z) (w : linenoiseState) : linenoiseState :=
  mkState (mode w) (seq w) (seq_idx w) (completion_idx w) (lc w) (smart_term_connected w) (buf w) v (prompt w) (plen w) (pos w) (oldpos w) (len w) (cols w) (maxrows w) (history_index w) (mlmode w) (history_max_len w) (history w) (out w) (err w) (fault w) (ml_calls w).
Definition set_prompt (v : list Z) (w : linenoiseState) : linenoiseState :=
  mkState (mode w) (seq w) (seq_idx w) (completion_idx w) (lc w) (smart_term_connected w) (buf w) (buflen w) v (plen w) (pos w) (oldpos w) (len w) (cols w) (maxrows w) (history_index w) (mlmode w) (history_max_len w) (history w) (out w) (err w) (fault w) (ml_calls w).
Definition set_plen (v : Z) (w : linenoiseState) : linenoiseState :=
  mkState (mode w) (seq w) (seq_idx w) (completion_idx w) (lc w) (smart_term_connected w) (buf w) (buflen w) (prompt w) v (pos w) (oldpos w) (len w) (cols w) (maxrows w) (history_index w) (mlmode w) (history_max_len w) (history w) (out w) (err w) (fault w) (ml_calls w).
Definition set_pos (v : Z) (w : linenoiseState) : linenoiseState :=
  mkState (mode w) (seq w) (seq_idx w) (completion_idx w) (lc w) (smart_term_connected w) (buf w) (buflen w) (prompt w) (plen w) v (oldpos w) (len w) (cols w) (maxrows w) (history_index w) (mlmode w) (history_max_len w) (history w) (out w) (err w) (fault w) (ml_calls w).
Definition set_oldpos (v : Z) (w : linenoiseState) : linenoiseState :=
  mkState (mode w) (seq w) (seq_idx w) (completion_idx w) (lc w) (smart_term_connected w) (buf w) (buflen w) (prompt w) (plen w) (pos w) v (len w) (cols w) (maxrows w) (history_index w) (mlmode w) (history_max_len w) (history w) (out w) (err w) (fault w) (ml_calls w).
Definition set_len (v : Z) (w : linenoiseState) : linenoiseState :=
  mkState (mode w) (seq w) (seq_idx w) (completion_idx w) (lc w) (smart_term_connected w) (buf w) (buflen w) (prompt w) (plen w) (pos w) (oldpos w) v (cols w) (maxrows w) (history_index w) (mlmode w) (history_max_len w) (history w) (out w) (err w) (fault w) (ml_calls w).
Definition set_cols (v : Z) (w : linenoiseState) : linenoiseState :=
  mkState (mode w) (seq w) (seq_idx w) (completion_idx w) (lc w) (smart_term_connected w) (buf w) (buflen w) (prompt w) (plen w) (pos w) (oldpos w) (len w) v (maxrows w) (history_index w) (mlmode w) (history_max_len w) (history w) (out w) (err w) (fault w) (ml_calls w).
Definition set_maxrows (v : Z) (w : linenoiseState) : linenoiseState :=
  mkState (mode w) (seq w) (seq_idx w) (completion_idx w) (lc w) (smart_term_connected w) (buf w) (buflen w) (prompt w) (plen w) (pos w) (oldpos w) (len w) (cols w) v (history_index w) (mlmode w) (history_max_len w) (history w) (out w) (err w) (fault w) (ml_calls w).
Definition set_history_index (v : Z) (w : linenoiseState) : linenoiseState :=
  mkState (mode w) (seq w) (seq_idx w) (completion_idx w) (lc w) (smart_term_connected w) (buf w) (buflen w) (prompt w) (plen w) (pos w) (oldpos w) (len w) (cols w) (maxrows w) v (mlmode w) (history_max_len w) (history w) (out w) (err w) (fault w) (ml_calls w).
Definition set_mlmode (v : bool) (w : linenoiseState) : linenoiseState :=
  mkState (mode w) (seq w) (seq_idx w) (completion_idx w) (lc w) (smart_term_connected w) (buf w) (buflen w) (prompt w) (plen w) (pos w) (oldpos w) (len w) (cols w) (maxrows w) (history_index w) v (history_max_len w) (history w) (out w) (err w) (fault w) (ml_calls w).
Definition set_history_max_len (v : Z) (w : linenoiseState) : linenoiseState :=
  mkState (mode w) (seq w) (seq_idx w) (completion_idx w) (lc w) (smart_term_connected w) (buf w) (buflen w) (prompt w) (plen w) (pos w) (oldpos w) (len w) (cols w) (maxrows w) (history_index w) (mlmode w) v (history w) (out w) (err w) (fault w) (ml_calls w).
Definition set_history (v : list (list Z)) (w : linenoiseState) : linenoiseState :=
  mkState (mode w) (seq w) (seq_idx w) (completion_idx w) (lc w) (smart_term_connected w) (buf w) (buflen w) (prompt w) (plen w) (pos w) (oldpos w) (len w) (cols w) (maxrows w) (history_index w) (mlmode w) (history_max_len w) v (out w) (err w) (fault w) (ml_calls w).
Definition set_out (v : list Z) (w : linenoiseState) : linenoiseState :=
  mkState (mode w) (seq w) (seq_idx w) (completion_idx w) (lc w) (smart_term_connected w) (buf w) (buflen w) (prompt w) (plen w) (pos w) (oldpos w) (len w) (cols w) (maxrows w) (history_index w) (mlmode w) (history_max_len w) (history w) v (err w) (fault w) (ml_calls w).
Definition set_err (v : list Z) (w : linenoiseState) : linenoiseState :=
  mkState (mode w) (seq w) (seq_idx w) (completion_idx w) (lc w) (smart_term_connected w) (buf w) (buflen w) (prompt w) (plen w) (pos w) (oldpos w) (len w) (cols w) (maxrows w) (history_index w) (mlmode w) (history_max_len w) (history w) (out w) v (fault w) (ml_calls w).
Definition set_fault (v : bool) (w : linenoiseState) : linenoiseState :=
  mkState (mode w) (seq w) (seq_idx w) (completion_idx w) (lc w) (smart_term_connected w) (buf w) (buflen w) (prompt w) (plen w) (pos w) (oldpos w) (len w) (cols w) (maxrows w) (history_index w) (mlmode w) (history_max_len w) (history w) (out w) (err w) v (ml_calls w).
Definition set_ml_calls (v : list (Z * Z)) (w : linenoiseState) : linenoiseState :=
  mkState (mode w) (seq w) (seq_idx w) (completion_idx w) (lc w) (smart_term_connected w) (buf w) (buflen w) (prompt w) (plen w) (pos w) (oldpos w) (len w) (cols w) (maxrows w) (history_index w) (mlmode w) (history_max_len w) (history w) (out w) (err w) (fault w) v.

(** ** Streams *)

(** [linenoise_write(s, n)] and [linenoise_write_string] *)
Definition linenoise_write (s : list Z) (w : linenoiseState) : linenoiseState :=
  set_out (out w ++ s) w.

Definition linenoiseBeep (w : linenoiseState) : linenoiseState :=
  set_err (err w ++ [7]) w.

Definition linenoiseSetMultiLine (ml : bool) (w : linenoiseState) : linenoiseState :=
  set_mlmode ml w.

(** [getColumns]: the function starts with [goto failed], so the switch
    that follows is never entered; what is left is the code at the labels
    [failed] and [finished]. *)
Definition getColumns (w : linenoiseState) : Z * linenoiseState :=
  (0, set_mode ln_init (set_cols 80 (set_smart_term_connected false w))).

Definition linenoiseClearScreen (w : linenoiseState) : linenoiseState :=
  set_mode ln_getColumns (linenoise_write (ESC :: bytes_of "[H" ++ ESC :: bytes_of "[2J") w).

Definition smartTerminalConnected (w : linenoiseState) : bool :=
  smart_term_connected w.

(** ** History *)

Definition str_at (h : list (list Z)) (i : Z) : list Z := nth (Z.to_nat i) h [].

Definition linenoiseHistoryAdd (line : list Z) (w : linenoiseState) : Z * linenoiseState :=
  if history_max_len w =? 0 then (0, w)
  else if negb (history_len w =? 0)
          && strcmp0 (str_at (history w) (history_len w - 1)) line then (0, w)
  else
    let linecopy := cstr line in
    let h := if history_len w =? history_max_len w then drop 1 (history w)
             else history w in
    (1, set_history (h ++ [linecopy]) w).

Definition linenoiseHistorySetMaxLen (n : Z) (w : linenoiseState) : Z * linenoiseState :=
  if n <? 1 then (0, w)
  else
    let tocopy := if n <? history_len w then n else history_len w in
    (1, set_history_max_len n
          (set_history (drop (history_len w - tocopy) (history w)) w)).

(** the bytes that [linenoiseHistorySave] prints into the file *)
Definition linenoiseHistorySave (w : linenoiseState) : list Z :=
  concat (map (fun e => e ++ [LF]) (history w)).

(** [fgets(buf, n + 1, fp)]: at most [n] bytes, up to and with a newline;
    the result is the bytes read and the rest of the file *)
Fixpoint fgets (n : nat) (file : list Z) {struct file} : list Z * list Z :=
  match n, file with
  | O, _ => ([], file)
  | _, [] => ([], [])
  | S m, c :: r =>
      if c =? LF then ([c], r)
      else let '(l, r') := fgets m r in (c :: l, r')
  end.

(** the prefix of [s] before the first [c] *)
Fixpoint cut_at (c : Z) (s : list Z) : list Z :=
  match s with
  | [] => []
  | x :: r => if x =? c then [] else x :: cut_at c r
  end.

(** the two [strchr] and the store of the terminator in the loop of
    [linenoiseHistoryLoad] *)
Definition strip_eol (line : list Z) : list Z :=
  if strchr_found line CR then cut_at CR (cstr line)
  else cut_at LF (cstr line).

Fixpoint load_loop (fuel : nat) (file : list Z) (w : linenoiseState) : linenoiseState :=
  match fuel with
  | O => w
  | S f =>
      match file with
      | [] => w
      | _ =>
          let '(line, rest) := fgets (Z.to_nat (LINENOISE_MAX_LINE - 1)) file in
          load_loop f rest (snd (linenoiseHistoryAdd (strip_eol line) w))
      end
  end.

(** [file] is the content of the file, [None] when it cannot be opened *)
Definition linenoiseHistoryLoad (file : option (list Z)) (w : linenoiseState)
  : Z * linenoiseState :=
  match file with
  | None => (-1, w)
  | Some f => (0, load_loop (length f) f w)
  end.

(** ** The editor engine *)

Section Engine.

(** The two functions that the host links in.  [linenoise_completion buf]
    is the list of the strings that the callback hands to
    [linenoiseAddCompletion], in order.  [linenoise_hints buf] is [None] for
    a [NULL] result and otherwise the pair [hints[0]], [hints[1]]; the code
    treats a [NULL] entry as an empty one, so [[]] stands for both. *)
Variable linenoise_completion : list Z -> list (list Z).
Variable linenoise_hints : list Z -> option (list Z * list Z).

Definition linenoiseAddCompletion (lc0 : list (list Z)) (str : list Z) : list (list Z) :=
  lc0 ++ [cstr str].

(** *** Hints *)

(** the bytes of [s] before the first byte that satisfies [stop] *)
Fixpoint scan (stop : Z -> bool) (s : list Z) : nat :=
  match s with
  | [] => O
  | x :: r => if stop x then O else S (scan stop r)
  end.

Definition is_open_bracket (x : Z) : bool := x =? 91.
Definition is_arg_stop (x : Z) : bool := (x =? SPACE) || (x =? 93).

(** the loop [while (arg_id--)] of [refreshShowHints]; [p] is the offset
    [hint_ptr - hints[0]] *)
Fixpoint locate_arg (arg_id : nat) (h0 : list Z) (p arg_start : nat) : nat * nat :=
  match arg_id with
  | O => (p, arg_start)
  | S k =>
      let p1 := (p + scan is_open_bracket (skipn p h0))%nat in
      let p2 := if (p1 <? length h0)%nat then S p1 else p1 in
      locate_arg k h0 p2 p2
  end.

Definition count_spaces (s : list Z) : nat :=
  length (filter (fun x => x =? SPACE) s).

Definition HINT_NORMAL : list Z := ESC :: bytes_of "[0;35;49m".
Definition HINT_REVERSE : list Z := ESC :: bytes_of "[7;35;49m".
Definition HINT_BOLD : list Z := ESC :: bytes_of "[1;35;49m".
Definition HINT_RESET : list Z := ESC :: bytes_of "[0m".

(** the bytes appended for [hints[0]]: the branch under
    [if (hints[0] && *hints[0] != 0)] up to the update of [cols_avail] *)
Definition show_args (b h0 : list Z) (abLen : Z) : list Z :=
  if strchr_found b SPACE then
    let arg_id := count_spaces (cstr b) in
    let '(hint_ptr, arg_start_n) := locate_arg arg_id h0 O O in
    let arg_start := Z.of_nat arg_start_n in
    let arg_end :=
      if arg_start =? 0 then 0
      else Z.of_nat (hint_ptr + scan is_arg_stop (skipn hint_ptr h0)) in
    if negb (arg_start =? arg_end) then
      take (MIN abLen arg_start) h0
      ++ HINT_REVERSE
      ++ take (if abLen <? arg_start then 0
               else if abLen <? arg_end then sz (abLen - arg_start)
                    else sz (arg_end - arg_start)) (drop arg_start h0)
      ++ HINT_NORMAL
      ++ take (if abLen <? arg_end then 0 else sz (abLen - arg_end)) (drop arg_end h0)
    else take abLen h0
  else take abLen h0.

(** [refreshShowHints(ab, l, plen)]: the bytes appended to [ab] *)
Definition refreshShowHints (w : linenoiseState) (plen : Z) : list Z :=
  let cols_avail := to_int (cols w - (plen + len w + 1)) in
  if cols_avail >? 0 then
    match linenoise_hints (cstr (buf w)) with
    | None => []
    | Some (hint0, hint1) =>
        let h0 := cstr hint0 in
        let h1 := cstr hint1 in
        let '(ab, cols_avail1) :=
          match h0 with
          | [] => ([], cols_avail)
          | _ =>
              let abLen := MIN (strlen h0) (sz cols_avail) in
              let ab := show_args (buf w) h0 abLen in
              let ca := cols_avail - abLen in
              if ca >? 0 then (ab ++ [SPACE], ca - 1) else (ab, ca)
          end in
        let ab2 :=
          match h1 with
          | [] => []
          | _ =>
              if cols_avail1 >? 0
              then HINT_BOLD ++ take (MIN (strlen h1) (sz cols_avail1)) h1
              else []
          end in
        (SPACE :: HINT_NORMAL) ++ ab ++ ab2 ++ HINT_RESET
    end
  else [].

(** *** Redraw *)

(** first loop of [refreshSingleLine]; [off] is the advance of the local
    pointer [buf] *)
Fixpoint scroll_left (fuel : nat) (pl cl off ln ps : Z) : Z * Z * Z :=
  match fuel with
  | O => (off, ln, ps)
  | S f =>
      if sz (pl + ps) >=? cl
      then scroll_left f pl cl (off + 1) (sz (ln - 1)) (sz (ps - 1))
      else (off, ln, ps)
  end.

(** second loop of [refreshSingleLine] *)
Fixpoint clip_right (fuel : nat) (pl cl ln : Z) : Z :=
  match fuel with
  | O => ln
  | S f => if sz (pl + ln) >? cl then clip_right f pl cl (sz (ln - 1)) else ln
  end.

Definition ERASE_RIGHT : list Z := ESC :: bytes_of "[0K".

(** [abAppendN(&ab, buf, len)] copies [len] bytes from the offset [off] of
    the line array, whatever the size of the array: past its end the copy
    is a fault *)
Definition copy_check (off n : Z) (w : linenoiseState) : linenoiseState :=
  if off + n <=? Z.of_nat (length (buf w)) then w else set_fault true w.

(** Both loops end after at most [plen + pos] and [plen + len] rounds when
    [cols] is not 0, and that is the fuel they get; with [cols = 0] the
    first loop of the C code does not end. *)
Definition refreshSingleLine (showHints : bool) (w : linenoiseState) : linenoiseState :=
  let pl := strlen (prompt w) in
  let '(off, ln1, ps) :=
    scroll_left (Z.to_nat (sz (pl + pos w))) pl (cols w) 0 (len w) (pos w) in
  let ln := clip_right (Z.to_nat (sz (pl + ln1))) pl (cols w) ln1 in
  let ab :=
    [CR] ++ PROMPT_HDR ++ cstr (prompt w) ++ PROMPT_TLR
    ++ read_bytes (buf w) off ln
    ++ (if showHints then refreshShowHints w pl else [])
    ++ ERASE_RIGHT
    ++ (CR :: ESC :: bytes_of "[") ++ sdec (sz (ps + pl)) ++ bytes_of "C" in
  linenoise_write ab (copy_check off ln w).

(** the values that [refreshMultiLine] computes before it draws *)
Definition ml_rows (w : linenoiseState) : Z :=
  sz (strlen (prompt w) + len w + cols w - 1) / cols w.
Definition ml_rpos (w : linenoiseState) : Z :=
  sz (strlen (prompt w) + oldpos w + cols w) / cols w.
Definition ml_old_rows (w : linenoiseState) : Z := maxrows w.
(** [old_rows - rpos], the rows to go down *)
Definition ml_go_down (w : linenoiseState) : Z := sz (ml_old_rows w - ml_rpos w).
(** [old_rows - 1], the bound of the loop that clears the rows *)
Definition ml_clear_bound (w : linenoiseState) : Z := sz (ml_old_rows w - 1).

(** a run of the renderer with the values [old_rows] and [rpos]: neither
    [old_rows - rpos] nor [old_rows - 1] wraps around *)
Definition ml_call_ok (call : Z * Z) : Prop :=
  let '(old_rows, rpos) := call in
  rpos <= old_rows /\ 1 <= old_rows /\
  sz (old_rows - rpos) = old_rows - rpos /\ sz (old_rows - 1) = old_rows - 1.

Definition CLEAR_AND_UP : list Z :=
  CR :: ERASE_RIGHT ++ ESC :: bytes_of "[1A".

(** A division by [cols = 0] is undefined in C; here it gives 0. *)
Definition refreshMultiLine (showHints : bool) (w : linenoiseState) : linenoiseState :=
  let pl := strlen (prompt w) in
  let rows := ml_rows w in
  let maxrows1 := if rows >? maxrows w then rows else maxrows w in
  let ab1 :=
    (if ml_go_down w >? 0 then ESC :: bytes_of "[" ++ udec (ml_go_down w) ++ bytes_of "B"
     else [])
    ++ concat (repeat CLEAR_AND_UP (Z.to_nat (ml_clear_bound w)))
    ++ CR :: ERASE_RIGHT
    ++ PROMPT_HDR ++ cstr (prompt w) ++ PROMPT_TLR
    ++ read_bytes (buf w) 0 (len w)
    ++ (if showHints then refreshShowHints w pl else []) in
  let at_end :=
    negb (pos w =? 0) && (pos w =? len w) && (sz (pos w + pl) mod cols w =? 0) in
  let rows2 := if at_end then sz (rows + 1) else rows in
  let maxrows2 := if at_end && (rows2 >? maxrows1) then rows2 else maxrows1 in
  let rpos2 := sz (pl + pos w + cols w) / cols w in
  let col := sz (pl + pos w) mod cols w in
  let ab2 :=
    (if at_end then [LF; CR] else [])
    ++ (if sz (rows2 - rpos2) >? 0
        then ESC :: bytes_of "[" ++ udec (sz (rows2 - rpos2)) ++ bytes_of "A"
        else [])
    ++ (if negb (col =? 0) then CR :: ESC :: bytes_of "[" ++ udec col ++ bytes_of "C"
        else [CR]) in
  linenoise_write (ab1 ++ ab2)
    (set_oldpos (pos w) (set_maxrows maxrows2
       (set_ml_calls (ml_calls w ++ [(ml_old_rows w, ml_rpos w)]) (copy_check 0 (len w) w)))).

Definition refreshLine (w : linenoiseState) : linenoiseState :=
  if mlmode w then refreshMultiLine true w else refreshSingleLine true w.

Definition refreshLineNoHints (w : linenoiseState) : linenoiseState :=
  if mlmode w then refreshMultiLine false w else refreshSingleLine false w.

(** *** Edit operations *)

Definition linenoiseEditInsert (c : Z) (w : linenoiseState) : Z * linenoiseState :=
  if len w <? buflen w then
    if len w =? pos w then
      let w1 := set_buf (buf_set (buf w) (pos w) c) w in
      let w2 := set_pos (sz (pos w1 + 1)) w1 in
      let w3 := set_len (sz (len w2 + 1)) w2 in
      let w4 := set_buf (buf_set (buf w3) (len w3) 0) w3 in
      (0, refreshLine w4)
    else
      let w1 := set_buf (memmove (buf w) (pos w + 1) (pos w) (sz (len w - pos w))) w in
      let w2 := set_buf (buf_set (buf w1) (pos w1) c) w1 in
      let w3 := set_len (sz (len w2 + 1)) w2 in
      let w4 := set_pos (sz (pos w3 + 1)) w3 in
      let w5 := set_buf (buf_set (buf w4) (len w4) 0) w4 in
      (0, refreshLine w5)
  else (0, w).

Definition linenoiseEditMoveLeft (w : linenoiseState) : linenoiseState :=
  if pos w >? 0 then refreshLine (set_pos (sz (pos w - 1)) w) else w.

Definition linenoiseEditMoveRight (w : linenoiseState) : linenoiseState :=
  if negb (pos w =? len w) then refreshLine (set_pos (sz (pos w + 1)) w) else w.

Definition linenoiseEditMoveHome (w : linenoiseState) : linenoiseState :=
  if negb (pos w =? 0) then refreshLine (set_pos 0 w) else w.

Definition linenoiseEditMoveEnd (w : linenoiseState) : linenoiseState :=
  if negb (pos w =? len w) then refreshLine (set_pos (len w) w) else w.

Definition linenoiseEditHistoryNext (dir : Z) (w : linenoiseState) : linenoiseState :=
  if history_len w >? 1 then
    let slot := sz (history_len w - 1 - sz (history_index w)) in
    let w1 := set_history (upd (Z.to_nat slot) (cstr (buf w)) (history w)) w in
    let idx := history_index w1 + (if dir =? LINENOISE_HISTORY_PREV then 1 else -1) in
    if idx <? 0 then set_history_index 0 w1
    else if sz idx >=? history_len w1
         then set_history_index (to_int (history_len w1) - 1) w1
    else
      let w2 := set_history_index idx w1 in
      let src := str_at (history w2) (sz (history_len w2 - 1 - sz idx)) in
      let w3 := set_buf (strncpy (buf w2) src (buflen w2)) w2 in
      let w4 := set_buf (buf_set (buf w3) (sz (buflen w3 - 1)) 0) w3 in
      let n := strlen (buf w4) in
      refreshLine (set_len n (set_pos n w4))
  else w.

Definition linenoiseEditDelete (w : linenoiseState) : linenoiseState :=
  if (len w >? 0) && (pos w <? len w) then
    let w1 := set_buf (memmove (buf w) (pos w) (pos w + 1) (sz (len w - pos w - 1))) w in
    let w2 := set_len (sz (len w1 - 1)) w1 in
    refreshLine (set_buf (buf_set (buf w2) (len w2) 0) w2)
  else w.

Definition linenoiseEditBackspace (w : linenoiseState) : linenoiseState :=
  if (pos w >? 0) && (len w >? 0) then
    let w1 := set_buf (memmove (buf w) (pos w - 1) (pos w) (sz (len w - pos w))) w in
    let w2 := set_pos (sz (pos w1 - 1)) w1 in
    let w3 := set_len (sz (len w2 - 1)) w2 in
    refreshLine (set_buf (buf_set (buf w3) (len w3) 0) w3)
  else w.

(** a loop [while (l->pos > 0 && test(l->buf[l->pos - 1])) l->pos--] *)
Fixpoint back_while (fuel : nat) (test : Z -> bool) (b : list Z) (p : Z) : Z :=
  match fuel with
  | O => p
  | S f =>
      if (p >? 0) && test (buf_get b (p - 1))
      then back_while f test b (sz (p - 1))
      else p
  end.

Definition linenoiseEditDeletePrevWord (w : linenoiseState) : linenoiseState :=
  let old_pos := pos w in
  let p1 := back_while (Z.to_nat (pos w)) (fun x => x =? SPACE) (buf w) (pos w) in
  let p2 := back_while (Z.to_nat p1) (fun x => negb (x =? SPACE)) (buf w) p1 in
  let diff := sz (old_pos - p2) in
  let w1 := set_pos p2 w in
  let w2 := set_buf (memmove (buf w1) (pos w1) old_pos (sz (len w1 - old_pos + 1))) w1 in
  refreshLine (set_len (sz (len w2 - diff)) w2).

(** *** The state machine *)

(** The parameters [buf] and [buflen] are the host's array and the size the
    host gives for it. *)
Definition lnInitState (hbuf : list Z) (hbuflen : Z) (hprompt : list Z)
    (w : linenoiseState) : linenoiseState :=
  let w1 := set_buf hbuf w in
  let w2 := set_buflen hbuflen w1 in
  let w3 := set_plen (strlen hprompt) (set_prompt hprompt w2) in
  let w4 := set_oldpos 0 (set_pos 0 w3) in
  let w5 := set_history_index 0 (set_maxrows 0 (set_len 0 w4)) in
  let w6 := set_buf (buf_set (buf w5) 0 0) w5 in
  let w7 := set_buflen (sz (buflen w6 - 1)) w6 in
  let w8 := snd (linenoiseHistoryAdd [] w7) in
  let w9 :=
    if smart_term_connected w8
    then linenoise_write PROMPT_TLR
           (linenoise_write (cstr hprompt) (linenoise_write PROMPT_HDR w8))
    else linenoise_write (cstr hprompt) w8 in
  set_mode ln_read_regular w9.

Definition lnRestartState (w : linenoiseState) : linenoiseState :=
  set_mode (if smart_term_connected w then ln_getColumns else ln_init) w.

(** [c] is the value of [linenoise_getch()] *)
Definition lnReadEscSequence (c : Z) (w : linenoiseState) : Z * linenoiseState :=
  if c <? 0 then (-1, w)
  else if seq_idx w >=? 3 then (-1, w)
  else
    let w1 := set_seq_idx (sz (seq_idx w + 1))
                (set_seq (buf_set (seq w) (seq_idx w) (to_char c)) w) in
    if seq_idx w1 <? 2 then (-1, w1)
    else
      let s0 := buf_get (seq w1) 0 in
      let s1 := buf_get (seq w1) 1 in
      let s2 := buf_get (seq w1) 2 in
      if s0 =? 91 then
        if (s1 >=? 48) && (s1 <=? 57) then
          if seq_idx w1 <? 3 then (-1, w1)
          else
            let w2 := if (s2 =? 126) && (s1 =? 51) then linenoiseEditDelete w1 else w1 in
            (-1, set_mode ln_read_regular w2)
        else
          let w2 :=
            if s1 =? 65 then linenoiseEditHistoryNext LINENOISE_HISTORY_PREV w1
            else if s1 =? 66 then linenoiseEditHistoryNext LINENOISE_HISTORY_NEXT w1
            else if s1 =? 67 then linenoiseEditMoveRight w1
            else if s1 =? 68 then linenoiseEditMoveLeft w1
            else if s1 =? 72 then linenoiseEditMoveHome w1
            else if s1 =? 70 then linenoiseEditMoveEnd w1
            else w1 in
          (-1, set_mode ln_read_regular w2)
      else if s0 =? 79 then
        let w2 :=
          if s1 =? 72 then linenoiseEditMoveHome w1
          else if s1 =? 70 then linenoiseEditMoveEnd w1
          else w1 in
        (-1, set_mode ln_read_regular w2)
      else (-1, set_mode ln_read_regular w1).

(** the loop of [lnShowCompletion] *)
Fixpoint skip_identical (fuel : nat) (b : list Z) (cvec : list (list Z)) (idx : Z) : Z :=
  match fuel with
  | O => idx
  | S f =>
      if idx <? Z.of_nat (length cvec) then
        if strcmp0 b (str_at cvec idx)
        then skip_identical f b cvec (sz (idx + 1) mod sz (Z.of_nat (length cvec) + 1))
        else idx
      else idx
  end.

Definition lnShowCompletion (w : linenoiseState) : linenoiseState :=
  let saved := w in
  let idx := skip_identical (S (length (lc w))) (buf w) (lc w) (completion_idx w) in
  let w1 := set_completion_idx idx w in
  let w2 :=
    if completion_idx w1 <? Z.of_nat (length (lc w1)) then
      let cand := str_at (lc w1) (completion_idx w1) in
      set_buf (cand ++ [0]) (set_pos (strlen cand) (set_len (strlen cand) w1))
    else w1 in
  let w3 := refreshLine w2 in
  set_buf (buf saved) (set_pos (pos saved) (set_len (len saved) w3)).

Definition completeLine (w : linenoiseState) : linenoiseState :=
  let w1 := set_lc (fold_left linenoiseAddCompletion
                      (linenoise_completion (cstr (buf w))) []) w in
  if Z.of_nat (length (lc w1)) =? 0 then set_lc [] (linenoiseBeep w1)
  else lnShowCompletion (set_mode ln_completion (set_completion_idx 0 w1)).

(** [history_len--; free(history[history_len])].  With [history_len = 0]
    the C code wraps the counter and frees out of range: a fault. *)
Definition history_pop (w : linenoiseState) : linenoiseState :=
  if history_len w =? 0 then set_fault true w
  else set_history (removelast (history w)) w.

(** [c] is the [char] handed over; the cases stand in the order of the
    switch, the [default] case last. *)
Definition lnHandleCharacter (c : Z) (w : linenoiseState) : Z * linenoiseState :=
  if c =? TAB then (-1, completeLine w)
  else if c =? ENTER then
    let w1 := history_pop w in
    let w2 := if mlmode w1 then linenoiseEditMoveEnd w1 else w1 in
    let w3 := lnRestartState (refreshLineNoHints w2) in
    (to_int (len w3), w3)
  else if c =? CTRL_C then (-1, w)
  else if (c =? BACKSPACE) || (c =? 8) then (-1, linenoiseEditBackspace w)
  else if c =? CTRL_D then
    if len w >? 0 then (-1, linenoiseEditDelete w)
    else (-2, history_pop w)
  else if c =? CTRL_T then
    if (pos w >? 0) && (pos w <? len w) then
      let aux := buf_get (buf w) (pos w - 1) in
      let w1 := set_buf (buf_set (buf w) (pos w - 1) (buf_get (buf w) (pos w))) w in
      let w2 := set_buf (buf_set (buf w1) (pos w1) aux) w1 in
      let w3 := if negb (pos w2 =? sz (len w2 - 1)) then set_pos (sz (pos w2 + 1)) w2
                else w2 in
      (-1, refreshLine w3)
    else (-1, w)
  else if c =? CTRL_B then (-1, linenoiseEditMoveLeft w)
  else if c =? CTRL_F then (-1, linenoiseEditMoveRight w)
  else if c =? CTRL_P then (-1, linenoiseEditHistoryNext LINENOISE_HISTORY_PREV w)
  else if c =? CTRL_N then (-1, linenoiseEditHistoryNext LINENOISE_HISTORY_NEXT w)
  else if c =? ESC then (-1, set_mode ln_read_esc (set_seq_idx 0 w))
  else if c =? CTRL_U then
    (-1, refreshLine (set_len 0 (set_pos 0 (set_buf (buf_set (buf w) 0 0) w))))
  else if c =? CTRL_K then
    (-1, refreshLine (set_len (pos w) (set_buf (buf_set (buf w) (pos w) 0) w)))
  else if c =? CTRL_A then (-1, linenoiseEditMoveHome w)
  else if c =? CTRL_E then (-1, linenoiseEditMoveEnd w)
  else if c =? CTRL_L then (-1, refreshLine (linenoiseClearScreen w))
  else if c =? CTRL_W then (-1, linenoiseEditDeletePrevWord w)
  else
    let '(r, w1) := linenoiseEditInsert c w in
    if negb (r =? 0) then (-1, w1) else (-1, w1).

Definition lnHandleCharacterDumb (c : Z) (w : linenoiseState) : Z * linenoiseState :=
  if (c =? CR) || (c =? LF) then
    let w1 := lnRestartState (set_buf (buf_set (buf w) (pos w) 0) w) in
    (to_int (pos w1), w1)
  else
    let w1 := set_pos (sz (pos w + 1)) (set_buf (buf_set (buf w) (pos w) c) w) in
    if pos w1 >=? sz (buflen w1 - 1) then
      let w2 := lnRestartState (set_buf (buf_set (buf w1) (sz (buflen w1 - 1)) 0) w1) in
      (to_int (pos w2), w2)
    else (-1, w1).

Definition freeCompletions (w : linenoiseState) : linenoiseState := set_lc [] w.

Definition lnCompletion (c : Z) (w : linenoiseState) : Z * linenoiseState :=
  if c <? 0 then (-1, w)
  else if c =? 9 then
    let lclen := Z.of_nat (length (lc w)) in
    let w1 := set_completion_idx (sz (completion_idx w + 1) mod sz (lclen + 1)) w in
    let w2 := if completion_idx w1 =? lclen then linenoiseBeep w1 else w1 in
    (-1, lnShowCompletion w2)
  else
    let lclen := Z.of_nat (length (lc w)) in
    let w1 :=
      if c =? 27 then
        if completion_idx w <? lclen then refreshLine w else w
      else
        if completion_idx w <? lclen then
          let '(b, n) := snprintf_s (buf w) (buflen w) (str_at (lc w) (completion_idx w)) in
          set_pos (sz n) (set_len (sz n) (set_buf b w))
        else w in
    lnHandleCharacter (to_char c) (freeCompletions (set_mode ln_read_regular w1)).

Definition lnReadUserInput (c : Z) (w : linenoiseState) : Z * linenoiseState :=
  if c <? 0 then (-1, w)
  else if smart_term_connected w then lnHandleCharacter (to_char c) w
  else lnHandleCharacterDumb (to_char c) w.

(** [linenoiseEdit(buf, buflen, prompt)]; [c] is what the single call of
    [linenoise_getch()] that it makes returns. *)
Definition linenoiseEdit (hbuf : list Z) (hbuflen : Z) (hprompt : list Z) (c : Z)
    (w : linenoiseState) : Z * linenoiseState :=
  match mode w with
  | ln_getColumns | ln_getColumns_1 | ln_getColumns_2 =>
      let '(r, w1) := getColumns w in
      if r <? 0 then (-1, w1)
      else lnReadUserInput c (lnInitState hbuf hbuflen hprompt w1)
  | ln_init => lnReadUserInput c (lnInitState hbuf hbuflen hprompt w)
  | ln_read_regular => lnReadUserInput c w
  | ln_read_esc => lnReadEscSequence c w
  | ln_completion => lnCompletion c w
  end.

Definition linenoiseRefreshEditor (w : linenoiseState) : linenoiseState :=
  if negb (smartTerminalConnected w) then w
  else
    match mode w with
    | ln_init | ln_getColumns | ln_getColumns_1 | ln_getColumns_2 => w
    | ln_completion => lnShowCompletion w
    | ln_read_regular | ln_read_esc => refreshLine w
    end.

Definition linenoiseUpdatePrompt (hprompt : list Z) (w : linenoiseState) : linenoiseState :=
  linenoiseRefreshEditor (set_plen (strlen hprompt) (set_prompt hprompt w)).

(** The static initializer: [l_state = { .mode = ln_getColumns }], single line
    mode, an empty history of at most 100 lines. *)
Definition l_state0 : linenoiseState :=
  mkState ln_getColumns [0; 0; 0] 0 0 [] false [] 0 [] 0 0 0 0 0 0 0
          false LINENOISE_DEFAULT_HISTORY_MAX_LEN [] [] [] false [].

(** *** The host's view: calls of the public functions *)

Inductive api_call : Type :=
  | CallEdit (hbuf : list Z) (hbuflen : Z) (hprompt : list Z) (c : Z)
  | CallRefreshEditor
  | CallUpdatePrompt (hprompt : list Z)
  | CallClearScreen
  | CallSetMultiLine (ml : bool)
  | CallHistoryAdd (line : list Z)
  | CallHistorySetMaxLen (n : Z)
  | CallHistorySave
  | CallHistoryLoad (file : option (list Z)).

Definition api_step (call : api_call) (w : linenoiseState) : linenoiseState :=
  match call with
  | CallEdit hbuf hbuflen hprompt c => snd (linenoiseEdit hbuf hbuflen hprompt c w)
  | CallRefreshEditor => linenoiseRefreshEditor w
  | CallUpdatePrompt hprompt => linenoiseUpdatePrompt hprompt w
  | CallClearScreen => linenoiseClearScreen w
  | CallSetMultiLine ml => linenoiseSetMultiLine ml w
  | CallHistoryAdd line => snd (linenoiseHistoryAdd line w)
  | CallHistorySetMaxLen n => snd (linenoiseHistorySetMaxLen n w)
  | CallHistorySave => w
  | CallHistoryLoad file => snd (linenoiseHistoryLoad file w)
  end.

(** the states that a host can bring the library into *)
Inductive reachable : linenoiseState -> Prop :=
  | reachable_start : reachable l_state0
  | reachable_call : forall call w, reachable w -> reachable (api_step call w).

(** one call of [linenoiseEdit]: the array, its size, the prompt and the
    value of [linenoise_getch()] *)
Definition edit_call : Type := (list Z * Z * list Z * Z)%type.

Definition edit_step (call : edit_call) (w : linenoiseState) : Z * linenoiseState :=
  let '(hbuf, hbuflen, hprompt, c) := call in
  linenoiseEdit hbuf hbuflen hprompt c w.

(** the states after each call of a sequence of calls of [linenoiseEdit] *)
Fixpoint edit_trace (calls : list edit_call) (w : linenoiseState) : list linenoiseState :=
  match calls with
  | [] => []
  | call :: rest =>
      let w1 := snd (edit_step call w) in
      w1 :: edit_trace rest w1
  end.

(** the values returned by the calls of a sequence *)
Fixpoint edit_results (calls : list edit_call) (w : linenoiseState) : list Z :=
  match calls with
  | [] => []
  | call :: rest =>
      let '(r, w1) := edit_step call w in
      r :: edit_results rest w1
  end.

End Engine.

(** The weak default definitions of the two callbacks. *)
Definition default_completion (b : list Z) : list (list Z) := [].
Definition default_hints (b : list Z) : option (list Z * list Z) := None.

(** ** The properties in question *)

Definition between_sessions (m : ln_mode) : bool :=
  match m with
  | ln_init | ln_getColumns | ln_getColumns_1 | ln_getColumns_2 => true
  | _ => false
  end.

Definition is_getColumns (m : ln_mode) : bool :=
  match m with
  | ln_getColumns | ln_getColumns_1 | ln_getColumns_2 => true
  | _ => false
  end.

(** no two neighbours of a history are the same string *)
Fixpoint no_adjacent_equal (h : list (list Z)) : bool :=
  match h with
  | a :: r =>
      match r with
      | b :: _ => negb (bytes_eqb a b) && no_adjacent_equal r
      | [] => true
      end
  | [] => true
  end.

(** a string without the terminator inside *)
Definition nul_free (s : list Z) : bool := forallb (fun x => negb (x =? 0)) s.

(** what the editor keeps true of cursor, length and terminator, for a host
    array of [N] bytes: with the smart handler the cursor is inside the
    line and the line ends with the terminator; the dumb handler leaves
    [len] at 0 and counts the stored bytes in [pos] *)
Definition cursor_inv (N : Z) (w : linenoiseState) : Prop :=
  0 <= pos w < N /\ 0 <= len w < N /\
  (smart_term_connected w = true -> pos w <= len w /\ buf_get (buf w) (len w) = 0) /\
  (smart_term_connected w = false -> len w = 0).

(** the invariants that carry [cursor_inv] through the calls: [edit_ok] for
    the smart handler, [dumb_ok] for the dumb one *)
Definition edit_ok (N : Z) (w : linenoiseState) : Prop :=
  buflen w = N - 1 /\ Z.of_nat (length (buf w)) = N /\
  0 <= pos w <= len w /\ len w <= N - 1 /\ buf_get (buf w) (len w) = 0 /\
  (mode w = ln_completion -> Forall (fun s => strlen s < N - 1) (lc w)).

Definition dumb_ok (N : Z) (w : linenoiseState) : Prop :=
  buflen w = N - 1 /\ Z.of_nat (length (buf w)) = N /\
  len w = 0 /\ 0 <= pos w <= N - 1 /\
  match mode w with
  | ln_read_regular => pos w = 0 \/ pos w + 1 < N - 1
  | ln_read_esc | ln_completion => False
  | _ => True
  end.

Definition state_ok (N : Z) (w : linenoiseState) : Prop :=
  if smart_term_connected w then edit_ok N w else dumb_ok N w.

(** a call that hands over an array of [N] bytes and says so *)
Definition wf_call (N : Z) (call : edit_call) : Prop :=
  let '(hbuf, hbuflen, _, _) := call in
  Z.of_nat (length hbuf) = N /\ hbuflen = N.

(** the history as the store keeps it: at most [history_max_len] strings,
    no terminator inside, no two neighbours equal *)
Definition history_ok (w : linenoiseState) : Prop :=
  1 <= history_max_len w /\ history_len w <= history_max_len w /\
  forallb nul_free (history w) = true /\ no_adjacent_equal (history w) = true.

(** a line that [linenoiseHistoryLoad] gives back as it was saved *)
Definition loadable (e : list Z) : bool :=
  nul_free e && negb (existsb (fun x => x =? LF) e) && negb (existsb (fun x => x =? CR) e)
  && (Z.of_nat (length e) <=? LINENOISE_MAX_LINE - 2).

(** a line as the round trip of the specification takes it: not empty,
    shorter than the line cap, no newline inside *)
Definition spec_line (e : list Z) : bool :=
  nul_free e && negb (Z.of_nat (length e) =? 0)
  && (Z.of_nat (length e) <? LINENOISE_MAX_LINE)
  && negb (existsb (fun x => x =? LF) e).

(** the words of the specification about hints: the template is a sequence
    of [[...]] placeholders, numbered from 0.  [split_open t] cuts [t] behind
    its first opening bracket; [placeholder_split k t] cuts it behind the
    opening bracket of placeholder [k]. *)
Fixpoint split_open (t : list Z) : option (list Z * list Z) :=
  match t with
  | [] => None
  | x :: r =>
      if x =? 91 then Some ([x], r)
      else match split_open r with
           | None => None
           | Some (a, b) => Some (x :: a, b)
           end
  end.

Fixpoint placeholder_split (k : nat) (t : list Z) : option (list Z * list Z) :=
  match split_open t with
  | None => None
  | Some (a, r) =>
      match k with
      | O => Some (a, r)
      | S k' =>
          match placeholder_split k' r with
          | None => None
          | Some (a', r') => Some (a ++ a', r')
          end
      end
  end.

(** the text between the brackets of placeholder [k] *)
Definition placeholder_at (k : nat) (t : list Z) : option (list Z) :=
  match placeholder_split k t with
  | None => None
  | Some (_, r) => Some (cut_at 93 r)
  end.

(** the first word of a text: the bytes before the first blank or closing
    bracket *)
Fixpoint word_of (r : list Z) : list Z :=
  match r with
  | [] => []
  | x :: r' => if (x =? SPACE) || (x =? 93) then [] else x :: word_of r'
  end.

Fixpoint starts_with (pat s : list Z) : bool :=
  match pat, s with
  | [], _ => true
  | x :: p', y :: s' => (x =? y) && starts_with p' s'
  | _ :: _, [] => false
  end.

(** the rest of [s] after the first occurrence of [pat] *)
Fixpoint find_after (pat s : list Z) : option (list Z) :=
  if starts_with pat s then Some (skipn (length pat) s)
  else match s with
       | [] => None
       | _ :: r => find_after pat r
       end.

(** the bytes that a hint shows in reverse video: those between the escape
    that switches it on and the next escape *)
Definition reverse_video_part (o : list Z) : option (list Z) :=
  match find_after HINT_REVERSE o with
  | None => None
  | Some r => Some (cut_at ESC r)
  end.

(** the fields that no editing step touches *)
Definition statics (w : linenoiseState) :=
  (smart_term_connected w, buflen w, cols w, mlmode w, history_max_len w,
   prompt w, plen w, length (buf w)).

(** the state in which a call of [linenoiseEdit] reads its byte: in the
    modes between two sessions the call first runs [getColumns] and
    [lnInitState] *)
Definition session_state (hbuf : list Z) (hbuflen : Z) (hprompt : list Z)
    (w : linenoiseState) : linenoiseState :=
  match mode w with
  | ln_getColumns | ln_getColumns_1 | ln_getColumns_2 =>
      lnInitState hbuf hbuflen hprompt (snd (getColumns w))
  | ln_init => lnInitState hbuf hbuflen hprompt w
  | _ => w
  end.

(** ** Example inputs *)

(** a host array of 16 bytes and the prompt of the sample host *)
Definition ex_buf : list Z := repeat 0 16%nat.
Definition ex_prompt : list Z := bytes_of "> ".

(** the first call of the sample host when no key is waiting: the state is
    then in the regular reading mode with an empty line *)
Definition dumb_empty_line : linenoiseState :=
  snd (linenoiseEdit default_completion default_hints ex_buf 16 ex_prompt (-1) l_state0).

(** a smart terminal of 80 columns at the start of a session, with the
    line "ls" in the history: the state that the switch of [getColumns]
    leaves when a terminal answers the probe.  Behind the [goto failed] no
    call sets the flag (lemma [reachable_dumb]), so the states of the smart
    handler and of the renderer are given directly. *)
Definition smart_start : linenoiseState :=
  set_history [bytes_of "ls"]
    (set_cols 80 (set_smart_term_connected true (set_mode ln_init l_state0))).

(** the same terminal after [lnInitState]: regular reading mode, empty line,
    the scratch slot pushed on the history *)
Definition smart_empty_line : linenoiseState :=
  lnInitState ex_buf 16 ex_prompt smart_start.

(** and after the byte 'x' *)
Definition smart_one_byte : linenoiseState :=
  snd (linenoiseEdit default_completion default_hints ex_buf 16 ex_prompt 120
         smart_empty_line).

(** and after the bytes 'l' and 's', the line that is also in the history *)
Definition smart_typed_ls : linenoiseState :=
  snd (linenoiseEdit default_completion default_hints ex_buf 16 ex_prompt 115
         (snd (linenoiseEdit default_completion default_hints ex_buf 16 ex_prompt 108
                 smart_empty_line))).

(** calls that a host makes from the start: it adds "ls" twice and "cd",
    caps the history at 2 lines and lets the user type 'x' *)
Definition ex_calls : list api_call :=
  [CallHistoryAdd (bytes_of "ls"); CallHistoryAdd (bytes_of "ls");
   CallHistoryAdd (bytes_of "cd"); CallHistorySetMaxLen 2;
   CallEdit ex_buf 16 ex_prompt 120].

Definition ex_reached : linenoiseState :=
  fold_left (fun w call => api_step default_completion default_hints call w) ex_calls l_state0.

(** two stores to save: one line with a carriage return inside, and one
    line of 4095 bytes *)
Definition store_with_cr : linenoiseState := set_history [[97; CR; 98]] l_state0.
Definition store_with_long_line : linenoiseState :=
  set_history [repeat 97 4095%nat] l_state0.
(** and a store that comes back as it was *)
Definition store_ls_cd : linenoiseState :=
  set_history [bytes_of "ls"; bytes_of "cd /tmp"] l_state0.

(** a hints callback in the way of the sample host: the command "cp" has
    the two arguments [src] and [dst] *)
Definition ex_hints (b : list Z) : option (list Z * list Z) :=
  if starts_with (bytes_of "cp") b
  then Some (bytes_of "[src] [dst]", bytes_of "- copies a file")
  else None.

(** the smart terminal after the bytes "cp " *)
Definition smart_typed_cp : linenoiseState :=
  fold_left (fun w c => snd (linenoiseEdit default_completion ex_hints ex_buf 16 ex_prompt c w))
    (bytes_of "cp ") smart_empty_line.

(** the state that [linenoiseEditInsert] hands to the redraw when the byte
    goes to the end of the line *)
Definition appended (c : Z) (w : linenoiseState) : linenoiseState :=
  let w1 := set_buf (buf_set (buf w) (pos w) c) w in
  let w2 := set_pos (sz (pos w1 + 1)) w1 in
  let w3 := set_len (sz (len w2 + 1)) w2 in
  set_buf (buf_set (buf w3) (len w3) 0) w3.

(** the smart terminal at the start of a session after the host has called
    [linenoiseSetMultiLine(true)] *)
Definition ml_empty_line : linenoiseState := linenoiseSetMultiLine true smart_empty_line.

(** a host that switches to the multi-line mode, starts a session, gets the
    byte 'x' and asks for a redraw *)
Definition ml_host_calls : list api_call :=
  [CallSetMultiLine true; CallEdit ex_buf 16 ex_prompt (-1);
   CallEdit ex_buf 16 ex_prompt 120; CallRefreshEditor].

Definition ml_reached : linenoiseState :=
  fold_left (fun w call => api_step default_completion default_hints call w)
            ml_host_calls l_state0.

(** the completion callback of the sample host for a line that starts
    with 'h' *)
Definition ex_completion (b : list Z) : list (list Z) :=
  match b with
  | 104 :: _ => [bytes_of "hello"; bytes_of "hello there"]
  | _ => []
  end.

(** a session on the smart terminal: 'h', Tab twice, a blank that takes the
    candidate over, Ctrl-A, 'x', Ctrl-W at the start, Ctrl-E, backspace,
    Enter; and then a call that finds no byte *)
Definition ex_edit_calls : list edit_call :=
  map (fun c => (ex_buf, 16, ex_prompt, c))
      [104; 9; 9; 32; 1; 120; 23; 5; 127; 13; -1].

(** ** Notions for the properties of the other functions *)

(** the last [n] elements of a list *)
Definition lastn {A : Type} (n : nat) (l : list A) : list A := skipn (length l - n) l.

(** a list of strings without the repetitions of a neighbour *)
Fixpoint squeeze (l : list (list Z)) : list (list Z) :=
  match l with
  | [] => []
  | a :: r =>
      match r with
      | b :: _ => if bytes_eqb a b then squeeze r else a :: squeeze r
      | [] => [a]
      end
  end.

(** the calls [linenoiseHistoryAdd(l)] for the lines of a list, in order *)
Definition history_add_all (lines : list (list Z)) (w : linenoiseState) : linenoiseState :=
  fold_left (fun s l => snd (linenoiseHistoryAdd l s)) lines w.

(** an entry as [linenoiseHistoryLoad] can produce it: no terminator, no
    end of line inside, at most [LINENOISE_MAX_LINE - 1] bytes *)
Definition clean_entry (e : list Z) : bool :=
  nul_free e && negb (existsb (fun x => x =? LF) e) && negb (existsb (fun x => x =? CR) e)
  && (Z.of_nat (length e) <=? LINENOISE_MAX_LINE - 1).

(** the state after a sequence of calls of [linenoiseEdit] *)
Definition edit_run (linenoise_completion : list Z -> list (list Z))
    (linenoise_hints : list Z -> option (list Z * list Z))
    (calls : list edit_call) (w : linenoiseState) : linenoiseState :=
  fold_left (fun s call => snd (edit_step linenoise_completion linenoise_hints call s)) calls w.

(** the calls that a host makes with one array and one prompt while
    [linenoise_getch()] gives the values [keys] *)
Definition calls_with (hbuf : list Z) (hbuflen : Z) (hprompt : list Z) (keys : list Z)
  : list edit_call :=
  map (fun c => (hbuf, hbuflen, hprompt, c)) keys.

(** the bytes among the values of [linenoise_getch()]: a negative value
    says that no key is waiting *)
Definition typed_bytes (keys : list Z) : list Z := filter (fun c => 0 <=? c) keys.

(** no key, or a byte that the dumb handler stores and goes on: not the
    terminator, not carriage return, not newline *)
Definition dumb_key (c : Z) : bool :=
  (c <? 0) || ((0 <? c) && (c <? 256) && negb (c =? CR) && negb (c =? LF)).

(** the dumb handler in a session on an array of [N] bytes: the bytes [t]
    are stored, [pos] counts them *)
Definition dumb_session (N : Z) (t : list Z) (s : linenoiseState) : Prop :=
  smart_term_connected s = false /\ mode s = ln_read_regular /\
  buflen s = N - 1 /\ Z.of_nat (length (buf s)) = N /\
  pos s = Z.of_nat (length t) /\ firstn (length t) (buf s) = t /\ nul_free t = true.

(** the bytes of [linenoiseClearScreen] *)
Definition CLEAR_SCREEN : list Z := ESC :: bytes_of "[H" ++ ESC :: bytes_of "[2J".

(** the bytes of the edited line *)
Definition line (w : linenoiseState) : list Z := take (len w) (buf w).

(** [l] with the bytes from index [p] up to index [q] replaced by [x] *)
Definition splice (p q : Z) (x l : list Z) : list Z := take p l ++ x ++ drop q l.

(** a byte for which the switch of [lnHandleCharacter] takes the [default]
    case *)
Definition plain_key (c : Z) : bool :=
  negb (existsb (Z.eqb c)
          [TAB; ENTER; CTRL_C; BACKSPACE; CTRL_H; CTRL_D; CTRL_T; CTRL_B; CTRL_F; CTRL_P;
           CTRL_N; ESC; CTRL_U; CTRL_K; CTRL_A; CTRL_E; CTRL_L; CTRL_W]).

(** a session of the smart handler that reads keys, on an array of [N]
    bytes *)
Definition smart_session (N : Z) (s : linenoiseState) : Prop :=
  smart_term_connected s = true /\ mode s = ln_read_regular /\ edit_ok N s.

(** the smart terminal with the line "ls" and the cursor at its start *)
Definition smart_ls_home : linenoiseState :=
  snd (linenoiseEdit default_completion default_hints ex_buf 16 ex_prompt CTRL_A smart_typed_ls).

(** [w] with the fields of the escape reader set *)
Definition with_esc (m : ln_mode) (q : list Z) (i : Z) (w : linenoiseState) : linenoiseState :=
  set_mode m (set_seq q (set_seq_idx i w)).

(** the two-byte escape sequences that the reader knows, each with the
    control key that goes to the same function *)
Definition esc_table : list (Z * Z * Z) :=
  [(91, 65, CTRL_P); (91, 66, CTRL_N); (91, 67, CTRL_F); (91, 68, CTRL_B);
   (91, 72, CTRL_A); (91, 70, CTRL_E); (79, 72, CTRL_A); (79, 70, CTRL_E)].

(** no key, or a byte that the smart handler puts into the line: not the
    terminator and none of the keys of the switch *)
Definition smart_key (c : Z) : bool :=
  (c <? 0) || ((0 <? c) && (c <? 256) && plain_key c).

(** the smart handler in a session on an array of [N] bytes, with the
    bytes [t] typed and the cursor behind them *)
Definition smart_typed (N : Z) (t : list Z) (s : linenoiseState) : Prop :=
  smart_session N s /\ line s = t /\ pos s = len s /\ nul_free t = true.

(** a state with a long line, the cursor far to the right, on a terminal of
    10 columns *)
Definition narrow_terminal : linenoiseState :=
  set_cols 10 (set_pos 12 (set_len 14 (set_buf (bytes_of "abcdefghijklmn" ++ [0])
    (set_prompt (bytes_of "> ") (set_smart_term_connected true l_state0))))).

(** ** The key code mode *)

(** [isprint] in the C locale *)
Definition isprint (c : Z) : bool := (32 <=? c) && (c <=? 126).

(** [%02x] of [printf] *)
Definition hex_digit (d : Z) : Z := if d <? 10 then 48 + d else 87 + d.

Fixpoint uhex_aux (fuel : nat) (n : Z) (acc : list Z) : list Z :=
  match fuel with
  | O => acc
  | S f =>
      let acc' := hex_digit (n mod 16) :: acc in
      if n / 16 =? 0 then acc' else uhex_aux f (n / 16) acc'
  end.

Definition hex02 (n : Z) : list Z :=
  let d := uhex_aux 8 (sz n) [] in
  if (length d <? 2)%nat then 48 :: d else d.

Definition KEYCODES_BANNER : list Z :=
  bytes_of "Linenoise key codes debugging mode." ++ [LF]
  ++ bytes_of "Press keys to see scan codes. Type 'quit' at any time to exit." ++ [LF].

(** the two [printf] of [linenoisePrintKeyCodes] for the key [c] *)
Definition keycode_report (c : Z) : list Z :=
  [39; to_char (if isprint c then c else 63); 39; SPACE] ++ hex02 c
  ++ bytes_of " (" ++ sdec c ++ bytes_of ") (type quit to exit)" ++ [LF] ++ [CR].

(** the loop of [linenoisePrintKeyCodes] over the values [keys] that
    [linenoise_getch()] gives, with the window [quit] and the bytes printed
    so far: the bytes printed and the values left when the function returns,
    [None] when the values end before it does *)
Fixpoint keycodes_loop (keys : list Z) (quit : list Z) (printed : list Z)
  : option (list Z * list Z) :=
  match keys with
  | [] => None
  | c :: rest =>
      if c <? 0 then keycodes_loop rest quit printed
      else
        let quit1 := buf_set (memmove quit 0 1 3) 3 (to_char c) in
        if bytes_eqb quit1 (bytes_of "quit") then Some (printed, rest)
        else keycodes_loop rest quit1 (printed ++ keycode_report c)
  end.

Definition linenoisePrintKeyCodes (keys : list Z) : option (list Z * list Z) :=
  keycodes_loop keys (repeat SPACE 4) KEYCODES_BANNER.

(** [pat] occurs in [s] *)
Definition occurs (pat s : list Z) : bool :=
  match find_after pat s with Some _ => true | None => false end.

(** ** The sample host *)

Module Example.

Definition tolower (c : Z) : Z := if (65 <=? c) && (c <=? 90) then c + 32 else c.

(** [strcasecmp(a, b) == 0] *)
Definition strcasecmp0 (a b : list Z) : bool :=
  bytes_eqb (map tolower (cstr a)) (map tolower (cstr b)).

Definition linenoise_completion (b : list Z) : list (list Z) :=
  (if buf_get b 0 =? 104 then [bytes_of "hello"; bytes_of "hello there"] else [])
  ++ (if strcasecmp0 b (bytes_of "/q") then [bytes_of "/quit"] else [])
  ++ (if strcasecmp0 b (bytes_of "/c") then [bytes_of "/count"] else []).

Definition linenoise_hints (b : list Z) : option (list Z * list Z) :=
  if strcasecmp0 b (bytes_of "hello")
  then Some (bytes_of "World", bytes_of "- Displays a traditional greeting")
  else if strcasecmp0 b (bytes_of "/q")
  then Some (bytes_of "/Quit", bytes_of "- Exits this example")
  else if strcasecmp0 b (bytes_of "/c")
  then Some (bytes_of "/Count", bytes_of "- Prints the background counter")
  else None.

(** [char line[1024]] of [main], before the first call *)
Definition line : list Z := repeat 0 1024%nat.

Definition PROMPT : list Z := bytes_of "hello> ".

End Example.

(** the smart handler while it offers the candidates [cands], none of them
    equal to the line *)
Definition completing (cands : list (list Z)) (s : linenoiseState) : Prop :=
  smart_term_connected s = true /\ mode s = ln_completion /\ lc s = cands /\
  0 <= completion_idx s <= Z.of_nat (length cands) /\
  Forall (fun cand => strcmp0 (buf s) cand = false) cands.

(** the smart terminal with the line "h" and the two candidates of the
    sample host on offer, after the first Tab *)
Definition smart_h_tab : linenoiseState :=
  edit_run ex_completion default_hints (calls_with ex_buf 16 ex_prompt [104; TAB])
    smart_empty_line.

(** what a call that hands a line over leaves behind: the value [r] it
    returns is the counter of the handler that ran ([len] for the smart one,
    [pos] for the dumb one), the terminator is at [buf[r]], so that [r] is
    the length of the string in the array when no terminator was typed into
    the line, and the engine is in the mode that [lnRestartState] chooses *)
Definition handed_over (r : Z) (w' : linenoiseState) : Prop :=
  r = (if smart_term_connected w' then len w' else pos w') /\
  buf_get (buf w') r = 0 /\
  (nul_free (take r (buf w')) = true -> strlen (buf w') = r) /\
  mode w' = (if smart_term_connected w' then ln_getColumns else ln_init).

(** * Proofs *)

(** ** Arithmetic of the machine integers *)

Lemma sz_small (x : Z) : 0 <= x < SIZE_MOD -> sz x = x.
Proof. intros H. unfold sz. apply Z.mod_small. exact H. Qed.

Lemma sz_range (x : Z) : 0 <= sz x < SIZE_MOD.
Proof. unfold sz. apply Z.mod_pos_bound. reflexivity. Qed.

Lemma to_int_small (x : Z) : 0 <= x <= INT_MAX -> to_int x = x.
Proof.
  intros H. unfold to_int. rewrite sz_small by (unfold INT_MAX, SIZE_MOD in *; lia).
  destruct (Z.leb_spec x INT_MAX); lia.
Qed.

Lemma to_char_small (c : Z) : 0 <= c < 256 -> to_char c = c.
Proof. intros H. unfold to_char. apply Z.mod_small. exact H. Qed.

(** ** Arrays *)

Lemma length_upd {A : Type} (i : nat) (v : A) (b : list A) : length (upd i v b) = length b.
Proof.
  revert i. induction b as [|x r IH]; intros i; simpl; [reflexivity|].
  destruct i; simpl; [reflexivity|]. now rewrite IH.
Qed.

Lemma nth_upd_eq {A : Type} (i : nat) (v d : A) (b : list A) :
  (i < length b)%nat -> nth i (upd i v b) d = v.
Proof.
  revert i. induction b as [|x r IH]; intros i H; simpl in *; [lia|].
  destruct i; simpl; [reflexivity|]. apply IH. lia.
Qed.

Lemma nth_upd_ne {A : Type} (i j : nat) (v d : A) (b : list A) :
  i <> j -> nth j (upd i v b) d = nth j b d.
Proof.
  revert i j. induction b as [|x r IH]; intros i j H; simpl; [reflexivity|].
  destruct i, j; simpl; try reflexivity; try lia. apply IH. lia.
Qed.

Lemma length_buf_set b i v : length (buf_set b i v) = length b.
Proof. apply length_upd. Qed.

Lemma buf_get_set_eq b i v :
  0 <= i < Z.of_nat (length b) -> buf_get (buf_set b i v) i = v.
Proof. intros H. unfold buf_get, buf_set. apply nth_upd_eq. lia. Qed.

Lemma buf_get_set_ne b i j v :
  0 <= i -> 0 <= j -> i <> j -> buf_get (buf_set b i v) j = buf_get b j.
Proof. intros Hi Hj H. unfold buf_get, buf_set. apply nth_upd_ne. lia. Qed.

Lemma length_store_bytes data : forall i b, length (store_bytes i data b) = length b.
Proof.
  induction data as [|x d IH]; intros i b; simpl; [reflexivity|].
  rewrite IH. apply length_upd.
Qed.

Lemma nth_store_bytes_out data : forall i b j,
  (j < i \/ i + length data <= j)%nat ->
  nth j (store_bytes i data b) 0 = nth j b 0.
Proof.
  induction data as [|x d IH]; intros i b j H; simpl in *; [reflexivity|].
  rewrite IH by lia. apply nth_upd_ne. lia.
Qed.

Lemma nth_store_bytes_in data : forall i b j,
  (i <= j < i + length data)%nat -> (i + length data <= length b)%nat ->
  nth j (store_bytes i data b) 0 = nth (j - i) data 0.
Proof.
  induction data as [|x d IH]; intros i b j H Hb; simpl in *; [lia|].
  destruct (Nat.eq_dec i j) as [->|Hne].
  - rewrite nth_store_bytes_out by lia. rewrite nth_upd_eq by lia.
    now rewrite Nat.sub_diag.
  - rewrite IH by (rewrite ?length_upd; lia).
    replace (j - i)%nat with (S (j - S i)) by lia. reflexivity.
Qed.

Lemma length_memmove b d s n : length (memmove b d s n) = length b.
Proof. apply length_store_bytes. Qed.

Lemma buf_get_memmove_out b d s n j :
  0 <= d -> 0 <= n -> 0 <= j -> s + n <= Z.of_nat (length b) -> 0 <= s ->
  j < d \/ d + n <= j -> buf_get (memmove b d s n) j = buf_get b j.
Proof.
  intros Hd Hn Hj Hs Hs0 H. unfold buf_get, memmove.
  apply nth_store_bytes_out. rewrite length_firstn, length_skipn. lia.
Qed.

Lemma buf_get_memmove_in b d s n j :
  0 <= d -> 0 <= s -> 0 <= n ->
  s + n <= Z.of_nat (length b) -> d + n <= Z.of_nat (length b) ->
  d <= j < d + n -> buf_get (memmove b d s n) j = buf_get b (s + (j - d)).
Proof.
  intros Hd Hs Hn Hsb Hdb H. unfold buf_get, memmove.
  rewrite nth_store_bytes_in by (rewrite length_firstn, length_skipn; lia).
  rewrite nth_firstn.
  destruct (Nat.ltb_spec (Z.to_nat j - Z.to_nat d) (Z.to_nat n)); [|lia].
  rewrite nth_skipn. f_equal. lia.
Qed.

(** ** C strings *)

Lemma cstr_nul_free b : nul_free (cstr b) = true.
Proof.
  induction b as [|x r IH]; simpl; [reflexivity|].
  destruct (Z.eqb_spec x 0); simpl; [reflexivity|].
  rewrite IH. destruct (Z.eqb_spec x 0); [lia|reflexivity].
Qed.

Lemma cstr_id s : nul_free s = true -> cstr s = s.
Proof.
  induction s as [|x r IH]; simpl; [reflexivity|].
  destruct (Z.eqb_spec x 0); simpl; [discriminate|]. intros H. now rewrite IH.
Qed.

Lemma cstr_cstr b : cstr (cstr b) = cstr b.
Proof. apply cstr_id, cstr_nul_free. Qed.

Lemma strlen_cstr b : strlen (cstr b) = strlen b.
Proof. unfold strlen. now rewrite cstr_cstr. Qed.

Lemma strlen_nonneg b : 0 <= strlen b.
Proof. unfold strlen. lia. Qed.

Lemma strlen_le_length b : strlen b <= Z.of_nat (length b).
Proof.
  unfold strlen. induction b as [|x r IH]; simpl; [lia|].
  destruct (x =? 0); simpl; lia.
Qed.

Lemma cstr_prefix (b t : list Z) :
  firstn (length t) b = t -> nul_free t = true -> nth (length t) b 0 = 0 -> cstr b = t.
Proof.
  revert b. induction t as [|x t IH]; intros b H N Z0.
  - destruct b as [|y b]; [reflexivity|]. cbn in Z0. subst y. reflexivity.
  - destruct b as [|y b]; [discriminate|]. cbn [length firstn nth nul_free forallb] in *.
    injection H as -> H. apply andb_true_iff in N as [N1 N2].
    cbn [cstr]. apply negb_true_iff in N1. rewrite N1. f_equal. now apply IH.
Qed.

(** a counter [k] with the terminator at [b[k]] and none before it is the
    length of the string *)
Lemma strlen_counter (b : list Z) (k : Z) :
  0 <= k <= Z.of_nat (length b) -> buf_get b k = 0 -> nul_free (take k b) = true ->
  cstr b = take k b /\ strlen b = k.
Proof.
  intros Hk Hz Hn.
  assert (L : length (take k b) = Z.to_nat k) by (unfold take; rewrite length_firstn; lia).
  assert (E : cstr b = take k b).
  { apply cstr_prefix; [now rewrite L | exact Hn | rewrite L; exact Hz]. }
  split; [exact E|]. unfold strlen. rewrite E, L. lia.
Qed.

(** the byte at the length of the string is the terminator *)
Lemma buf_get_strlen b : buf_get b (strlen b) = 0.
Proof.
  unfold buf_get, strlen. rewrite Nat2Z.id.
  induction b as [|x r IH]; simpl; [reflexivity|].
  destruct (Z.eqb_spec x 0); simpl; [assumption|exact IH].
Qed.

(** a terminator at [i] bounds the length *)
Lemma strlen_le_nul b i : 0 <= i -> buf_get b i = 0 -> strlen b <= i.
Proof.
  unfold buf_get, strlen. intros Hi.
  rewrite <- (Z2Nat.id i) at 2 by exact Hi. generalize (Z.to_nat i) as k. clear.
  induction b as [|x r IH]; intros k H; simpl in *; [lia|].
  destruct (Z.eqb_spec x 0); simpl; [lia|].
  destruct k; [contradiction|]. specialize (IH k H). lia.
Qed.

Lemma bytes_eqb_eq a b : bytes_eqb a b = true <-> a = b.
Proof.
  revert b. induction a as [|x a IH]; intros [|y b]; simpl; split; intros H;
    try reflexivity; try discriminate.
  - apply andb_true_iff in H as [H1 H2]. apply Z.eqb_eq in H1. apply IH in H2.
    now subst.
  - injection H as -> ->. rewrite Z.eqb_refl. simpl. now apply IH.
Qed.

Lemma bytes_eqb_refl a : bytes_eqb a a = true.
Proof. now apply bytes_eqb_eq. Qed.

(** ** What a redraw leaves alone *)

Section Frame.

Variable linenoise_hints : list Z -> option (list Z * list Z).

Lemma set_out_eta (w : linenoiseState) :
  set_maxrows (maxrows w) (set_oldpos (oldpos w) w) = w.
Proof. destruct w; reflexivity. Qed.

Lemma set_fault_eta (w : linenoiseState) : set_fault (fault w) w = w.
Proof. destruct w; reflexivity. Qed.

(** a redraw changes [out], [oldpos], [maxrows] and the two fields that are
    not in the C program, and nothing else *)
Lemma refreshSingleLine_shape h (w : linenoiseState) :
  exists o f, refreshSingleLine linenoise_hints h w = set_out o (set_fault f w).
Proof.
  unfold refreshSingleLine, copy_check.
  destruct (scroll_left _ _ _ _ _ _) as [[off ln1] ps].
  destruct (_ <=? Z.of_nat (length (buf w))).
  - eexists. exists (fault w). rewrite set_fault_eta. reflexivity.
  - eexists. exists true. reflexivity.
Qed.

Lemma refreshMultiLine_shape h (w : linenoiseState) :
  exists o p m l f,
    refreshMultiLine linenoise_hints h w
    = set_out o (set_oldpos p (set_maxrows m (set_ml_calls l (set_fault f w)))).
Proof.
  unfold refreshMultiLine, copy_check. cbv zeta.
  destruct (0 + len w <=? Z.of_nat (length (buf w))).
  - do 4 eexists. exists (fault w). rewrite set_fault_eta. reflexivity.
  - do 4 eexists. exists true. reflexivity.
Qed.

Lemma refreshLine_shape (w : linenoiseState) :
  exists o p m l f,
    refreshLine linenoise_hints w
    = set_out o (set_oldpos p (set_maxrows m (set_ml_calls l (set_fault f w)))).
Proof.
  unfold refreshLine. destruct (mlmode w).
  - apply refreshMultiLine_shape.
  - destruct (refreshSingleLine_shape true w) as (o & f & ->).
    exists o, (oldpos w), (maxrows w), (ml_calls w), f. destruct w; reflexivity.
Qed.

Lemma refreshLineNoHints_shape (w : linenoiseState) :
  exists o p m l f,
    refreshLineNoHints linenoise_hints w
    = set_out o (set_oldpos p (set_maxrows m (set_ml_calls l (set_fault f w)))).
Proof.
  unfold refreshLineNoHints. destruct (mlmode w).
  - apply refreshMultiLine_shape.
  - destruct (refreshSingleLine_shape false w) as (o & f & ->).
    exists o, (oldpos w), (maxrows w), (ml_calls w), f. destruct w; reflexivity.
Qed.

Lemma refreshLine_mode w : mode (refreshLine linenoise_hints w) = mode w.
Proof. destruct (refreshLine_shape w) as (o & p & m & l & f & ->). reflexivity. Qed.

Lemma refreshLineNoHints_mode w : mode (refreshLineNoHints linenoise_hints w) = mode w.
Proof. destruct (refreshLineNoHints_shape w) as (o & p & m & l & f & ->). reflexivity. Qed.

Lemma refreshLine_seq w : seq (refreshLine linenoise_hints w) = seq w.
Proof. destruct (refreshLine_shape w) as (o & p & m & l & f & ->). reflexivity. Qed.

Lemma refreshLineNoHints_seq w : seq (refreshLineNoHints linenoise_hints w) = seq w.
Proof. destruct (refreshLineNoHints_shape w) as (o & p & m & l & f & ->). reflexivity. Qed.

Lemma refreshLine_seq_idx w : seq_idx (refreshLine linenoise_hints w) = seq_idx w.
Proof. destruct (refreshLine_shape w) as (o & p & m & l & f & ->). reflexivity. Qed.

Lemma refreshLineNoHints_seq_idx w : seq_idx (refreshLineNoHints linenoise_hints w) = seq_idx w.
Proof. destruct (refreshLineNoHints_shape w) as (o & p & m & l & f & ->). reflexivity. Qed.

Lemma refreshLine_completion_idx w : completion_idx (refreshLine linenoise_hints w) = completion_idx w.
Proof. destruct (refreshLine_shape w) as (o & p & m & l & f & ->). reflexivity. Qed.

Lemma refreshLineNoHints_completion_idx w : completion_idx (refreshLineNoHints linenoise_hints w) = completion_idx w.
Proof. destruct (refreshLineNoHints_shape w) as (o & p & m & l & f & ->). reflexivity. Qed.

Lemma refreshLine_lc w : lc (refreshLine linenoise_hints w) = lc w.
Proof. destruct (refreshLine_shape w) as (o & p & m & l & f & ->). reflexivity. Qed.

Lemma refreshLineNoHints_lc w : lc (refreshLineNoHints linenoise_hints w) = lc w.
Proof. destruct (refreshLineNoHints_shape w) as (o & p & m & l & f & ->). reflexivity. Qed.

Lemma refreshLine_smart_term_connected w : smart_term_connected (refreshLine linenoise_hints w) = smart_term_connected w.
Proof. destruct (refreshLine_shape w) as (o & p & m & l & f & ->). reflexivity. Qed.

Lemma refreshLineNoHints_smart_term_connected w : smart_term_connected (refreshLineNoHints linenoise_hints w) = smart_term_connected w.
Proof. destruct (refreshLineNoHints_shape w) as (o & p & m & l & f & ->). reflexivity. Qed.

Lemma refreshLine_buf w : buf (refreshLine linenoise_hints w) = buf w.
Proof. destruct (refreshLine_shape w) as (o & p & m & l & f & ->). reflexivity. Qed.

Lemma refreshLineNoHints_buf w : buf (refreshLineNoHints linenoise_hints w) = buf w.
Proof. destruct (refreshLineNoHints_shape w) as (o & p & m & l & f & ->). reflexivity. Qed.

Lemma refreshLine_buflen w : buflen (refreshLine linenoise_hints w) = buflen w.
Proof. destruct (refreshLine_shape w) as (o & p & m & l & f & ->). reflexivity. Qed.

Lemma refreshLineNoHints_buflen w : buflen (refreshLineNoHints linenoise_hints w) = buflen w.
Proof. destruct (refreshLineNoHints_shape w) as (o & p & m & l & f & ->). reflexivity. Qed.

Lemma refreshLine_prompt w : prompt (refreshLine linenoise_hints w) = prompt w.
Proof. destruct (refreshLine_shape w) as (o & p & m & l & f & ->). reflexivity. Qed.

Lemma refreshLineNoHints_prompt w : prompt (refreshLineNoHints linenoise_hints w) = prompt w.
Proof. destruct (refreshLineNoHints_shape w) as (o & p & m & l & f & ->). reflexivity. Qed.

Lemma refreshLine_plen w : plen (refreshLine linenoise_hints w) = plen w.
Proof. destruct (refreshLine_shape w) as (o & p & m & l & f & ->). reflexivity. Qed.

Lemma refreshLineNoHints_plen w : plen (refreshLineNoHints linenoise_hints w) = plen w.
Proof. destruct (refreshLineNoHints_shape w) as (o & p & m & l & f & ->). reflexivity. Qed.

Lemma refreshLine_pos w : pos (refreshLine linenoise_hints w) = pos w.
Proof. destruct (refreshLine_shape w) as (o & p & m & l & f & ->). reflexivity. Qed.

Lemma refreshLineNoHints_pos w : pos (refreshLineNoHints linenoise_hints w) = pos w.
Proof. destruct (refreshLineNoHints_shape w) as (o & p & m & l & f & ->). reflexivity. Qed.

Lemma refreshLine_len w : len (refreshLine linenoise_hints w) = len w.
Proof. destruct (refreshLine_shape w) as (o & p & m & l & f & ->). reflexivity. Qed.

Lemma refreshLineNoHints_len w : len (refreshLineNoHints linenoise_hints w) = len w.
Proof. destruct (refreshLineNoHints_shape w) as (o & p & m & l & f & ->). reflexivity. Qed.

Lemma refreshLine_cols w : cols (refreshLine linenoise_hints w) = cols w.
Proof. destruct (refreshLine_shape w) as (o & p & m & l & f & ->). reflexivity. Qed.

Lemma refreshLineNoHints_cols w : cols (refreshLineNoHints linenoise_hints w) = cols w.
Proof. destruct (refreshLineNoHints_shape w) as (o & p & m & l & f & ->). reflexivity. Qed.

Lemma refreshLine_history_index w : history_index (refreshLine linenoise_hints w) = history_index w.
Proof. destruct (refreshLine_shape w) as (o & p & m & l & f & ->). reflexivity. Qed.

Lemma refreshLineNoHints_history_index w : history_index (refreshLineNoHints linenoise_hints w) = history_index w.
Proof. destruct (refreshLineNoHints_shape w) as (o & p & m & l & f & ->). reflexivity. Qed.

Lemma refreshLine_mlmode w : mlmode (refreshLine linenoise_hints w) = mlmode w.
Proof. destruct (refreshLine_shape w) as (o & p & m & l & f & ->). reflexivity. Qed.

Lemma refreshLineNoHints_mlmode w : mlmode (refreshLineNoHints linenoise_hints w) = mlmode w.
Proof. destruct (refreshLineNoHints_shape w) as (o & p & m & l & f & ->). reflexivity. Qed.

Lemma refreshLine_history_max_len w : history_max_len (refreshLine linenoise_hints w) = history_max_len w.
Proof. destruct (refreshLine_shape w) as (o & p & m & l & f & ->). reflexivity. Qed.

Lemma refreshLineNoHints_history_max_len w : history_max_len (refreshLineNoHints linenoise_hints w) = history_max_len w.
Proof. destruct (refreshLineNoHints_shape w) as (o & p & m & l & f & ->). reflexivity. Qed.

Lemma refreshLine_history w : history (refreshLine linenoise_hints w) = history w.
Proof. destruct (refreshLine_shape w) as (o & p & m & l & f & ->). reflexivity. Qed.

Lemma refreshLineNoHints_history w : history (refreshLineNoHints linenoise_hints w) = history w.
Proof. destruct (refreshLineNoHints_shape w) as (o & p & m & l & f & ->). reflexivity. Qed.

Lemma refreshLine_err w : err (refreshLine linenoise_hints w) = err w.
Proof. destruct (refreshLine_shape w) as (o & p & m & l & f & ->). reflexivity. Qed.

Lemma refreshLineNoHints_err w : err (refreshLineNoHints linenoise_hints w) = err w.
Proof. destruct (refreshLineNoHints_shape w) as (o & p & m & l & f & ->). reflexivity. Qed.

End Frame.

Create Rewrite HintDb frame.
#[export] Hint Rewrite refreshLine_mode refreshLineNoHints_mode refreshLine_seq refreshLineNoHints_seq refreshLine_seq_idx refreshLineNoHints_seq_idx refreshLine_completion_idx refreshLineNoHints_completion_idx refreshLine_lc refreshLineNoHints_lc refreshLine_smart_term_connected refreshLineNoHints_smart_term_connected refreshLine_buf refreshLineNoHints_buf refreshLine_buflen refreshLineNoHints_buflen refreshLine_prompt refreshLineNoHints_prompt refreshLine_plen refreshLineNoHints_plen refreshLine_pos refreshLineNoHints_pos refreshLine_len refreshLineNoHints_len refreshLine_cols refreshLineNoHints_cols refreshLine_history_index refreshLineNoHints_history_index refreshLine_mlmode refreshLineNoHints_mlmode refreshLine_history_max_len refreshLineNoHints_history_max_len refreshLine_history refreshLineNoHints_history refreshLine_err refreshLineNoHints_err : frame.

(** ** The fields that an editing step never touches *)

Ltac split_ifs :=
  repeat match goal with
         | |- context [if ?b then _ else _] => destruct b eqn:?
         | |- context [match ?x with (_, _) => _ end] => destruct x eqn:?
         end.

(** projections of setters *)
Ltac psimpl :=
  cbn [mode seq seq_idx completion_idx lc smart_term_connected buf buflen prompt plen pos oldpos len cols maxrows history_index mlmode history_max_len history out err fault ml_calls set_mode set_seq set_seq_idx set_completion_idx set_lc set_smart_term_connected set_buf set_buflen set_prompt set_plen set_pos set_oldpos set_len set_cols set_maxrows set_history_index set_mlmode set_history_max_len set_history set_out set_err set_fault set_ml_calls
       linenoise_write linenoiseBeep freeCompletions lnRestartState
       linenoiseClearScreen linenoiseSetMultiLine snd fst history_len].

Tactic Notation "psimpl" "in" hyp(H) :=
  cbn [mode seq seq_idx completion_idx lc smart_term_connected buf buflen prompt plen pos oldpos len cols maxrows history_index mlmode history_max_len history out err fault ml_calls set_mode set_seq set_seq_idx set_completion_idx set_lc set_smart_term_connected set_buf set_buflen set_prompt set_plen set_pos set_oldpos set_len set_cols set_maxrows set_history_index set_mlmode set_history_max_len set_history set_out set_err set_fault set_ml_calls
       linenoise_write linenoiseBeep freeCompletions lnRestartState
       linenoiseClearScreen linenoiseSetMultiLine snd fst history_len] in H.

(** the pop of the history touches [history] and [fault] only *)
Lemma history_pop_mode w : mode (history_pop w) = mode w.
Proof. unfold history_pop. destruct (history_len w =? 0); reflexivity. Qed.

Lemma history_pop_seq w : seq (history_pop w) = seq w.
Proof. unfold history_pop. destruct (history_len w =? 0); reflexivity. Qed.

Lemma history_pop_seq_idx w : seq_idx (history_pop w) = seq_idx w.
Proof. unfold history_pop. destruct (history_len w =? 0); reflexivity. Qed.

Lemma history_pop_completion_idx w : completion_idx (history_pop w) = completion_idx w.
Proof. unfold history_pop. destruct (history_len w =? 0); reflexivity. Qed.

Lemma history_pop_lc w : lc (history_pop w) = lc w.
Proof. unfold history_pop. destruct (history_len w =? 0); reflexivity. Qed.

Lemma history_pop_smart_term_connected w : smart_term_connected (history_pop w) = smart_term_connected w.
Proof. unfold history_pop. destruct (history_len w =? 0); reflexivity. Qed.

Lemma history_pop_buf w : buf (history_pop w) = buf w.
Proof. unfold history_pop. destruct (history_len w =? 0); reflexivity. Qed.

Lemma history_pop_buflen w : buflen (history_pop w) = buflen w.
Proof. unfold history_pop. destruct (history_len w =? 0); reflexivity. Qed.

Lemma history_pop_prompt w : prompt (history_pop w) = prompt w.
Proof. unfold history_pop. destruct (history_len w =? 0); reflexivity. Qed.

Lemma history_pop_plen w : plen (history_pop w) = plen w.
Proof. unfold history_pop. destruct (history_len w =? 0); reflexivity. Qed.

Lemma history_pop_pos w : pos (history_pop w) = pos w.
Proof. unfold history_pop. destruct (history_len w =? 0); reflexivity. Qed.

Lemma history_pop_oldpos w : oldpos (history_pop w) = oldpos w.
Proof. unfold history_pop. destruct (history_len w =? 0); reflexivity. Qed.

Lemma history_pop_len w : len (history_pop w) = len w.
Proof. unfold history_pop. destruct (history_len w =? 0); reflexivity. Qed.

Lemma history_pop_cols w : cols (history_pop w) = cols w.
Proof. unfold history_pop. destruct (history_len w =? 0); reflexivity. Qed.

Lemma history_pop_maxrows w : maxrows (history_pop w) = maxrows w.
Proof. unfold history_pop. destruct (history_len w =? 0); reflexivity. Qed.

Lemma history_pop_history_index w : history_index (history_pop w) = history_index w.
Proof. unfold history_pop. destruct (history_len w =? 0); reflexivity. Qed.

Lemma history_pop_mlmode w : mlmode (history_pop w) = mlmode w.
Proof. unfold history_pop. destruct (history_len w =? 0); reflexivity. Qed.

Lemma history_pop_history_max_len w : history_max_len (history_pop w) = history_max_len w.
Proof. unfold history_pop. destruct (history_len w =? 0); reflexivity. Qed.

Lemma history_pop_out w : out (history_pop w) = out w.
Proof. unfold history_pop. destruct (history_len w =? 0); reflexivity. Qed.

Lemma history_pop_err w : err (history_pop w) = err w.
Proof. unfold history_pop. destruct (history_len w =? 0); reflexivity. Qed.

Lemma history_pop_ml_calls w : ml_calls (history_pop w) = ml_calls w.
Proof. unfold history_pop. destruct (history_len w =? 0); reflexivity. Qed.

Lemma history_pop_nonempty w :
  history w <> [] -> history_pop w = set_history (removelast (history w)) w.
Proof.
  intros H. unfold history_pop, history_len.
  destruct (history w); [congruence|]. reflexivity.
Qed.

Lemma history_pop_history w : history (history_pop w) = removelast (history w).
Proof.
  unfold history_pop, history_len.
  destruct (Z.eqb_spec (Z.of_nat (length (history w))) 0) as [E|E]; [|reflexivity].
  psimpl. destruct (history w); [reflexivity|discriminate].
Qed.

#[export] Hint Rewrite history_pop_mode history_pop_seq history_pop_seq_idx history_pop_completion_idx history_pop_lc history_pop_smart_term_connected history_pop_buf history_pop_buflen history_pop_prompt history_pop_plen history_pop_pos history_pop_oldpos history_pop_len history_pop_cols history_pop_maxrows history_pop_history_index history_pop_mlmode history_pop_history_max_len history_pop_out history_pop_err history_pop_ml_calls history_pop_history : frame.

(** the check of a copy touches [fault] only *)
Lemma copy_check_mode off n w : mode (copy_check off n w) = mode w.
Proof. unfold copy_check. destruct (_ <=? _); reflexivity. Qed.

Lemma copy_check_seq off n w : seq (copy_check off n w) = seq w.
Proof. unfold copy_check. destruct (_ <=? _); reflexivity. Qed.

Lemma copy_check_seq_idx off n w : seq_idx (copy_check off n w) = seq_idx w.
Proof. unfold copy_check. destruct (_ <=? _); reflexivity. Qed.

Lemma copy_check_completion_idx off n w : completion_idx (copy_check off n w) = completion_idx w.
Proof. unfold copy_check. destruct (_ <=? _); reflexivity. Qed.

Lemma copy_check_lc off n w : lc (copy_check off n w) = lc w.
Proof. unfold copy_check. destruct (_ <=? _); reflexivity. Qed.

Lemma copy_check_smart_term_connected off n w : smart_term_connected (copy_check off n w) = smart_term_connected w.
Proof. unfold copy_check. destruct (_ <=? _); reflexivity. Qed.

Lemma copy_check_buf off n w : buf (copy_check off n w) = buf w.
Proof. unfold copy_check. destruct (_ <=? _); reflexivity. Qed.

Lemma copy_check_buflen off n w : buflen (copy_check off n w) = buflen w.
Proof. unfold copy_check. destruct (_ <=? _); reflexivity. Qed.

Lemma copy_check_prompt off n w : prompt (copy_check off n w) = prompt w.
Proof. unfold copy_check. destruct (_ <=? _); reflexivity. Qed.

Lemma copy_check_plen off n w : plen (copy_check off n w) = plen w.
Proof. unfold copy_check. destruct (_ <=? _); reflexivity. Qed.

Lemma copy_check_pos off n w : pos (copy_check off n w) = pos w.
Proof. unfold copy_check. destruct (_ <=? _); reflexivity. Qed.

Lemma copy_check_oldpos off n w : oldpos (copy_check off n w) = oldpos w.
Proof. unfold copy_check. destruct (_ <=? _); reflexivity. Qed.

Lemma copy_check_len off n w : len (copy_check off n w) = len w.
Proof. unfold copy_check. destruct (_ <=? _); reflexivity. Qed.

Lemma copy_check_cols off n w : cols (copy_check off n w) = cols w.
Proof. unfold copy_check. destruct (_ <=? _); reflexivity. Qed.

Lemma copy_check_maxrows off n w : maxrows (copy_check off n w) = maxrows w.
Proof. unfold copy_check. destruct (_ <=? _); reflexivity. Qed.

Lemma copy_check_history_index off n w : history_index (copy_check off n w) = history_index w.
Proof. unfold copy_check. destruct (_ <=? _); reflexivity. Qed.

Lemma copy_check_mlmode off n w : mlmode (copy_check off n w) = mlmode w.
Proof. unfold copy_check. destruct (_ <=? _); reflexivity. Qed.

Lemma copy_check_history_max_len off n w : history_max_len (copy_check off n w) = history_max_len w.
Proof. unfold copy_check. destruct (_ <=? _); reflexivity. Qed.

Lemma copy_check_history off n w : history (copy_check off n w) = history w.
Proof. unfold copy_check. destruct (_ <=? _); reflexivity. Qed.

Lemma copy_check_out off n w : out (copy_check off n w) = out w.
Proof. unfold copy_check. destruct (_ <=? _); reflexivity. Qed.

Lemma copy_check_err off n w : err (copy_check off n w) = err w.
Proof. unfold copy_check. destruct (_ <=? _); reflexivity. Qed.

Lemma copy_check_ml_calls off n w : ml_calls (copy_check off n w) = ml_calls w.
Proof. unfold copy_check. destruct (_ <=? _); reflexivity. Qed.

Lemma copy_check_in_range off n w :
  off + n <= Z.of_nat (length (buf w)) -> copy_check off n w = w.
Proof.
  intros H. unfold copy_check. destruct (Z.leb_spec (off + n) (Z.of_nat (length (buf w)))); [reflexivity|lia].
Qed.

#[export] Hint Rewrite copy_check_mode copy_check_seq copy_check_seq_idx copy_check_completion_idx copy_check_lc copy_check_smart_term_connected copy_check_buf copy_check_buflen copy_check_prompt copy_check_plen copy_check_pos copy_check_oldpos copy_check_len copy_check_cols copy_check_maxrows copy_check_history_index copy_check_mlmode copy_check_history_max_len copy_check_history copy_check_out copy_check_err copy_check_ml_calls : frame.

Ltac fsimpl := repeat (progress (psimpl; autorewrite with frame)).

Ltac statics_tac :=
  unfold statics; split_ifs; fsimpl;
  repeat first [rewrite length_buf_set | rewrite length_upd
                | rewrite length_memmove | rewrite length_store_bytes];
  try reflexivity.

Section Statics.

Variable linenoise_completion : list Z -> list (list Z).
Variable linenoise_hints : list Z -> option (list Z * list Z).

Lemma statics_refreshLine w : statics (refreshLine linenoise_hints w) = statics w.
Proof. statics_tac. Qed.

Lemma statics_refreshLineNoHints w :
  statics (refreshLineNoHints linenoise_hints w) = statics w.
Proof. statics_tac. Qed.

Lemma statics_Insert c w :
  statics (snd (linenoiseEditInsert linenoise_hints c w)) = statics w.
Proof. unfold linenoiseEditInsert. statics_tac. Qed.

Lemma statics_MoveLeft w : statics (linenoiseEditMoveLeft linenoise_hints w) = statics w.
Proof. unfold linenoiseEditMoveLeft. statics_tac. Qed.

Lemma statics_MoveRight w : statics (linenoiseEditMoveRight linenoise_hints w) = statics w.
Proof. unfold linenoiseEditMoveRight. statics_tac. Qed.

Lemma statics_MoveHome w : statics (linenoiseEditMoveHome linenoise_hints w) = statics w.
Proof. unfold linenoiseEditMoveHome. statics_tac. Qed.

Lemma statics_MoveEnd w : statics (linenoiseEditMoveEnd linenoise_hints w) = statics w.
Proof. unfold linenoiseEditMoveEnd. statics_tac. Qed.

Lemma statics_HistoryNext d w :
  statics (linenoiseEditHistoryNext linenoise_hints d w) = statics w.
Proof. unfold linenoiseEditHistoryNext, strncpy. statics_tac. Qed.

Lemma statics_Delete w : statics (linenoiseEditDelete linenoise_hints w) = statics w.
Proof. unfold linenoiseEditDelete. statics_tac. Qed.

Lemma statics_Backspace w : statics (linenoiseEditBackspace linenoise_hints w) = statics w.
Proof. unfold linenoiseEditBackspace. statics_tac. Qed.

Lemma statics_DeletePrevWord w :
  statics (linenoiseEditDeletePrevWord linenoise_hints w) = statics w.
Proof. unfold linenoiseEditDeletePrevWord. statics_tac. Qed.

Lemma statics_ShowCompletion w : statics (lnShowCompletion linenoise_hints w) = statics w.
Proof. unfold lnShowCompletion. statics_tac. Qed.

Lemma statics_completeLine w :
  statics (completeLine linenoise_completion linenoise_hints w) = statics w.
Proof.
  unfold completeLine. split_ifs; [reflexivity|].
  now rewrite statics_ShowCompletion.
Qed.

Lemma statics_set_buf_set i v w :
  statics (set_buf (buf_set (buf w) i v) w) = statics w.
Proof. unfold statics. psimpl. now rewrite length_buf_set. Qed.

Lemma statics_history_pop w : statics (history_pop w) = statics w.
Proof. unfold history_pop. destruct (history_len w =? 0); reflexivity. Qed.

Ltac statics_step :=
  first
    [ rewrite statics_refreshLine | rewrite statics_refreshLineNoHints
    | rewrite statics_history_pop
    | rewrite statics_MoveLeft | rewrite statics_MoveRight
    | rewrite statics_MoveHome | rewrite statics_MoveEnd
    | rewrite statics_HistoryNext | rewrite statics_Delete | rewrite statics_Backspace
    | rewrite statics_DeletePrevWord | rewrite statics_ShowCompletion
    | rewrite statics_completeLine | rewrite statics_set_buf_set
    | match goal with
      | |- statics (?f ?v ?x) = _ =>
          progress (change (statics (f v x)) with (statics x))
      | |- statics (?f ?x) = _ =>
          progress (change (statics (f x)) with (statics x))
      end ].

Lemma statics_ReadEscSequence c w :
  statics (snd (lnReadEscSequence linenoise_hints c w)) = statics w.
Proof.
  unfold lnReadEscSequence. split_ifs; cbn [snd]; repeat statics_step; reflexivity.
Qed.

Lemma statics_HandleCharacter c w :
  statics (snd (lnHandleCharacter linenoise_completion linenoise_hints c w)) = statics w.
Proof.
  unfold lnHandleCharacter.
  split_ifs; cbn [snd]; unfold lnRestartState;
    try match goal with
        | H : linenoiseEditInsert _ _ _ = _ |- _ =>
            pose proof (statics_Insert c w) as H'; rewrite H in H'; exact H'
        end;
    repeat statics_step; try reflexivity.
Qed.

Lemma statics_Completion c w :
  statics (snd (lnCompletion linenoise_completion linenoise_hints c w)) = statics w.
Proof.
  unfold lnCompletion.
  split_ifs; cbn [snd]; rewrite ?statics_HandleCharacter; repeat statics_step;
    try reflexivity.
  unfold snprintf_s in *.
  match goal with H : (_, _) = (_, _) |- _ => injection H as <- <- end.
  unfold statics. psimpl. split_ifs; rewrite ?length_store_bytes; reflexivity.
Qed.

Lemma statics_HandleCharacterDumb c w :
  statics (snd (lnHandleCharacterDumb c w)) = statics w.
Proof.
  unfold lnHandleCharacterDumb.
  split_ifs; cbn [snd]; unfold lnRestartState, statics; psimpl;
    rewrite ?length_buf_set; reflexivity.
Qed.

Lemma statics_ReadUserInput c w :
  statics (snd (lnReadUserInput linenoise_completion linenoise_hints c w)) = statics w.
Proof.
  unfold lnReadUserInput.
  split_ifs; [reflexivity | apply statics_HandleCharacter | apply statics_HandleCharacterDumb].
Qed.

(** outside of the start of a session, a call of [linenoiseEdit] leaves the
    static fields alone *)
Lemma statics_Edit hbuf n p c w :
  between_sessions (mode w) = false ->
  statics (snd (linenoiseEdit linenoise_completion linenoise_hints hbuf n p c w)) = statics w.
Proof.
  unfold linenoiseEdit. destruct (mode w); try discriminate; intros _.
  - apply statics_ReadUserInput.
  - apply statics_ReadEscSequence.
  - apply statics_Completion.
Qed.

End Statics.

(** ** The probe is switched off *)

Section Probe.

Variable linenoise_completion : list Z -> list (list Z).
Variable linenoise_hints : list Z -> option (list Z * list Z).

Lemma getColumns_fails (w : linenoiseState) :
  getColumns w = (0, set_mode ln_init (set_cols 80 (set_smart_term_connected false w))).
Proof. reflexivity. Qed.

Lemma statics_inv w1 w2 :
  statics w1 = statics w2 ->
  smart_term_connected w1 = smart_term_connected w2 /\ buflen w1 = buflen w2 /\
  cols w1 = cols w2 /\ mlmode w1 = mlmode w2 /\
  history_max_len w1 = history_max_len w2 /\ prompt w1 = prompt w2 /\
  plen w1 = plen w2 /\ length (buf w1) = length (buf w2).
Proof. unfold statics. intros H. injection H. intros. repeat split; assumption. Qed.

Lemma lnInitState_smart hbuf n p w :
  smart_term_connected (lnInitState hbuf n p w) = smart_term_connected w.
Proof. unfold lnInitState, linenoiseHistoryAdd. split_ifs; reflexivity. Qed.

Lemma lnInitState_cols hbuf n p w : cols (lnInitState hbuf n p w) = cols w.
Proof. unfold lnInitState, linenoiseHistoryAdd. split_ifs; reflexivity. Qed.

Lemma lnInitState_mode hbuf n p w : mode (lnInitState hbuf n p w) = ln_read_regular.
Proof. reflexivity. Qed.

Lemma linenoiseHistoryAdd_smart line w :
  smart_term_connected (snd (linenoiseHistoryAdd line w)) = smart_term_connected w.
Proof. unfold linenoiseHistoryAdd. split_ifs; reflexivity. Qed.

Lemma linenoiseHistoryAdd_mode line w :
  mode (snd (linenoiseHistoryAdd line w)) = mode w.
Proof. unfold linenoiseHistoryAdd. split_ifs; reflexivity. Qed.

Lemma linenoiseHistoryAdd_out line w : out (snd (linenoiseHistoryAdd line w)) = out w.
Proof. unfold linenoiseHistoryAdd. split_ifs; reflexivity. Qed.

Lemma lnInitState_out hbuf n p w :
  out (lnInitState hbuf n p w)
  = out w ++ (if smart_term_connected w then PROMPT_HDR ++ cstr p ++ PROMPT_TLR else cstr p).
Proof.
  unfold lnInitState. cbv zeta.
  match goal with |- context [linenoiseHistoryAdd [] ?x] => set (y := x) end.
  assert (A : smart_term_connected (snd (linenoiseHistoryAdd [] y)) = smart_term_connected w)
    by (rewrite linenoiseHistoryAdd_smart; reflexivity).
  assert (B : out (snd (linenoiseHistoryAdd [] y)) = out w)
    by (rewrite linenoiseHistoryAdd_out; reflexivity).
  rewrite A. destruct (smart_term_connected w); psimpl; rewrite B;
    rewrite <- ?app_assoc; reflexivity.
Qed.

Lemma lnInitState_history hbuf n p w :
  history (lnInitState hbuf n p w) = history (snd (linenoiseHistoryAdd [] w)).
Proof.
  unfold lnInitState. cbv zeta.
  match goal with |- context [linenoiseHistoryAdd [] ?x] => set (y := x) end.
  assert (A : history (snd (linenoiseHistoryAdd [] y)) = history (snd (linenoiseHistoryAdd [] w))).
  { unfold linenoiseHistoryAdd, history_len. subst y. psimpl. split_ifs; reflexivity. }
  destruct (smart_term_connected (snd (linenoiseHistoryAdd [] y))); psimpl; exact A.
Qed.

Lemma linenoiseHistoryAdd_prompt line w :
  prompt (snd (linenoiseHistoryAdd line w)) = prompt w.
Proof. unfold linenoiseHistoryAdd. split_ifs; reflexivity. Qed.

Lemma lnInitState_fields hbuf n p w :
  let s := lnInitState hbuf n p w in
  buf s = buf_set hbuf 0 0 /\ buflen s = sz (n - 1) /\ pos s = 0 /\ len s = 0 /\
  mode s = ln_read_regular /\ smart_term_connected s = smart_term_connected w.
Proof.
  unfold lnInitState, linenoiseHistoryAdd. cbv zeta. split_ifs; repeat split.
Qed.

Lemma lnInitState_prompt hbuf n p w : prompt (lnInitState hbuf n p w) = p.
Proof.
  unfold lnInitState. cbv zeta.
  match goal with |- context [linenoiseHistoryAdd [] ?x] => set (y := x) end.
  assert (A : prompt (snd (linenoiseHistoryAdd [] y)) = p)
    by (rewrite linenoiseHistoryAdd_prompt; reflexivity).
  destruct (smart_term_connected (snd (linenoiseHistoryAdd [] y))); psimpl; exact A.
Qed.

Lemma load_loop_smart fuel : forall file w,
  smart_term_connected (load_loop fuel file w) = smart_term_connected w.
Proof.
  induction fuel as [|f IH]; intros file w; simpl; [reflexivity|].
  destruct file as [|x r]; [reflexivity|].
  destruct (fgets _ _) as [line rest]. rewrite IH. apply linenoiseHistoryAdd_smart.
Qed.

Lemma load_loop_mode fuel : forall file w, mode (load_loop fuel file w) = mode w.
Proof.
  induction fuel as [|f IH]; intros file w; simpl; [reflexivity|].
  destruct file as [|x r]; [reflexivity|].
  destruct (fgets _ _) as [line rest]. rewrite IH. apply linenoiseHistoryAdd_mode.
Qed.

(** one byte handled on a dumb terminal: the terminal stays dumb and the
    session either goes on or is over *)
Lemma ReadUserInput_dumb c w :
  smart_term_connected w = false -> mode w = ln_read_regular ->
  let w2 := snd (lnReadUserInput linenoise_completion linenoise_hints c w) in
  smart_term_connected w2 = false /\
  (mode w2 = ln_read_regular \/ mode w2 = ln_init).
Proof.
  intros H0 M0. unfold lnReadUserInput. destruct (c <? 0); [now auto|].
  rewrite H0. unfold lnHandleCharacterDumb, lnRestartState. psimpl. rewrite ?H0.
  split_ifs; psimpl; rewrite ?H0; auto.
Qed.

(** a call of [linenoiseEdit] that starts with the probe *)
Lemma Edit_getColumns hbuf n p c w :
  is_getColumns (mode w) = true ->
  let w2 := snd (linenoiseEdit linenoise_completion linenoise_hints hbuf n p c w) in
  linenoiseEdit linenoise_completion linenoise_hints hbuf n p c w
    = lnReadUserInput linenoise_completion linenoise_hints c
        (lnInitState hbuf n p (snd (getColumns w))) /\
  smart_term_connected w2 = false /\
  (mode w2 = ln_read_regular \/ mode w2 = ln_init).
Proof.
  intros G.
  assert (E : linenoiseEdit linenoise_completion linenoise_hints hbuf n p c w
              = lnReadUserInput linenoise_completion linenoise_hints c
                  (lnInitState hbuf n p (snd (getColumns w)))).
  { unfold linenoiseEdit. destruct (mode w); try discriminate; reflexivity. }
  cbv zeta. split; [exact E|]. rewrite E.
  apply ReadUserInput_dumb; [now rewrite lnInitState_smart | reflexivity].
Qed.

(** a call of [linenoiseEdit] on a dumb terminal: the state it leaves *)
Lemma Edit_dumb hbuf n p c w :
  smart_term_connected w = false ->
  mode w <> ln_read_esc -> mode w <> ln_completion ->
  let w2 := snd (linenoiseEdit linenoise_completion linenoise_hints hbuf n p c w) in
  smart_term_connected w2 = false /\
  (mode w2 = ln_read_regular \/ mode w2 = ln_init).
Proof.
  intros Hs He Hc.
  destruct (is_getColumns (mode w)) eqn:G.
  - apply Edit_getColumns. exact G.
  - unfold linenoiseEdit. destruct (mode w) eqn:M; try congruence; try discriminate.
    + apply ReadUserInput_dumb; [now rewrite lnInitState_smart | reflexivity].
    + apply ReadUserInput_dumb; assumption.
Qed.

(** from the static initializer on the terminal stays dumb, and the modes
    of the smart handler are never entered *)
Lemma reachable_dumb w :
  reachable linenoise_completion linenoise_hints w ->
  smart_term_connected w = false /\ mode w <> ln_read_esc /\ mode w <> ln_completion.
Proof.
  induction 1 as [|call w R [Hs [He Hc]]].
  - repeat split; discriminate.
  - destruct call; cbn [api_step].
    + destruct (Edit_dumb hbuf hbuflen hprompt c w Hs He Hc) as [H1 [H2|H2]];
        repeat split; try assumption; rewrite H2; discriminate.
    + unfold linenoiseRefreshEditor, smartTerminalConnected. rewrite Hs. now cbn.
    + unfold linenoiseUpdatePrompt, linenoiseRefreshEditor, smartTerminalConnected.
      psimpl. rewrite Hs. now cbn.
    + cbn. repeat split; [assumption | discriminate | discriminate].
    + now cbn.
    + now rewrite linenoiseHistoryAdd_smart, linenoiseHistoryAdd_mode.
    + unfold linenoiseHistorySetMaxLen. split_ifs; now cbn.
    + auto.
    + unfold linenoiseHistoryLoad. destruct file; cbn [snd]; [|now auto].
      now rewrite load_loop_smart, load_loop_mode.
Qed.

(** a call first brings the state to that of a running session *)
Lemma Edit_session_state hbuf n p c w :
  linenoiseEdit linenoise_completion linenoise_hints hbuf n p c w =
  let s := session_state hbuf n p w in
  match mode s with
  | ln_read_esc => lnReadEscSequence linenoise_hints c s
  | ln_completion => lnCompletion linenoise_completion linenoise_hints c s
  | _ => lnReadUserInput linenoise_completion linenoise_hints c s
  end.
Proof.
  unfold linenoiseEdit, session_state.
  destruct (mode w) eqn:M; cbv zeta; rewrite ?M; try reflexivity.
Qed.

Lemma session_state_mode hbuf n p w :
  mode (session_state hbuf n p w) = ln_read_regular \/
  mode (session_state hbuf n p w) = ln_read_esc \/
  mode (session_state hbuf n p w) = ln_completion.
Proof.
  unfold session_state. destruct (mode w) eqn:M; rewrite ?lnInitState_mode, ?M; auto.
Qed.

End Probe.

(** C3.  A call of [linenoiseEdit] in one of the three [getColumns] modes,
    in any state, finishes the probe inside that call: [getColumns] returns
    0 (never -1, so the call does not stop to wait for a reply), writes
    nothing, sets [cols = 80] and [smart_term_connected = false] and leaves
    the mode [ln_init]; the call goes on with [lnInitState] and
    [lnReadUserInput], and afterwards the columns are 80, the terminal is
    dumb and the mode is not a [getColumns] mode.  And in every state that
    the host can reach from the static initializer the terminal is not
    smart. *)
Theorem getColumns_completes_within_the_call :
  forall (linenoise_completion : list Z -> list (list Z))
         (linenoise_hints : list Z -> option (list Z * list Z)),
    (forall (w : linenoiseState) (hbuf : list Z) (n : Z) (p : list Z) (c : Z),
       is_getColumns (mode w) = true ->
       let w1 := snd (getColumns w) in
       let w2 := snd (linenoiseEdit linenoise_completion linenoise_hints hbuf n p c w) in
       fst (getColumns w) = 0 /\ out w1 = out w /\ cols w1 = 80 /\
       smart_term_connected w1 = false /\ mode w1 = ln_init /\
       linenoiseEdit linenoise_completion linenoise_hints hbuf n p c w
         = lnReadUserInput linenoise_completion linenoise_hints c (lnInitState hbuf n p w1) /\
       cols w2 = 80 /\ smart_term_connected w2 = false /\ is_getColumns (mode w2) = false) /\
    (forall w : linenoiseState,
       reachable linenoise_completion linenoise_hints w ->
       smart_term_connected w = false).
Proof.
  intros comp hints. split.
  - intros w hbuf n p c G w1 w2.
    destruct (Edit_getColumns comp hints hbuf n p c w G) as (E & Hs & Hm).
    split; [reflexivity|]. split; [reflexivity|]. split; [reflexivity|].
    split; [reflexivity|]. split; [reflexivity|]. split; [exact E|].
    split; [|split].
    + subst w1 w2. rewrite E.
      pose proof (statics_ReadUserInput comp hints c
                    (lnInitState hbuf n p (snd (getColumns w)))) as S.
      apply statics_inv in S. destruct S as (_ & _ & S & _). rewrite S.
      now rewrite lnInitState_cols.
    + exact Hs.
    + destruct Hm as [H|H]; subst w2; rewrite H; reflexivity.
  - intros w R. destruct (reachable_dumb comp hints w R) as [Hs _]. exact Hs.
Qed.

Lemma getColumns_completes_within_the_call_witness :
  cols (snd (linenoiseEdit default_completion default_hints
               (repeat 0 16%nat) 16 (bytes_of "> ") (-1) l_state0)) = 80 /\
  smart_term_connected l_state0 = false.
Proof.
  destruct (getColumns_completes_within_the_call default_completion default_hints) as [H1 H2].
  split.
  - destruct (H1 l_state0 (repeat 0 16%nat) 16 (bytes_of "> ") (-1) eq_refl)
      as (_ & _ & _ & _ & _ & _ & H & _).
    exact H.
  - apply H2. apply reachable_start.
Defined.

(** ** The dumb handler *)

(** C9.  On a dumb terminal, in a session that is reading (the state of the
    call once a session is open: [session_state]), a byte other than
    carriage return and newline that raises [pos] to [buflen - 1] is stored,
    the terminator is written at [buf[buflen - 1]], the mode goes back to
    [ln_init] (the restart for a terminal that is not smart) and the call
    returns the new [pos], the number of bytes gathered: the line is
    handed over without Enter.  [buflen] is the field of the state, which
    [lnInitState] sets to the size of the host's array minus one. *)
Theorem dumb_full_buffer_commits :
  forall (linenoise_completion : list Z -> list (list Z))
         (linenoise_hints : list Z -> option (list Z * list Z))
         (hbuf : list Z) (n : Z) (p : list Z) (c : Z) (w : linenoiseState),
    let s := session_state hbuf n p w in
    smart_term_connected s = false ->
    mode s = ln_read_regular ->
    0 <= c -> to_char c <> CR -> to_char c <> LF ->
    0 <= pos s -> pos s + 1 = buflen s - 1 -> buflen s <= INT_MAX ->
    buflen s - 1 < Z.of_nat (length (buf s)) ->
    let r := linenoiseEdit linenoise_completion linenoise_hints hbuf n p c w in
    pos (snd r) = buflen s - 1 /\
    fst r = pos (snd r) /\
    buf_get (buf (snd r)) (buflen s - 1) = 0 /\
    buf_get (buf (snd r)) (pos s) = to_char c /\
    (forall i : Z, 0 <= i < pos s -> buf_get (buf (snd r)) i = buf_get (buf s) i) /\
    mode (snd r) = ln_init.
Proof.
  intros comp hints hbuf n p c w s Hs Hm Hc Hcr Hlf Hp Hfull Hmax Hcap r. subst r.
  rewrite Edit_session_state. fold s. cbv zeta. rewrite Hm. unfold lnReadUserInput.
  destruct (Z.ltb_spec c 0) as [|_]; [lia|]. rewrite Hs.
  unfold lnHandleCharacterDumb.
  destruct (Z.eqb_spec (to_char c) CR) as [|_]; [contradiction|].
  destruct (Z.eqb_spec (to_char c) LF) as [|_]; [contradiction|].
  cbn [orb]. psimpl.
  assert (B1 : sz (pos s + 1) = pos s + 1)
    by (apply sz_small; unfold SIZE_MOD, INT_MAX in *; lia).
  assert (B2 : sz (buflen s - 1) = buflen s - 1)
    by (apply sz_small; unfold SIZE_MOD, INT_MAX in *; lia).
  rewrite B1, B2.
  destruct (Z.geb_spec (pos s + 1) (buflen s - 1)) as [_|]; [|lia].
  psimpl. rewrite Hs.
  assert (L : Z.of_nat (length (buf_set (buf s) (pos s) (to_char c)))
              = Z.of_nat (length (buf s))) by now rewrite length_buf_set.
  repeat split.
  - lia.
  - rewrite to_int_small by lia. reflexivity.
  - apply buf_get_set_eq. lia.
  - rewrite buf_get_set_ne by lia. apply buf_get_set_eq. lia.
  - intros i Hi. rewrite !buf_get_set_ne by lia. reflexivity.
Qed.

(** the session of the sample host's shape: 13 bytes gathered in an array of
    16, and the fourteenth arrives; and a session that starts in an array of
    3 bytes, where the first byte is handed over at once *)
Lemma dumb_full_buffer_commits_witness :
  (let r := linenoiseEdit default_completion default_hints ex_buf 16 ex_prompt 120
              (set_pos 13 dumb_empty_line) in
   fst r = 14 /\ buf_get (buf (snd r)) 14 = 0 /\ mode (snd r) = ln_init) /\
  (let r := linenoiseEdit default_completion default_hints [0; 0; 0] 3 ex_prompt 120
              l_state0 in
   fst r = 1 /\ buf_get (buf (snd r)) 1 = 0 /\ mode (snd r) = ln_init).
Proof.
  split; intros r.
  - destruct (dumb_full_buffer_commits default_completion default_hints ex_buf 16 ex_prompt 120
                (set_pos 13 dumb_empty_line))
      as (H1 & H2 & H3 & _ & _ & H6);
      try reflexivity; try (vm_compute; congruence).
    split; [|split].
    + fold r in H1, H2. rewrite H2, H1. reflexivity.
    + exact H3.
    + exact H6.
  - destruct (dumb_full_buffer_commits default_completion default_hints [0; 0; 0] 3 ex_prompt 120
                l_state0)
      as (H1 & H2 & H3 & _ & _ & H6);
      try reflexivity; try (vm_compute; congruence).
    split; [|split].
    + fold r in H1, H2. rewrite H2, H1. reflexivity.
    + exact H3.
    + exact H6.
Defined.

(** ** Ctrl-D *)

Lemma removelast_length {A : Type} (l : list A) :
  l <> [] -> Z.of_nat (length (removelast l)) = Z.of_nat (length l) - 1.
Proof.
  intros H. destruct (exists_last H) as (l' & a & ->).
  rewrite removelast_last, length_app. simpl. lia.
Qed.

(** C4, as the code has it.  In the regular reading mode with an empty
    line ([len = 0]) the byte 0x04 does one of two things.  With the smart
    handler ([smart_term_connected] is true) and a history that holds the
    scratch slot, the call returns -2 and pops the slot: the last entry of
    the history is dropped, [history_len] goes down by one, and nothing else
    of the state changes.  With the dumb handler the byte is stored at
    [buf[pos]] like any other byte and the history is left alone; the call
    never returns -2: it returns -1, or, when the byte raises [pos] to
    [buflen - 1], it writes the terminator at [buf[buflen - 1]], restarts
    the engine and returns the number of bytes stored, as for any byte. *)
Theorem ctrl_d_on_empty_line_is_eof :
  forall (linenoise_completion : list Z -> list (list Z))
         (linenoise_hints : list Z -> option (list Z * list Z))
         (hbuf : list Z) (n : Z) (p : list Z) (c : Z) (w : linenoiseState),
    mode w = ln_read_regular ->
    len w = 0 ->
    0 <= c -> to_char c = CTRL_D ->
    let r := linenoiseEdit linenoise_completion linenoise_hints hbuf n p c w in
    (smart_term_connected w = true -> history w <> [] ->
     fst r = -2 /\
     snd r = set_history (removelast (history w)) w /\
     history_len (snd r) = history_len w - 1) /\
    (smart_term_connected w = false ->
     0 <= pos w -> pos w + 1 <= INT_MAX -> 1 <= buflen w <= INT_MAX ->
     history (snd r) = history w /\ fst r <> -2 /\ pos (snd r) = pos w + 1 /\
     (pos w + 1 < buflen w - 1 ->
      fst r = -1 /\
      snd r = set_pos (pos w + 1) (set_buf (buf_set (buf w) (pos w) CTRL_D) w)) /\
     (buflen w - 1 <= pos w + 1 ->
      fst r = pos w + 1 /\ mode (snd r) = ln_init /\
      buf (snd r) = buf_set (buf_set (buf w) (pos w) CTRL_D) (buflen w - 1) 0)).
Proof.
  intros comp hints hbuf n p c w Hm Hl Hc Hd r. subst r.
  unfold linenoiseEdit. rewrite Hm. unfold lnReadUserInput.
  destruct (Z.ltb_spec c 0) as [|_]; [lia|]. rewrite Hd. split.
  - intros Hs Hh. rewrite Hs.
    unfold lnHandleCharacter. cbn [Z.eqb CTRL_D TAB ENTER CTRL_C BACKSPACE Pos.eqb orb].
    rewrite Hl. cbn [Z.gtb Z.compare]. psimpl. rewrite history_pop_nonempty by exact Hh.
    repeat split. unfold history_len. psimpl. now apply removelast_length.
  - intros Hs Hp Hp1 Hb. rewrite Hs.
    unfold lnHandleCharacterDumb. cbn [Z.eqb CTRL_D CR LF Pos.eqb orb]. psimpl.
    rewrite (sz_small (pos w + 1)) by (unfold SIZE_MOD, INT_MAX in *; lia).
    rewrite (sz_small (buflen w - 1)) by (unfold SIZE_MOD, INT_MAX in *; lia).
    destruct (Z.geb_spec (pos w + 1) (buflen w - 1)) as [G|G].
    + unfold lnRestartState. psimpl. rewrite Hs, to_int_small by lia.
      repeat split; try lia; reflexivity.
    + psimpl. repeat split; try lia; try discriminate; reflexivity.
Qed.

Lemma ctrl_d_on_empty_line_is_eof_witness :
  (let r := linenoiseEdit default_completion default_hints ex_buf 16 ex_prompt 4
              smart_empty_line in
   fst r = -2 /\ history (snd r) = [bytes_of "ls"]) /\
  (let r := linenoiseEdit default_completion default_hints ex_buf 16 ex_prompt 4
              dumb_empty_line in
   fst r = -1 /\ pos (snd r) = 1 /\ buf_get (buf (snd r)) 0 = 4) /\
  (let r := linenoiseEdit default_completion default_hints [0; 0; 0] 3 ex_prompt 4
              (snd (linenoiseEdit default_completion default_hints [0; 0; 0] 3 ex_prompt (-1)
                      l_state0)) in
   fst r = 1 /\ mode (snd r) = ln_init).
Proof.
  split; [|split]; intros r.
  - destruct (ctrl_d_on_empty_line_is_eof default_completion default_hints ex_buf 16
                ex_prompt 4 smart_empty_line) as [H _];
      try reflexivity; try (vm_compute; congruence).
    destruct H as (H1 & H2 & _); [reflexivity | vm_compute; congruence |].
    split; [exact H1|]. fold r in H2. rewrite H2. reflexivity.
  - destruct (ctrl_d_on_empty_line_is_eof default_completion default_hints ex_buf 16
                ex_prompt 4 dumb_empty_line) as [_ H];
      try reflexivity; try (vm_compute; congruence).
    destruct H as (_ & _ & H3 & H4 & _);
      [reflexivity | vm_compute; congruence | vm_compute; congruence
      | vm_compute; split; congruence |].
    destruct H4 as [H4 H5]; [vm_compute; reflexivity|].
    fold r in H3, H4, H5. split; [exact H4|]. split; [exact H3|].
    rewrite H5. vm_compute. reflexivity.
  - destruct (ctrl_d_on_empty_line_is_eof default_completion default_hints [0; 0; 0] 3
                ex_prompt 4
                (snd (linenoiseEdit default_completion default_hints [0; 0; 0] 3 ex_prompt (-1)
                        l_state0))) as [_ H];
      try reflexivity; try (vm_compute; congruence).
    destruct H as (_ & _ & _ & _ & H5);
      [reflexivity | vm_compute; congruence | vm_compute; congruence
      | vm_compute; split; congruence |].
    destruct H5 as (H5 & H6 & _); [vm_compute; congruence|].
    fold r in H5, H6. split; [rewrite H5; reflexivity | exact H6].
Defined.

(** C4 fails where the dumb handler runs.  [dumb_empty_line] is the state
    after the first call from the static initializer: regular reading mode,
    empty line.  The byte 0x04 is stored like any other byte, the call
    returns -1 and the history keeps its length. *)
Lemma ctrl_d_on_dumb_terminal_is_stored :
  let r := linenoiseEdit default_completion default_hints ex_buf 16 ex_prompt 4
             dumb_empty_line in
  mode dumb_empty_line = ln_read_regular /\ len dumb_empty_line = 0 /\
  fst r = -1 /\ fst r <> -2 /\
  history_len (snd r) = history_len dumb_empty_line /\
  pos (snd r) = 1 /\ buf_get (buf (snd r)) 0 = 4.
Proof. vm_compute. repeat split; congruence. Qed.

(** The smart handler, which this build does not reach (lemma
    [reachable_dumb]): in the regular reading mode with an empty line Ctrl-D
    returns -2 and pops the scratch slot, but the mode stays
    [ln_read_regular], since [lnRestartState] is not called on this path.
    The next call goes on in the old session: Enter returns 0 and pops the
    history once more, which drops the line "ls". *)
Lemma smart_eof_leaves_the_session_open :
  let r := linenoiseEdit default_completion default_hints ex_buf 16 ex_prompt 4
             smart_empty_line in
  let r2 := linenoiseEdit default_completion default_hints ex_buf 16 ex_prompt 13 (snd r) in
  history smart_empty_line = [bytes_of "ls"; []] /\
  fst r = -2 /\ smart_term_connected (snd r) = true /\
  mode (snd r) = ln_read_regular /\ history (snd r) = [bytes_of "ls"] /\
  fst r2 = 0 /\ mode (snd r2) = ln_getColumns /\ history (snd r2) = [].
Proof. vm_compute. repeat split; congruence. Qed.

(** ** The value that a call returns *)

Section Results.

Variable linenoise_completion : list Z -> list (list Z).
Variable linenoise_hints : list Z -> option (list Z * list Z).

Lemma len_MoveEnd w : len (linenoiseEditMoveEnd linenoise_hints w) = len w.
Proof. unfold linenoiseEditMoveEnd. split_ifs; fsimpl; reflexivity. Qed.

Lemma buf_MoveEnd w : buf (linenoiseEditMoveEnd linenoise_hints w) = buf w.
Proof. unfold linenoiseEditMoveEnd. split_ifs; fsimpl; reflexivity. Qed.

(** what [lnHandleCharacter] returns: -1, or -2 for Ctrl-D on an empty
    line, or the length of the line for Enter *)
Lemma HandleCharacter_result c w :
  let r := lnHandleCharacter linenoise_completion linenoise_hints c w in
  (fst r = -1 /\ c <> ENTER) \/
  (fst r = -2 /\ c = CTRL_D /\ len w <= 0 /\ snd r = history_pop w) \/
  (c = ENTER /\ fst r = to_int (len w) /\ len (snd r) = len w /\ buf (snd r) = buf w /\
   mode (snd r) = if smart_term_connected w then ln_getColumns else ln_init).
Proof.
  unfold lnHandleCharacter. cbv zeta.
  destruct (Z.eqb_spec c TAB) as [e|nT].
  { left. split; [reflexivity|]. subst c. discriminate. }
  destruct (Z.eqb_spec c ENTER) as [e|nE].
  { right. right. cbn [fst snd]. unfold lnRestartState. fsimpl.
    assert (S : smart_term_connected
                  (if mlmode w then linenoiseEditMoveEnd linenoise_hints (history_pop w)
                   else history_pop w) = smart_term_connected w).
    { destruct (mlmode w); [|apply history_pop_smart_term_connected].
      pose proof (statics_MoveEnd linenoise_hints (history_pop w)) as S.
      rewrite statics_history_pop in S. apply statics_inv in S. tauto. }
    rewrite S. destruct (mlmode w); rewrite ?len_MoveEnd, ?buf_MoveEnd; fsimpl; auto. }
  destruct (Z.eqb_spec c CTRL_C) as [e|nC]; [left; now split|].
  destruct ((c =? BACKSPACE) || (c =? 8))%bool; [left; now split|].
  destruct (Z.eqb_spec c CTRL_D) as [e|nD].
  { destruct (Z.gtb_spec (len w) 0); [left; now split|].
    right. left. cbn [fst snd]. repeat split; assumption. }
  split_ifs; left; now split.
Qed.

(** what [lnHandleCharacterDumb] returns: -1, or the number of bytes
    gathered when the line is handed over *)
Lemma HandleCharacterDumb_result c w :
  smart_term_connected w = false ->
  let r := lnHandleCharacterDumb c w in
  (fst r = -1 /\ c <> CR /\ c <> LF) \/
  (fst r = to_int (pos (snd r)) /\ mode (snd r) = ln_init /\
   ((c = CR \/ c = LF) /\ pos (snd r) = pos w /\ buf (snd r) = buf_set (buf w) (pos w) 0
    \/ c <> CR /\ c <> LF /\ pos (snd r) = sz (pos w + 1))).
Proof.
  intros Hs. unfold lnHandleCharacterDumb. cbv zeta. unfold lnRestartState.
  destruct (Z.eqb_spec c CR) as [e|nCR]; cbn [orb].
  { right. psimpl. rewrite Hs. repeat split. left. repeat split. now left. }
  destruct (Z.eqb_spec c LF) as [e|nLF].
  { right. psimpl. rewrite Hs. repeat split. left. repeat split. now right. }
  psimpl. destruct (sz (pos w + 1) >=? sz (buflen w - 1)).
  - right. psimpl. rewrite Hs. repeat split. right. repeat split; assumption.
  - left. repeat split; assumption.
Qed.

Lemma ReadEscSequence_result c w : fst (lnReadEscSequence linenoise_hints c w) = -1.
Proof. unfold lnReadEscSequence. split_ifs; reflexivity. Qed.

Lemma to_int_nonneg x : 0 <= x <= INT_MAX -> 0 <= to_int x.
Proof. intros H. rewrite to_int_small; lia. Qed.

Lemma str_at_Forall (P : list Z -> Prop) (l : list (list Z)) i :
  Forall P l -> P [] -> P (str_at l i).
Proof.
  intros H H0. unfold str_at.
  destruct (nth_in_or_default (Z.to_nat i) l []) as [I|E]; [|now rewrite E].
  rewrite Forall_forall in H. now apply H.
Qed.

(** the state that [lnCompletion] hands to [lnHandleCharacter] *)
Lemma Completion_result c w :
  0 <= len w <= INT_MAX ->
  Forall (fun x => strlen x <= INT_MAX) (lc w) ->
  let r := lnCompletion linenoise_completion linenoise_hints c w in
  fst r = -1 \/ fst r = -2 \/
  (0 <= fst r /\ mode (snd r) = if smart_term_connected (snd r) then ln_getColumns else ln_init).
Proof.
  intros Hl Hlc. unfold lnCompletion. cbv zeta.
  destruct (c <? 0); [now left|]. destruct (c =? 9); [now left|].
  match goal with
  | |- context [lnHandleCharacter _ _ _ ?x] => set (w1 := x)
  end.
  assert (L : 0 <= len w1 <= INT_MAX).
  { subst w1. psimpl. split_ifs; fsimpl; try assumption.
    unfold snprintf_s in *.
    match goal with H : (_, _) = (_, _) |- _ => injection H as <- <- end.
    psimpl.
    assert (I : strlen (str_at (lc w) (completion_idx w)) <= INT_MAX).
    { apply (str_at_Forall (fun x => strlen x <= INT_MAX)); [assumption|].
      unfold strlen, INT_MAX. simpl. lia. }
    pose proof (strlen_nonneg (str_at (lc w) (completion_idx w))).
    rewrite sz_small by (unfold SIZE_MOD, INT_MAX in *; lia). lia. }
  pose proof (HandleCharacter_result (to_char c) w1) as R. cbv zeta in R.
  pose proof (statics_HandleCharacter linenoise_completion linenoise_hints (to_char c) w1) as S.
  apply statics_inv in S. destruct S as (S & _).
  destruct R as [[R _]|[(R & _)|(_ & R1 & R2 & _ & R3)]]; [now left|now right; left|].
  right. right. rewrite R1, R3, S. split; [now apply to_int_nonneg|reflexivity].
Qed.

End Results.

(** C5.  In every state that the calls of the API reach from the static
    initializer, a call of [linenoiseEdit] that returns a value other than
    -1 (a line handed over, the values from 0 on; the dumb handler, the only
    one that runs there, has no end-of-file) leaves the engine in the mode
    that [lnRestartState] chooses: [ln_getColumns] for a smart terminal and
    [ln_init] otherwise, which is [ln_init] here since no terminal counts as
    smart.  The next call then starts a session: it runs [lnInitState] on
    the array and the prompt that this next call brings, with an empty line
    and the cursor at 0, writes that prompt and goes on to read its byte. *)
Theorem commit_restarts_the_session :
  forall (linenoise_completion : list Z -> list (list Z))
         (linenoise_hints : list Z -> option (list Z * list Z)) (w : linenoiseState),
    reachable linenoise_completion linenoise_hints w ->
    forall (hbuf : list Z) (n : Z) (p : list Z) (c : Z),
      let r := linenoiseEdit linenoise_completion linenoise_hints hbuf n p c w in
      fst r <> -1 ->
      mode (snd r) = (if smart_term_connected (snd r) then ln_getColumns else ln_init) /\
      smart_term_connected (snd r) = false /\ mode (snd r) = ln_init /\
      forall (hbuf' : list Z) (n' : Z) (p' : list Z) (c' : Z),
        let s' := lnInitState hbuf' n' p' (snd r) in
        linenoiseEdit linenoise_completion linenoise_hints hbuf' n' p' c' (snd r)
          = lnReadUserInput linenoise_completion linenoise_hints c' s' /\
        prompt s' = p' /\ buf s' = buf_set hbuf' 0 0 /\ pos s' = 0 /\ len s' = 0 /\
        mode s' = ln_read_regular /\ out s' = out (snd r) ++ cstr p'.
Proof.
  intros comp hints w R hbuf n p c r Hr.
  destruct (reachable_dumb comp hints w R) as (Hs & He & Hc).
  destruct (Edit_dumb comp hints hbuf n p c w Hs He Hc) as [S2 _]. fold r in S2.
  assert (M : mode (snd r) = ln_init).
  { subst r. revert Hr. rewrite Edit_session_state. cbv zeta.
    assert (S : smart_term_connected (session_state hbuf n p w) = false).
    { unfold session_state. destruct (mode w); rewrite ?lnInitState_smart; try assumption;
        reflexivity. }
    assert (M : mode (session_state hbuf n p w) = ln_read_regular).
    { unfold session_state. destruct (mode w) eqn:M; rewrite ?lnInitState_mode; congruence. }
    rewrite M. unfold lnReadUserInput. destruct (c <? 0); [cbn [fst]; congruence|].
    rewrite S.
    pose proof (HandleCharacterDumb_result (to_char c) (session_state hbuf n p w) S) as D.
    cbv zeta in D. destruct D as [(D & _)|(_ & D & _)]; [congruence|].
    intros _. exact D. }
  rewrite S2. split; [exact M|]. split; [reflexivity|]. split; [exact M|].
  intros hbuf' n' p' c' s'. split.
  - unfold linenoiseEdit. rewrite M. reflexivity.
  - destruct (lnInitState_fields hbuf' n' p' (snd r)) as (F1 & _ & F3 & F4 & F5 & _).
    fold s' in F1, F3, F4, F5.
    split; [apply lnInitState_prompt|].
    split; [exact F1|]. split; [exact F3|]. split; [exact F4|]. split; [exact F5|].
    subst s'. rewrite lnInitState_out, S2. reflexivity.
Qed.

Lemma commit_restarts_the_session_witness :
  let r := linenoiseEdit default_completion default_hints ex_buf 16 ex_prompt 13
             dumb_empty_line in
  fst r = 0 /\ mode (snd r) = ln_init /\
  prompt (lnInitState ex_buf 16 (bytes_of "$ ") (snd r)) = bytes_of "$ ".
Proof.
  intros r.
  pose proof (commit_restarts_the_session default_completion default_hints dumb_empty_line
                (reachable_call _ _ (CallEdit ex_buf 16 ex_prompt (-1)) _ (reachable_start _ _))
                ex_buf 16 ex_prompt 13) as T.
  cbv zeta in T. fold r in T.
  assert (E : fst r = 0) by (vm_compute; reflexivity).
  destruct T as (_ & _ & H3 & H4); [rewrite E; discriminate|].
  split; [exact E|]. split; [exact H3|].
  destruct (H4 ex_buf 16 (bytes_of "$ ") (-1)) as (_ & H5 & _). exact H5.
Defined.


(** ** The history store *)

Lemma no_adjacent_equal_app h x :
  no_adjacent_equal (h ++ [x]) =
  no_adjacent_equal h && match h with [] => true | _ => negb (bytes_eqb (last h []) x) end.
Proof.
  induction h as [|a r IH]; [reflexivity|].
  destruct r as [|b r'].
  - simpl. now rewrite andb_true_r.
  - change (no_adjacent_equal ((a :: b :: r') ++ [x]))
      with (negb (bytes_eqb a b) && no_adjacent_equal ((b :: r') ++ [x])).
    rewrite IH.
    change (no_adjacent_equal (a :: b :: r'))
      with (negb (bytes_eqb a b) && no_adjacent_equal (b :: r')).
    change (last (a :: b :: r') []) with (last (b :: r') []).
    now rewrite andb_assoc.
Qed.

Lemma no_adjacent_equal_tl a r :
  no_adjacent_equal (a :: r) = true -> no_adjacent_equal r = true.
Proof.
  destruct r as [|b r']; [reflexivity|].
  change (no_adjacent_equal (a :: b :: r'))
    with (negb (bytes_eqb a b) && no_adjacent_equal (b :: r')).
  intros H. apply andb_true_iff in H. tauto.
Qed.

Lemma no_adjacent_equal_skipn k : forall h,
  no_adjacent_equal h = true -> no_adjacent_equal (skipn k h) = true.
Proof.
  induction k as [|k IH]; intros h H; [exact H|].
  destruct h as [|a r]; [reflexivity|]. simpl. apply IH.
  now apply no_adjacent_equal_tl with a.
Qed.

Lemma forallb_skipn {A : Type} (f : A -> bool) k : forall l,
  forallb f l = true -> forallb f (skipn k l) = true.
Proof.
  induction k as [|k IH]; intros l H; [exact H|].
  destruct l as [|a r]; [reflexivity|]. simpl in *.
  apply andb_true_iff in H. apply IH. tauto.
Qed.

Lemma last_skipn_1 (h : list (list Z)) :
  (2 <= length h)%nat -> last (skipn 1 h) [] = last h [].
Proof. destruct h as [|a [|b r]]; simpl; intros; try lia. reflexivity. Qed.

Lemma str_at_last (h : list (list Z)) :
  h <> [] -> str_at h (Z.of_nat (length h) - 1) = last h [].
Proof.
  intros H. destruct (exists_last H) as (l & a & ->).
  unfold str_at. rewrite length_app, last_last. simpl.
  replace (Z.to_nat (Z.of_nat (length l + 1) - 1)) with (length l) by lia.
  rewrite app_nth2 by lia. now rewrite Nat.sub_diag.
Qed.

Lemma last_nul_free (h : list (list Z)) :
  forallb nul_free h = true -> nul_free (last h []) = true.
Proof.
  induction h as [|a r IH]; [reflexivity|]. simpl. intros H.
  apply andb_true_iff in H as [H1 H2]. destruct r; [exact H1|]. now apply IH.
Qed.

(** [linenoiseHistoryAdd] keeps the store in order *)
Lemma linenoiseHistoryAdd_ok line w :
  history_ok w -> history_ok (snd (linenoiseHistoryAdd line w)).
Proof.
  intros (Hm & Hl & Hn & Ha). unfold linenoiseHistoryAdd.
  destruct (Z.eqb_spec (history_max_len w) 0); [lia|].
  destruct (negb (history_len w =? 0) && strcmp0 _ line) eqn:D;
    [repeat split; assumption|].
  cbn [snd]. unfold history_ok, history_len in *. psimpl.
  assert (Hc : nul_free (cstr line) = true) by apply cstr_nul_free.
  assert (Hdiff : history w <> [] -> bytes_eqb (last (history w) []) (cstr line) = false).
  { intros Hne. apply andb_false_iff in D as [D|D].
    - destruct (Z.eqb_spec (Z.of_nat (length (history w))) 0); [|discriminate].
      destruct (history w); [contradiction|simpl in *; lia].
    - unfold strcmp0 in D. rewrite str_at_last in D by assumption.
      rewrite cstr_id in D by now apply last_nul_free. exact D. }
  destruct (Z.eqb_spec (Z.of_nat (length (history w))) (history_max_len w)) as [E|E].
  - unfold drop. change (Z.to_nat 1) with 1%nat.
    split; [assumption|]. split; [|split].
    + rewrite length_app, length_skipn. simpl. lia.
    + rewrite forallb_app, forallb_skipn by assumption. simpl. now rewrite Hc.
    + rewrite no_adjacent_equal_app, no_adjacent_equal_skipn by assumption.
      destruct (history w) as [|a [|b r]] eqn:Eh; [reflexivity|reflexivity|].
      assert (Hd : bytes_eqb (last (a :: b :: r) []) (cstr line) = false)
        by (apply Hdiff; discriminate).
      change (last (a :: b :: r) []) with (last (b :: r) []) in Hd.
      cbn [skipn]. now rewrite Hd.
  - split; [assumption|]. split; [|split].
    + rewrite length_app. simpl. lia.
    + rewrite forallb_app, Hn. simpl. now rewrite Hc.
    + rewrite no_adjacent_equal_app, Ha.
      destruct (history w) eqn:Eh; [reflexivity|].
      rewrite Hdiff by discriminate. reflexivity.
Qed.

Lemma linenoiseHistorySetMaxLen_ok n w :
  history_ok w -> history_ok (snd (linenoiseHistorySetMaxLen n w)).
Proof.
  intros (Hm & Hl & Hn & Ha). unfold linenoiseHistorySetMaxLen.
  destruct (Z.ltb_spec n 1); [repeat split; assumption|].
  cbn [snd]. unfold history_ok, history_len in *. psimpl. unfold drop.
  split; [lia|]. split; [|split].
  - rewrite length_skipn. destruct (Z.ltb_spec n (Z.of_nat (length (history w)))); lia.
  - now apply forallb_skipn.
  - now apply no_adjacent_equal_skipn.
Qed.

Lemma load_loop_ok fuel : forall file w, history_ok w -> history_ok (load_loop fuel file w).
Proof.
  induction fuel as [|f IH]; intros file w H; simpl; [exact H|].
  destruct file as [|x r]; [exact H|].
  destruct (fgets _ _) as [line rest]. apply IH. now apply linenoiseHistoryAdd_ok.
Qed.

(** the history store depends on two fields only *)
Lemma history_ok_ext w1 w2 :
  history_max_len w1 = history_max_len w2 -> history w1 = history w2 ->
  history_ok w1 -> history_ok w2.
Proof. unfold history_ok, history_len. intros -> ->. tauto. Qed.

Lemma lnInitState_history_ok hbuf n p w :
  history_ok w -> history_ok (lnInitState hbuf n p w).
Proof.
  intros H. unfold lnInitState. cbv zeta.
  match goal with
  | |- context [linenoiseHistoryAdd [] ?x] =>
      assert (A : history_ok (snd (linenoiseHistoryAdd [] x)))
        by (apply linenoiseHistoryAdd_ok; revert H; apply history_ok_ext; reflexivity);
      revert A; generalize (snd (linenoiseHistoryAdd [] x))
  end.
  intros l A. revert A. apply history_ok_ext; destruct (smart_term_connected l); reflexivity.
Qed.

Lemma lnHandleCharacterDumb_history_ok c w :
  history_ok w -> history_ok (snd (lnHandleCharacterDumb c w)).
Proof.
  apply history_ok_ext; unfold lnHandleCharacterDumb, lnRestartState;
    split_ifs; reflexivity.
Qed.

Section HistoryStore.

Variable linenoise_completion : list Z -> list (list Z).
Variable linenoise_hints : list Z -> option (list Z * list Z).

Lemma Edit_dumb_history_ok hbuf n p c w :
  smart_term_connected w = false ->
  mode w <> ln_read_esc -> mode w <> ln_completion ->
  history_ok w ->
  history_ok (snd (linenoiseEdit linenoise_completion linenoise_hints hbuf n p c w)).
Proof.
  intros Hs He Hc H. rewrite Edit_session_state. cbv zeta.
  assert (S : smart_term_connected (session_state hbuf n p w) = false).
  { unfold session_state. destruct (mode w); rewrite ?lnInitState_smart; try assumption;
      reflexivity. }
  assert (O : history_ok (session_state hbuf n p w)).
  { unfold session_state. destruct (mode w); try assumption;
      apply lnInitState_history_ok; try assumption;
      revert H; apply history_ok_ext; reflexivity. }
  assert (M : mode (session_state hbuf n p w) = ln_read_regular).
  { unfold session_state. destruct (mode w) eqn:M; rewrite ?lnInitState_mode; congruence. }
  rewrite M. unfold lnReadUserInput. destruct (c <? 0); [exact O|].
  rewrite S. now apply lnHandleCharacterDumb_history_ok.
Qed.

Lemma reachable_history_ok w :
  reachable linenoise_completion linenoise_hints w -> history_ok w.
Proof.
  induction 1 as [|call w R IH].
  - unfold history_ok. vm_compute. repeat split; congruence.
  - destruct (reachable_dumb _ _ w R) as (Hs & He & Hc).
    destruct call; cbn [api_step].
    + now apply Edit_dumb_history_ok.
    + revert IH. apply history_ok_ext;
        unfold linenoiseRefreshEditor, smartTerminalConnected; rewrite Hs; reflexivity.
    + revert IH. apply history_ok_ext;
        unfold linenoiseUpdatePrompt, linenoiseRefreshEditor, smartTerminalConnected;
        psimpl; rewrite Hs; reflexivity.
    + revert IH. apply history_ok_ext; reflexivity.
    + revert IH. apply history_ok_ext; reflexivity.
    + now apply linenoiseHistoryAdd_ok.
    + now apply linenoiseHistorySetMaxLen_ok.
    + exact IH.
    + unfold linenoiseHistoryLoad. destruct file; [|exact IH].
      cbn [snd]. now apply load_loop_ok.
Qed.

End HistoryStore.

(** C6.  In every state that the host reaches from the static initializer
    by calls of [linenoiseEdit], [linenoiseHistoryAdd],
    [linenoiseHistorySetMaxLen], [linenoiseHistoryLoad] and the other public
    functions, whatever the keys, the history holds at most
    [history_max_len] lines and no two neighbours are equal.  The editing
    steps of these runs are those of the dumb handler: each session pushes
    the scratch slot through [linenoiseHistoryAdd], and the keys that walk
    through the history are stored as bytes of the line. *)
Theorem history_bounded_without_adjacent_duplicates :
  forall (linenoise_completion : list Z -> list (list Z))
         (linenoise_hints : list Z -> option (list Z * list Z)) (w : linenoiseState),
    reachable linenoise_completion linenoise_hints w ->
    history_len w <= history_max_len w /\ no_adjacent_equal (history w) = true.
Proof.
  intros comp hints w R.
  destruct (reachable_history_ok comp hints w R) as (_ & H1 & _ & H2). now split.
Qed.

Lemma ex_reached_reachable : reachable default_completion default_hints ex_reached.
Proof.
  unfold ex_reached, ex_calls. cbn [fold_left].
  repeat apply reachable_call. apply reachable_start.
Qed.

Lemma history_bounded_without_adjacent_duplicates_witness :
  history ex_reached = [bytes_of "cd"; []] /\
  history_len ex_reached <= history_max_len ex_reached /\
  no_adjacent_equal (history ex_reached) = true.
Proof.
  split; [vm_compute; reflexivity|].
  apply (history_bounded_without_adjacent_duplicates default_completion default_hints
           ex_reached ex_reached_reachable).
Defined.

(** History navigation behind the flag.  [smart_typed_ls] is a state with
    [smart_term_connected] set, which no call reaches (lemma
    [reachable_dumb]), with the history ["ls"; ""] (the line "ls" and the
    scratch slot) and the typed line "ls".  There Ctrl-P writes the line into
    the scratch slot before it shows the older entry: the history is then
    ["ls"; "ls"].  The guarantee for the reachable states above rests on the
    flag. *)
Lemma history_navigation_stores_a_duplicate :
  let w := snd (linenoiseEdit default_completion default_hints ex_buf 16 ex_prompt 16
                  smart_typed_ls) in
  mode smart_typed_ls = ln_read_regular /\
  cstr (buf smart_typed_ls) = bytes_of "ls" /\
  history smart_typed_ls = [bytes_of "ls"; []] /\
  no_adjacent_equal (history smart_typed_ls) = true /\
  history w = [bytes_of "ls"; bytes_of "ls"] /\
  no_adjacent_equal (history w) = false.
Proof. vm_compute. repeat split; congruence. Qed.

(** ** Saving and loading the history *)

Lemma fgets_line e : forall k rest,
  existsb (fun x => x =? LF) e = false -> (length e < k)%nat ->
  fgets k (e ++ LF :: rest) = (e ++ [LF], rest).
Proof.
  induction e as [|x e IH]; intros k rest H Hk; simpl in *.
  - destruct k; [lia|]. reflexivity.
  - destruct k; [lia|]. apply orb_false_iff in H as [H1 H2].
    rewrite H1, IH by (assumption || lia). reflexivity.
Qed.

Lemma cut_at_app_stop c e : existsb (fun x => x =? c) e = false -> cut_at c (e ++ [c]) = e.
Proof.
  induction e as [|x e IH]; simpl; intros H.
  - now rewrite Z.eqb_refl.
  - apply orb_false_iff in H as [H1 H2]. rewrite H1, IH by assumption. reflexivity.
Qed.

Lemma loadable_spec e :
  loadable e = true ->
  nul_free e = true /\ existsb (fun x => x =? LF) e = false /\
  existsb (fun x => x =? CR) e = false /\ Z.of_nat (length e) <= LINENOISE_MAX_LINE - 2.
Proof.
  unfold loadable. intros H.
  repeat (apply andb_true_iff in H as [H ?]).
  repeat split; try assumption; try (now apply negb_true_iff); now apply Z.leb_le.
Qed.

Lemma strip_eol_line e : loadable e = true -> strip_eol (e ++ [LF]) = e.
Proof.
  intros H. apply loadable_spec in H as (Hn & Hlf & Hcr & _).
  assert (C : cstr (e ++ [LF]) = e ++ [LF]).
  { apply cstr_id. unfold nul_free in *. rewrite forallb_app, Hn. reflexivity. }
  unfold strip_eol, strchr_found. rewrite C, existsb_app, Hcr. cbn [existsb orb].
  change (LF =? CR) with false. cbn [orb]. now apply cut_at_app_stop.
Qed.

(** [linenoiseHistoryAdd] of a new line that differs from the last one,
    into a store with room *)
Lemma linenoiseHistoryAdd_appends e w :
  nul_free e = true -> forallb nul_free (history w) = true ->
  history_len w < history_max_len w ->
  no_adjacent_equal (history w ++ [e]) = true ->
  linenoiseHistoryAdd e w = (1, set_history (history w ++ [e]) w).
Proof.
  intros He Hn Hl Ha. unfold linenoiseHistoryAdd.
  assert (0 <= history_len w) by (unfold history_len; lia).
  destruct (Z.eqb_spec (history_max_len w) 0); [lia|].
  destruct (Z.eqb_spec (history_len w) (history_max_len w)); [lia|].
  rewrite cstr_id by assumption.
  destruct (negb (history_len w =? 0) && strcmp0 _ e) eqn:D; [|reflexivity].
  exfalso. apply andb_true_iff in D as [D1 D2].
  unfold history_len in *.
  assert (Hne : history w <> []).
  { intros E. rewrite E in D1. discriminate. }
  rewrite no_adjacent_equal_app in Ha. apply andb_true_iff in Ha as [_ Ha].
  unfold strcmp0 in D2. rewrite str_at_last in D2 by assumption.
  rewrite cstr_id in D2 by now apply last_nul_free.
  rewrite cstr_id in D2 by assumption.
  destruct (history w); [contradiction|]. rewrite D2 in Ha. discriminate.
Qed.

(** one round of the loop of [linenoiseHistoryLoad] on a saved line *)
Lemma load_loop_line f e rest w :
  loadable e = true ->
  load_loop (S f) (e ++ LF :: rest) w = load_loop f rest (snd (linenoiseHistoryAdd e w)).
Proof.
  intros He. pose proof (loadable_spec e He) as (Hne & Hlf & Hcr & Hlen).
  cbn [load_loop]. destruct (e ++ LF :: rest) eqn:F; [destruct e; discriminate|].
  rewrite <- F. rewrite fgets_line by (assumption || (unfold LINENOISE_MAX_LINE in *; lia)).
  now rewrite strip_eol_line.
Qed.

Lemma load_loop_roundtrip h : forall fuel w0,
  forallb loadable h = true ->
  forallb nul_free (history w0) = true ->
  no_adjacent_equal (history w0 ++ h) = true ->
  history_len w0 + Z.of_nat (length h) <= history_max_len w0 ->
  (length (concat (map (fun e => e ++ [LF]) h)) <= fuel)%nat ->
  history (load_loop fuel (concat (map (fun e => e ++ [LF]) h)) w0) = history w0 ++ h /\
  history_max_len (load_loop fuel (concat (map (fun e => e ++ [LF]) h)) w0)
    = history_max_len w0.
Proof.
  induction h as [|e h IH]; intros fuel w0 Hl Hn Ha Hm Hf.
  - simpl. destruct fuel; simpl; now rewrite app_nil_r.
  - cbn [map concat forallb] in *. apply andb_true_iff in Hl as [He Hl].
    destruct fuel as [|f]; [rewrite !length_app in Hf; simpl in Hf; lia|].
    rewrite <- app_assoc. cbn [app]. rewrite load_loop_line by assumption.
    pose proof (loadable_spec e He) as (Hne & Hlf & Hcr & Hlen).
    assert (Ha1 : no_adjacent_equal (history w0 ++ [e]) = true).
    { replace (history w0 ++ e :: h) with ((history w0 ++ [e]) ++ h) in Ha
        by (rewrite <- app_assoc; reflexivity).
      clear - Ha. revert Ha. generalize (history w0 ++ [e]) as l.
      intros l. induction h as [|x h IH] using rev_ind; [now rewrite app_nil_r|].
      rewrite app_assoc, no_adjacent_equal_app. intros Ha.
      apply andb_true_iff in Ha as [Ha _]. now apply IH. }
    rewrite linenoiseHistoryAdd_appends; try assumption;
      [|unfold history_len in *; simpl in Hm; lia].
    cbn [snd].
    destruct (IH f (set_history (history w0 ++ [e]) w0)) as [I1 I2]; try assumption.
    + psimpl. rewrite forallb_app, Hn. simpl. now rewrite Hne.
    + psimpl. now rewrite <- app_assoc.
    + unfold history_len in *. psimpl. rewrite length_app. simpl in *. lia.
    + rewrite !length_app in Hf. simpl in Hf. lia.
    + rewrite I1, I2. psimpl. now rewrite <- app_assoc.
Qed.

(** C7, as the code has it.  When every line of the store is free of
    newline and carriage return and at most 4094 bytes long, no two
    neighbours are equal, and the receiving store is empty with room for all
    the lines, then loading what [linenoiseHistorySave] writes gives the same
    lines in the same order. *)
Theorem history_save_load_round_trip :
  forall (w w0 : linenoiseState),
    forallb loadable (history w) = true ->
    no_adjacent_equal (history w) = true ->
    history w0 = [] ->
    history_len w <= history_max_len w0 ->
    fst (linenoiseHistoryLoad (Some (linenoiseHistorySave w)) w0) = 0 /\
    history (snd (linenoiseHistoryLoad (Some (linenoiseHistorySave w)) w0)) = history w.
Proof.
  intros w w0 Hl Ha H0 Hm. unfold linenoiseHistoryLoad, linenoiseHistorySave.
  cbn [fst snd]. split; [reflexivity|].
  destruct (load_loop_roundtrip (history w)
              (length (concat (map (fun e => e ++ [LF]) (history w)))) w0) as [H _];
    try assumption.
  - now rewrite H0.
  - now rewrite H0.
  - unfold history_len in *. rewrite H0. simpl. lia.
  - lia.
  - rewrite H, H0. reflexivity.
Qed.

Lemma history_save_load_round_trip_witness :
  history (snd (linenoiseHistoryLoad (Some (linenoiseHistorySave store_ls_cd)) l_state0))
  = [bytes_of "ls"; bytes_of "cd /tmp"].
Proof.
  destruct (history_save_load_round_trip store_ls_cd l_state0) as [_ H].
  - vm_compute. reflexivity.
  - vm_compute. reflexivity.
  - reflexivity.
  - vm_compute. congruence.
  - rewrite H. reflexivity.
Defined.

(** C7 fails for a line with a carriage return inside and for a line of
    4095 bytes.  Both are lines in the sense of the claim.  The first comes
    back cut at the carriage return; the second is read in two pieces, the
    line itself and an empty line. *)
Lemma history_round_trip_loses_lines :
  forallb spec_line (history store_with_cr) = true /\
  history (snd (linenoiseHistoryLoad (Some (linenoiseHistorySave store_with_cr)) l_state0))
    = [[97]] /\
  forallb spec_line (history store_with_long_line) = true /\
  history (snd (linenoiseHistoryLoad (Some (linenoiseHistorySave store_with_long_line))
                  l_state0))
    = [repeat 97 4095%nat; []].
Proof. vm_compute. repeat split; reflexivity. Qed.

(** ** Hints *)

Lemma split_open_spec t : forall a r,
  split_open t = Some (a, r) ->
  t = a ++ r /\ (1 <= length a)%nat /\ scan is_open_bracket t = (length a - 1)%nat.
Proof.
  induction t as [|x t IH]; intros a r H; simpl in H; [discriminate|].
  cbn [scan]. change (is_open_bracket x) with (x =? 91).
  destruct (x =? 91) eqn:E.
  - injection H as <- <-. simpl. repeat split; lia.
  - destruct (split_open t) as [[a' b']|]; [|discriminate].
    injection H as <- <-. destruct (IH a' b' eq_refl) as (E1 & L & Sc).
    rewrite Sc, E1. simpl. repeat split; lia.
Qed.

Lemma skipn_app_exact {A : Type} (a b : list A) : skipn (length a) (a ++ b) = b.
Proof. induction a; simpl; auto. Qed.

Lemma firstn_app_exact {A : Type} (a b : list A) : firstn (length a) (a ++ b) = a.
Proof. induction a; simpl; [reflexivity|]. now f_equal. Qed.

(** the loop of [refreshShowHints] stops behind the opening bracket of
    placeholder [k] after [k + 1] rounds *)
Lemma locate_arg_split k : forall t pre rest front a0,
  placeholder_split k t = Some (pre, rest) ->
  locate_arg (S k) (front ++ t) (length front) a0
  = ((length front + length pre)%nat, (length front + length pre)%nat).
Proof.
  induction k as [|k IH]; intros t pre rest front a0 H; cbn [placeholder_split] in H.
  - destruct t as [|x t']; [discriminate|].
    destruct (split_open (x :: t')) as [[a r]|] eqn:So; [|discriminate].
    injection H as <- <-. apply split_open_spec in So as (E & L & Sc).
    cbn [locate_arg]. rewrite skipn_app_exact, Sc.
    destruct (Nat.ltb_spec (length front + (length a - 1)) (length (front ++ x :: t'))) as [_|N].
    + f_equal; lia.
    + rewrite E, !length_app in N. lia.
  - destruct t as [|x t']; [discriminate|].
    destruct (split_open (x :: t')) as [[a r]|] eqn:So; [|discriminate].
    destruct (placeholder_split k r) as [[a' r']|] eqn:P; [|discriminate].
    injection H as <- <-. apply split_open_spec in So as (E & L & Sc).
    change (locate_arg (S (S k)) (front ++ x :: t') (length front) a0)
      with (let p1 := (length front
                       + scan is_open_bracket (skipn (length front) (front ++ x :: t')))%nat in
            let p2 := if (p1 <? length (front ++ x :: t'))%nat then S p1 else p1 in
            locate_arg (S k) (front ++ x :: t') p2 p2).
    cbv zeta. rewrite skipn_app_exact, Sc.
    destruct (Nat.ltb_spec (length front + (length a - 1)) (length (front ++ x :: t'))) as [_|N];
      [|rewrite E, !length_app in N; lia].
    rewrite E, app_assoc.
    replace (S (length front + (length a - 1))) with (length (front ++ a))
      by (rewrite length_app; lia).
    rewrite (IH r a' r' (front ++ a) _ P). rewrite !length_app. f_equal; lia.
Qed.

Lemma placeholder_split_app k : forall t pre rest,
  placeholder_split k t = Some (pre, rest) -> t = pre ++ rest /\ pre <> [].
Proof.
  induction k as [|k IH]; intros t pre rest H; cbn [placeholder_split] in H;
    destruct t as [|x t']; try discriminate;
    destruct (split_open (x :: t')) as [[a r]|] eqn:So; try discriminate;
    apply split_open_spec in So as (E & L & _).
  - injection H as <- <-. split; [exact E|]. destruct a; [simpl in L; lia|discriminate].
  - destruct (placeholder_split k r) as [[a' r']|] eqn:P; [|discriminate].
    injection H as <- <-. destruct (IH r a' r' P) as [-> _].
    split; [now rewrite <- app_assoc|]. destruct a; [simpl in L; lia|discriminate].
Qed.

Lemma word_of_scan r :
  firstn (scan is_arg_stop r) r = word_of r /\
  scan is_arg_stop r = length (word_of r).
Proof.
  induction r as [|x r [IH1 IH2]]; [now split|].
  cbn [scan word_of]. change (is_arg_stop x) with ((x =? SPACE) || (x =? 93)).
  destruct ((x =? SPACE) || (x =? 93)); [now split|].
  cbn [firstn length]. rewrite IH1, IH2. now split.
Qed.

Lemma count_spaces_found b k :
  count_spaces (cstr b) = S k -> strchr_found b SPACE = true.
Proof.
  unfold count_spaces, strchr_found. generalize (cstr b) as s.
  induction s as [|x s IH]; simpl; [discriminate|].
  destruct (x =? SPACE); [reflexivity|]. simpl. exact IH.
Qed.

(** [show_args] when the whole template fits: the word behind the opening
    bracket of placeholder [k] stands between the two escapes, where [k + 1]
    is the number of blanks of the line *)
Lemma show_args_highlight b h0 k pre rest :
  count_spaces (cstr b) = S k ->
  placeholder_split k h0 = Some (pre, rest) ->
  word_of rest <> [] ->
  Z.of_nat (length h0) < SIZE_MOD ->
  show_args b h0 (Z.of_nat (length h0))
  = pre ++ HINT_REVERSE ++ word_of rest ++ HINT_NORMAL ++ skipn (length (word_of rest)) rest.
Proof.
  intros Hn Hs Hw Hl. unfold show_args.
  rewrite (count_spaces_found b k Hn), Hn.
  destruct (placeholder_split_app k h0 pre rest Hs) as [E Hpre].
  pose proof (locate_arg_split k h0 pre rest [] O Hs) as L. cbn [app length Nat.add] in L.
  rewrite L. clear L.
  assert (Lp : (1 <= length pre)%nat) by (destruct pre; [contradiction|simpl; lia]).
  destruct (Z.eqb_spec (Z.of_nat (length pre)) 0) as [|_]; [lia|].
  assert (R : skipn (length pre) h0 = rest) by (rewrite E; apply skipn_app_exact).
  rewrite R. destruct (word_of_scan rest) as [W1 W2]. rewrite W2.
  assert (Lw : (1 <= length (word_of rest))%nat)
    by (destruct (word_of rest); [contradiction|simpl; lia]).
  assert (Lr : (length (word_of rest) <= length rest)%nat).
  { rewrite <- W1. rewrite length_firstn. lia. }
  assert (Lh : length h0 = (length pre + length rest)%nat) by (rewrite E; apply length_app).
  destruct (Z.eqb_spec (Z.of_nat (length pre))
              (Z.of_nat (length pre + length (word_of rest)))) as [|_]; [lia|].
  cbn [negb].
  unfold MIN.
  destruct (Z.ltb_spec (Z.of_nat (length h0)) (Z.of_nat (length pre))) as [|_]; [lia|].
  destruct (Z.ltb_spec (Z.of_nat (length h0))
              (Z.of_nat (length pre + length (word_of rest)))) as [|_]; [lia|].
  unfold take, drop. rewrite !Nat2Z.id.
  rewrite !sz_small by lia.
  replace (Z.to_nat (Z.of_nat (length pre + length (word_of rest)) - Z.of_nat (length pre)))
    with (length (word_of rest)) by lia.
  replace (Z.to_nat (Z.of_nat (length h0) - Z.of_nat (length pre + length (word_of rest))))
    with (length rest - length (word_of rest))%nat by lia.
  rewrite R. rewrite E at 1. rewrite firstn_app_exact.
  rewrite <- W2 at 1. rewrite W1.
  replace (skipn (length pre + length (word_of rest)) h0)
    with (skipn (length (word_of rest)) rest)
    by (rewrite E, Nat.add_comm, <- skipn_skipn, skipn_app_exact; reflexivity).
  rewrite firstn_all2 by (rewrite length_skipn; lia).
  reflexivity.
Qed.

Lemma to_int_le x : to_int x <= INT_MAX.
Proof.
  unfold to_int. pose proof (sz_range x). unfold SIZE_MOD, INT_MAX in *.
  destruct (Z.leb_spec (sz x) 2147483647); lia.
Qed.

(** C8, as the code has it.  Let the line hold [k + 1] blanks, let the hints
    callback give the template [h0], and let the template fit into the
    columns that are left.  [placeholder_split k h0] cuts the template behind
    the opening bracket of the placeholder with the index [k], one less than
    the number of blanks.  When that placeholder starts with a word, the
    bytes of the hint are: a blank and the normal colour, the template up to
    and with that bracket, the escape for reverse video, the word (the bytes
    before the next blank or closing bracket), the escape for the normal
    colour, the rest of the template, and then the description. *)
Theorem hint_highlights_current_argument :
  forall (linenoise_hints : list Z -> option (list Z * list Z))
         (w : linenoiseState) (plen : Z) (h0 h1 : list Z) (k : nat) (pre rest : list Z),
    linenoise_hints (cstr (buf w)) = Some (h0, h1) ->
    nul_free h0 = true ->
    count_spaces (cstr (buf w)) = S k ->
    placeholder_split k h0 = Some (pre, rest) ->
    word_of rest <> [] ->
    0 < to_int (cols w - (plen + len w + 1)) ->
    Z.of_nat (length h0) <= to_int (cols w - (plen + len w + 1)) ->
    exists tail : list Z,
      refreshShowHints linenoise_hints w plen
      = SPACE :: HINT_NORMAL ++ pre ++ HINT_REVERSE ++ word_of rest ++ HINT_NORMAL
        ++ skipn (length (word_of rest)) rest ++ tail.
Proof.
  intros hints w plen h0 h1 k pre rest Hh Hn Hc Hs Hw Hpos Hfit.
  unfold refreshShowHints. cbv zeta.
  set (ca := to_int (cols w - (plen + len w + 1))) in *.
  destruct (Z.gtb_spec ca 0) as [_|]; [|lia].
  rewrite Hh, (cstr_id h0 Hn).
  destruct (placeholder_split_app k h0 pre rest Hs) as [E Hpre].
  pose proof (to_int_le (cols w - (plen + len w + 1))) as Hca. fold ca in Hca.
  assert (Hsz : sz ca = ca) by (apply sz_small; unfold SIZE_MOD, INT_MAX in *; lia).
  assert (Hlen : strlen h0 = Z.of_nat (length h0)) by (unfold strlen; now rewrite cstr_id).
  assert (Hmin : MIN (strlen h0) (sz ca) = Z.of_nat (length h0)).
  { unfold MIN. rewrite Hsz, Hlen. destruct (Z.ltb_spec (Z.of_nat (length h0)) ca); lia. }
  destruct h0 as [|x h0'] eqn:Eh0.
  { destruct pre; [contradiction|discriminate]. }
  rewrite <- Eh0 in *. rewrite Hmin.
  rewrite (show_args_highlight (buf w) h0 k pre rest Hc Hs Hw)
    by (unfold SIZE_MOD, INT_MAX in *; lia).
  destruct (ca - Z.of_nat (length h0) >? 0);
    eexists; cbn [app]; rewrite <- ?app_assoc; cbn [app];
    repeat f_equal.
Qed.

Lemma hint_highlights_current_argument_witness :
  exists tail : list Z,
    refreshShowHints ex_hints smart_typed_cp 2
    = SPACE :: HINT_NORMAL ++ bytes_of "[" ++ HINT_REVERSE ++ bytes_of "src" ++ HINT_NORMAL
      ++ bytes_of "] [dst]" ++ tail.
Proof.
  destruct (hint_highlights_current_argument ex_hints smart_typed_cp 2
              (bytes_of "[src] [dst]") (bytes_of "- copies a file") O
              (bytes_of "[") (bytes_of "src] [dst]")) as [tail H].
  - vm_compute. reflexivity.
  - vm_compute. reflexivity.
  - vm_compute. reflexivity.
  - vm_compute. reflexivity.
  - vm_compute. congruence.
  - vm_compute. reflexivity.
  - vm_compute. congruence.
  - exists tail. exact H.
Defined.

(** C8 fails on the index.  The line "cp " holds one blank and the template
    is "[src] [dst]".  The placeholder with the index 1, the number of
    blanks, is "dst"; the bytes in reverse video are "src", the placeholder
    with the index 0. *)
Lemma hint_highlights_the_placeholder_before :
  cstr (buf smart_typed_cp) = bytes_of "cp " /\
  count_spaces (cstr (buf smart_typed_cp)) = 1%nat /\
  ex_hints (cstr (buf smart_typed_cp)) = Some (bytes_of "[src] [dst]", bytes_of "- copies a file") /\
  0 < to_int (cols smart_typed_cp - (2 + len smart_typed_cp + 1)) /\
  placeholder_at 1 (bytes_of "[src] [dst]") = Some (bytes_of "dst") /\
  placeholder_at 0 (bytes_of "[src] [dst]") = Some (bytes_of "src") /\
  reverse_video_part (refreshShowHints ex_hints smart_typed_cp 2) = Some (bytes_of "src") /\
  reverse_video_part (refreshShowHints ex_hints smart_typed_cp 2) <> Some (bytes_of "dst").
Proof. vm_compute. repeat split; congruence. Qed.

(** ** The multi-line redraw *)

Lemma app_prefix_shape {A : Type} (x : A) (a u b X Y : list A) :
  ((x :: a ++ u ++ b) ++ X) ++ Y = x :: a ++ u ++ b ++ (X ++ Y).
Proof. cbn [app]. now rewrite <- !app_assoc. Qed.

Section MultiLine.

Variable linenoise_completion : list Z -> list (list Z).
Variable linenoise_hints : list Z -> option (list Z * list Z).

(** a printable byte at the end of a line that has room: the byte is
    appended and the line is drawn again *)
Lemma Edit_appends hbuf n p c w :
  mode w = ln_read_regular -> smart_term_connected w = true ->
  32 <= c < 127 -> len w = pos w -> len w < buflen w ->
  linenoiseEdit linenoise_completion linenoise_hints hbuf n p c w
  = (-1, refreshLine linenoise_hints (appended c w)).
Proof.
  intros Hm Hs Hc Hlp Hlb. unfold linenoiseEdit. rewrite Hm. unfold lnReadUserInput.
  destruct (Z.ltb_spec c 0); [lia|]. rewrite Hs, to_char_small by lia.
  assert (K : forall k, k < 32 \/ 127 <= k -> (c =? k) = false)
    by (intros k Hk; apply Z.eqb_neq; lia).
  unfold lnHandleCharacter.
  rewrite !K by (vm_compute; intuition congruence). cbn [orb].
  unfold linenoiseEditInsert.
  destruct (Z.ltb_spec (len w) (buflen w)); [|lia].
  destruct (Z.eqb_spec (len w) (pos w)); [|lia].
  reflexivity.
Qed.

(** the first bytes that [refreshMultiLine] writes when [old_rows - rpos]
    is not 0 *)
Lemma refreshMultiLine_goes_down h w :
  0 < ml_go_down w ->
  exists rest : list Z,
    out (refreshMultiLine linenoise_hints h w)
    = out w ++ ESC :: bytes_of "[" ++ udec (ml_go_down w) ++ bytes_of "B" ++ rest.
Proof.
  intros H. unfold refreshMultiLine. cbv zeta. fsimpl.
  destruct (Z.gtb_spec (ml_go_down w) 0); [|lia].
  eexists. f_equal. apply app_prefix_shape.
Qed.

End MultiLine.

(** The renderer behind the flag.  [ml_empty_line] is a state with
    [smart_term_connected] set, which no call reaches (lemma
    [reachable_dumb]): 80 columns, multi-line mode, right after
    [lnInitState], which sets [maxrows] to 0.  There the byte 'x' is appended
    and [refreshMultiLine] is called on the state [w] with [old_rows = 0] and
    [rpos = 1]: [old_rows - rpos] and [old_rows - 1] are 4294967295, and the
    redraw starts with the escape that moves the cursor 4294967295 rows
    down.  The guarantee for the reachable states below rests on the flag,
    not on the arithmetic of the renderer. *)
Lemma first_multi_line_redraw_wraps :
  let w := appended 120 ml_empty_line in
  linenoiseEdit default_completion default_hints ex_buf 16 ex_prompt 120 ml_empty_line
    = (-1, refreshMultiLine default_hints true w) /\
  ml_old_rows w = 0 /\ ml_rpos w = 1 /\
  ~ ml_rpos w <= ml_old_rows w /\ ~ 1 <= ml_old_rows w /\
  ml_go_down w = 4294967295 /\ ml_clear_bound w = 4294967295 /\
  exists rest : list Z,
    out (refreshMultiLine default_hints true w)
    = out w ++ ESC :: bytes_of "[4294967295B" ++ rest.
Proof.
  intros w.
  assert (G : ml_go_down w = 4294967295) by (vm_compute; reflexivity).
  split; [|split; [|split; [|split; [|split; [|split; [|split]]]]]].
  - rewrite (Edit_appends default_completion default_hints ex_buf 16 ex_prompt 120 ml_empty_line).
    + unfold refreshLine.
      replace (mlmode (appended 120 ml_empty_line)) with true by (vm_compute; reflexivity).
      reflexivity.
    + vm_compute. reflexivity.
    + vm_compute. reflexivity.
    + vm_compute. intuition congruence.
    + vm_compute. reflexivity.
    + vm_compute. reflexivity.
  - vm_compute. reflexivity.
  - vm_compute. reflexivity.
  - vm_compute. congruence.
  - vm_compute. congruence.
  - exact G.
  - vm_compute. reflexivity.
  - destruct (refreshMultiLine_goes_down default_hints true w) as [rest R].
    + rewrite G. reflexivity.
    + exists rest. rewrite R, G. reflexivity.
Qed.

(** ** Faults

    [fault] is set where the C code runs into undefined behaviour.  No call
    takes it back, and the calls that the host can make never set it. *)

Lemma copy_check_fault off n w : fault w = true -> fault (copy_check off n w) = true.
Proof. intros H. unfold copy_check. destruct (_ <=? _); [exact H | reflexivity]. Qed.

Lemma history_pop_fault w : fault w = true -> fault (history_pop w) = true.
Proof. intros H. unfold history_pop. destruct (_ =? _); [reflexivity | exact H]. Qed.

Section Sticky.

Variable linenoise_completion : list Z -> list (list Z).
Variable linenoise_hints : list Z -> option (list Z * list Z).

Ltac sticky_setters :=
  repeat match goal with
         | |- fault (?f ?v ?x) = true => progress (change (fault (f v x)) with (fault x))
         | |- fault (?f ?x) = true => progress (change (fault (f x)) with (fault x))
         end.

Lemma fault_refreshLine w :
  fault w = true -> fault (refreshLine linenoise_hints w) = true.
Proof.
  intros H. unfold refreshLine, refreshMultiLine, refreshSingleLine, linenoise_write.
  cbv zeta. split_ifs; sticky_setters; now apply copy_check_fault.
Qed.

Lemma fault_refreshLineNoHints w :
  fault w = true -> fault (refreshLineNoHints linenoise_hints w) = true.
Proof.
  intros H. unfold refreshLineNoHints, refreshMultiLine, refreshSingleLine, linenoise_write.
  cbv zeta. split_ifs; sticky_setters; now apply copy_check_fault.
Qed.

Ltac sticky_step :=
  first
    [ assumption
    | apply fault_refreshLine | apply fault_refreshLineNoHints
    | apply history_pop_fault | apply copy_check_fault
    | match goal with
      | |- fault (?f ?v ?x) = true => progress (change (fault (f v x)) with (fault x))
      | |- fault (?f ?x) = true => progress (change (fault (f x)) with (fault x))
      end ].

Ltac sticky_tac := intros; split_ifs; cbn [snd]; repeat sticky_step.

Lemma fault_Insert c w :
  fault w = true -> fault (snd (linenoiseEditInsert linenoise_hints c w)) = true.
Proof. unfold linenoiseEditInsert. sticky_tac. Qed.

Lemma fault_MoveLeft w : fault w = true -> fault (linenoiseEditMoveLeft linenoise_hints w) = true.
Proof. unfold linenoiseEditMoveLeft. sticky_tac. Qed.

Lemma fault_MoveRight w : fault w = true -> fault (linenoiseEditMoveRight linenoise_hints w) = true.
Proof. unfold linenoiseEditMoveRight. sticky_tac. Qed.

Lemma fault_MoveHome w : fault w = true -> fault (linenoiseEditMoveHome linenoise_hints w) = true.
Proof. unfold linenoiseEditMoveHome. sticky_tac. Qed.

Lemma fault_MoveEnd w : fault w = true -> fault (linenoiseEditMoveEnd linenoise_hints w) = true.
Proof. unfold linenoiseEditMoveEnd. sticky_tac. Qed.

Lemma fault_HistoryNext d w :
  fault w = true -> fault (linenoiseEditHistoryNext linenoise_hints d w) = true.
Proof. unfold linenoiseEditHistoryNext. sticky_tac. Qed.

Lemma fault_Delete w : fault w = true -> fault (linenoiseEditDelete linenoise_hints w) = true.
Proof. unfold linenoiseEditDelete. sticky_tac. Qed.

Lemma fault_Backspace w : fault w = true -> fault (linenoiseEditBackspace linenoise_hints w) = true.
Proof. unfold linenoiseEditBackspace. sticky_tac. Qed.

Lemma fault_DeletePrevWord w :
  fault w = true -> fault (linenoiseEditDeletePrevWord linenoise_hints w) = true.
Proof. unfold linenoiseEditDeletePrevWord. sticky_tac. Qed.

Lemma fault_ShowCompletion w :
  fault w = true -> fault (lnShowCompletion linenoise_hints w) = true.
Proof. unfold lnShowCompletion. sticky_tac. Qed.

Lemma fault_completeLine w :
  fault w = true -> fault (completeLine linenoise_completion linenoise_hints w) = true.
Proof.
  unfold completeLine. intros H. split_ifs; [exact H|].
  apply fault_ShowCompletion. exact H.
Qed.

Ltac sticky_step2 :=
  first
    [ assumption
    | apply fault_completeLine | apply fault_ShowCompletion
    | apply fault_Insert
    | apply fault_MoveLeft | apply fault_MoveRight | apply fault_MoveHome
    | apply fault_MoveEnd | apply fault_HistoryNext | apply fault_Delete
    | apply fault_Backspace | apply fault_DeletePrevWord
    | apply history_pop_fault
    | apply fault_refreshLine | apply fault_refreshLineNoHints
    | match goal with
      | |- fault (?f ?v ?x) = true => progress (change (fault (f v x)) with (fault x))
      | |- fault (?f ?x) = true => progress (change (fault (f x)) with (fault x))
      end ].

Lemma fault_ReadEscSequence c w :
  fault w = true -> fault (snd (lnReadEscSequence linenoise_hints c w)) = true.
Proof.
  intros H. unfold lnReadEscSequence. split_ifs; cbn [snd]; repeat sticky_step2.
Qed.

Lemma fault_HandleCharacter c w :
  fault w = true ->
  fault (snd (lnHandleCharacter linenoise_completion linenoise_hints c w)) = true.
Proof.
  intros H. unfold lnHandleCharacter.
  split_ifs; cbn [snd]; unfold lnRestartState;
    try match goal with
        | E : linenoiseEditInsert _ _ _ = _ |- _ =>
            pose proof (fault_Insert c w H) as H'; rewrite E in H'; exact H'
        end;
    repeat sticky_step2.
Qed.

Lemma fault_Completion c w :
  fault w = true ->
  fault (snd (lnCompletion linenoise_completion linenoise_hints c w)) = true.
Proof.
  intros H. unfold lnCompletion.
  split_ifs; cbn [snd]; try apply fault_HandleCharacter; repeat sticky_step2.
Qed.

Lemma fault_HandleCharacterDumb c w :
  fault w = true -> fault (snd (lnHandleCharacterDumb c w)) = true.
Proof.
  intros H. unfold lnHandleCharacterDumb.
  split_ifs; cbn [snd]; unfold lnRestartState; repeat sticky_step2.
Qed.

Lemma fault_ReadUserInput c w :
  fault w = true ->
  fault (snd (lnReadUserInput linenoise_completion linenoise_hints c w)) = true.
Proof.
  intros H. unfold lnReadUserInput.
  split_ifs; [exact H | now apply fault_HandleCharacter | now apply fault_HandleCharacterDumb].
Qed.

Lemma linenoiseHistoryAdd_fault line w :
  fault (snd (linenoiseHistoryAdd line w)) = fault w.
Proof. unfold linenoiseHistoryAdd. split_ifs; reflexivity. Qed.

Lemma lnInitState_fault hbuf n p w : fault (lnInitState hbuf n p w) = fault w.
Proof.
  unfold lnInitState. cbv zeta.
  match goal with |- context [linenoiseHistoryAdd [] ?x] => set (y := x) end.
  assert (A : fault (snd (linenoiseHistoryAdd [] y)) = fault w)
    by (rewrite linenoiseHistoryAdd_fault; reflexivity).
  destruct (smart_term_connected (snd (linenoiseHistoryAdd [] y))); psimpl; assumption.
Qed.

(** a fault stays: no call takes the flag back *)
Lemma fault_Edit hbuf n p c w :
  fault w = true ->
  fault (snd (linenoiseEdit linenoise_completion linenoise_hints hbuf n p c w)) = true.
Proof.
  intros H. rewrite Edit_session_state. cbv zeta.
  assert (S : fault (session_state hbuf n p w) = true).
  { unfold session_state. destruct (mode w); rewrite ?lnInitState_fault; exact H. }
  destruct (mode (session_state hbuf n p w)).
  all: first [ now apply fault_ReadUserInput | now apply fault_ReadEscSequence
             | now apply fault_Completion ].
Qed.

Lemma fault_edit_trace calls : forall w,
  fault w = true ->
  Forall (fun s => fault s = true)
    (edit_trace linenoise_completion linenoise_hints calls w).
Proof.
  induction calls as [|[[[hbuf n] p] c] calls IH]; intros w H; cbn [edit_trace];
    [constructor|].
  pose proof (fault_Edit hbuf n p c w H) as F.
  constructor; [exact F | apply IH; exact F].
Qed.

(** the dumb handler meets no fault: it neither pops the history nor
    redraws *)
Lemma Edit_dumb_fault hbuf n p c w :
  smart_term_connected w = false ->
  mode w <> ln_read_esc -> mode w <> ln_completion ->
  fault (snd (linenoiseEdit linenoise_completion linenoise_hints hbuf n p c w)) = fault w.
Proof.
  intros Hs He Hc. rewrite Edit_session_state. cbv zeta.
  set (s := session_state hbuf n p w).
  assert (S : smart_term_connected s = false /\ mode s = ln_read_regular /\
              fault s = fault w).
  { subst s. unfold session_state.
    destruct (mode w) eqn:M; try congruence;
      rewrite ?lnInitState_smart, ?lnInitState_mode, ?lnInitState_fault;
      cbn [getColumns snd]; psimpl; auto. }
  destruct S as (S1 & S2 & S3). rewrite S2.
  unfold lnReadUserInput. destruct (c <? 0); cbn [snd]; [auto|].
  rewrite S1. unfold lnHandleCharacterDumb, lnRestartState.
  split_ifs; cbn [snd]; psimpl; auto.
Qed.

Lemma load_loop_fault fuel : forall file w, fault (load_loop fuel file w) = fault w.
Proof.
  induction fuel as [|f IH]; intros file w; simpl; [reflexivity|].
  destruct file as [|x r]; [reflexivity|].
  destruct (fgets _ _) as [line rest]. rewrite IH. apply linenoiseHistoryAdd_fault.
Qed.

Lemma reachable_never_faults w :
  reachable linenoise_completion linenoise_hints w -> fault w = false.
Proof.
  induction 1 as [|call w R IH].
  - reflexivity.
  - destruct (reachable_dumb _ _ w R) as (Hs & He & Hc).
    destruct call; cbn [api_step].
    + now rewrite Edit_dumb_fault.
    + unfold linenoiseRefreshEditor, smartTerminalConnected. now rewrite Hs.
    + unfold linenoiseUpdatePrompt, linenoiseRefreshEditor, smartTerminalConnected.
      psimpl. now rewrite Hs.
    + exact IH.
    + exact IH.
    + now rewrite linenoiseHistoryAdd_fault.
    + unfold linenoiseHistorySetMaxLen. split_ifs; exact IH.
    + exact IH.
    + unfold linenoiseHistoryLoad. destruct file; [|exact IH].
      cbn [snd]. now rewrite load_loop_fault.
Qed.

End Sticky.

(** ** The renderer and the reachable states *)

Section RendererLog.

Variable linenoise_completion : list Z -> list (list Z).
Variable linenoise_hints : list Z -> option (list Z * list Z).

Lemma linenoiseHistoryAdd_ml_calls line w :
  ml_calls (snd (linenoiseHistoryAdd line w)) = ml_calls w.
Proof. unfold linenoiseHistoryAdd. split_ifs; reflexivity. Qed.

Lemma load_loop_ml_calls fuel : forall file w,
  ml_calls (load_loop fuel file w) = ml_calls w.
Proof.
  induction fuel as [|f IH]; intros file w; simpl; [reflexivity|].
  destruct file as [|x r]; [reflexivity|].
  destruct (fgets _ _) as [line rest]. rewrite IH. apply linenoiseHistoryAdd_ml_calls.
Qed.

Lemma lnInitState_ml_calls hbuf n p w :
  ml_calls (lnInitState hbuf n p w) = ml_calls w.
Proof.
  unfold lnInitState. cbv zeta.
  match goal with |- context [linenoiseHistoryAdd [] ?x] => set (y := x) end.
  assert (A : ml_calls (snd (linenoiseHistoryAdd [] y)) = ml_calls w)
    by (rewrite linenoiseHistoryAdd_ml_calls; reflexivity).
  destruct (smart_term_connected (snd (linenoiseHistoryAdd [] y))); psimpl; assumption.
Qed.

Lemma Edit_dumb_ml_calls hbuf n p c w :
  smart_term_connected w = false ->
  mode w <> ln_read_esc -> mode w <> ln_completion ->
  ml_calls (snd (linenoiseEdit linenoise_completion linenoise_hints hbuf n p c w))
  = ml_calls w.
Proof.
  intros Hs He Hc. rewrite Edit_session_state. cbv zeta.
  set (s := session_state hbuf n p w).
  assert (S : smart_term_connected s = false /\ mode s = ln_read_regular /\
              ml_calls s = ml_calls w).
  { subst s. unfold session_state.
    destruct (mode w) eqn:M; try congruence;
      rewrite ?lnInitState_smart, ?lnInitState_mode, ?lnInitState_ml_calls;
      cbn [getColumns snd]; psimpl; auto. }
  destruct S as (S1 & S2 & S3). rewrite S2.
  unfold lnReadUserInput. destruct (c <? 0); cbn [snd]; [auto|].
  rewrite S1. unfold lnHandleCharacterDumb, lnRestartState.
  split_ifs; cbn [snd]; psimpl; auto.
Qed.

Lemma reachable_never_redraws w :
  reachable linenoise_completion linenoise_hints w -> ml_calls w = [].
Proof.
  induction 1 as [|call w R IH].
  - reflexivity.
  - destruct (reachable_dumb _ _ w R) as (Hs & He & Hc).
    destruct call; cbn [api_step].
    + now rewrite Edit_dumb_ml_calls.
    + unfold linenoiseRefreshEditor, smartTerminalConnected. now rewrite Hs.
    + unfold linenoiseUpdatePrompt, linenoiseRefreshEditor, smartTerminalConnected.
      psimpl. now rewrite Hs.
    + exact IH.
    + exact IH.
    + now rewrite linenoiseHistoryAdd_ml_calls.
    + unfold linenoiseHistorySetMaxLen. split_ifs; exact IH.
    + exact IH.
    + unfold linenoiseHistoryLoad. destruct file; [|exact IH].
      cbn [snd]. now rewrite load_loop_ml_calls.
Qed.

(** what a run of the renderer adds to the log *)
Lemma refreshMultiLine_ml_calls h w :
  ml_calls (refreshMultiLine linenoise_hints h w)
  = ml_calls w ++ [(ml_old_rows w, ml_rpos w)].
Proof. unfold refreshMultiLine. cbv zeta. fsimpl. reflexivity. Qed.

End RendererLog.


Lemma ml_reached_reachable : reachable default_completion default_hints ml_reached.
Proof.
  unfold ml_reached, ml_host_calls. cbn [fold_left].
  repeat apply reachable_call. apply reachable_start.
Qed.


(** ** Cursor, length and terminator *)

Section Invariant.

Variable N : Z.
Hypothesis N_range : 2 <= N <= INT_MAX.

Variable linenoise_completion : list Z -> list (list Z).
Variable linenoise_hints : list Z -> option (list Z * list Z).

(** every candidate of the callback is shorter than the room of the line *)
Hypothesis candidates_fit :
  forall b s, In s (linenoise_completion b) -> strlen s < N - 1.

Ltac arith := unfold SIZE_MOD, INT_MAX in *; lia.

Ltac sz_simpl :=
  repeat match goal with
         | |- context [sz ?x] => rewrite (sz_small x) by arith
         end.

(** [edit_ok] looks at six fields only *)
Lemma edit_ok_ext w1 w2 :
  buf w2 = buf w1 -> pos w2 = pos w1 -> len w2 = len w1 -> buflen w2 = buflen w1 ->
  lc w2 = lc w1 -> mode w2 = mode w1 ->
  edit_ok N w1 -> edit_ok N w2.
Proof. unfold edit_ok. intros -> -> -> -> -> ->. tauto. Qed.

Lemma ok_refreshLine w : edit_ok N w -> edit_ok N (refreshLine linenoise_hints w).
Proof. apply edit_ok_ext; autorewrite with frame; reflexivity. Qed.

Lemma ok_refreshLineNoHints w :
  edit_ok N w -> edit_ok N (refreshLineNoHints linenoise_hints w).
Proof. apply edit_ok_ext; autorewrite with frame; reflexivity. Qed.

Ltac ok_start :=
  match goal with
  | H : edit_ok N ?w |- _ =>
      let Hb := fresh "Hb" in let Hl := fresh "Hl" in let Hp := fresh "Hp" in
      let Hn := fresh "Hn" in let Hz := fresh "Hz" in let Hc := fresh "Hc" in
      destruct H as (Hb & Hl & Hp & Hn & Hz & Hc)
  end.

Lemma ok_Insert c w : edit_ok N w -> edit_ok N (snd (linenoiseEditInsert linenoise_hints c w)).
Proof.
  intros H. unfold linenoiseEditInsert.
  destruct (Z.ltb_spec (len w) (buflen w)); [|exact H].
  ok_start.
  destruct (Z.eqb_spec (len w) (pos w)); cbn [snd]; apply ok_refreshLine;
    unfold edit_ok; psimpl; sz_simpl;
    rewrite ?length_buf_set, ?length_memmove;
    (split; [assumption|]); (split; [assumption|]); (split; [lia|]); (split; [lia|]);
    (split; [|assumption]);
    apply buf_get_set_eq; rewrite ?length_buf_set, ?length_memmove; lia.
Qed.

Lemma ok_set_pos p w : edit_ok N w -> 0 <= p <= len w -> edit_ok N (set_pos p w).
Proof. intros H Hp'. ok_start. unfold edit_ok. psimpl. tauto. Qed.

Lemma ok_MoveLeft w : edit_ok N w -> edit_ok N (linenoiseEditMoveLeft linenoise_hints w).
Proof.
  intros H. unfold linenoiseEditMoveLeft.
  destruct (Z.gtb_spec (pos w) 0); [|exact H].
  apply ok_refreshLine, ok_set_pos; [assumption|]. ok_start. sz_simpl. lia.
Qed.

Lemma ok_MoveRight w : edit_ok N w -> edit_ok N (linenoiseEditMoveRight linenoise_hints w).
Proof.
  intros H. unfold linenoiseEditMoveRight.
  destruct (Z.eqb_spec (pos w) (len w)); [exact H|]. cbn [negb].
  apply ok_refreshLine, ok_set_pos; [assumption|]. ok_start. sz_simpl. lia.
Qed.

Lemma ok_MoveHome w : edit_ok N w -> edit_ok N (linenoiseEditMoveHome linenoise_hints w).
Proof.
  intros H. unfold linenoiseEditMoveHome.
  destruct (Z.eqb_spec (pos w) 0); [exact H|]. cbn [negb].
  apply ok_refreshLine, ok_set_pos; [assumption|]. ok_start. lia.
Qed.

Lemma ok_MoveEnd w : edit_ok N w -> edit_ok N (linenoiseEditMoveEnd linenoise_hints w).
Proof.
  intros H. unfold linenoiseEditMoveEnd.
  destruct (Z.eqb_spec (pos w) (len w)); [exact H|]. cbn [negb].
  apply ok_refreshLine, ok_set_pos; [assumption|]. ok_start. lia.
Qed.

Lemma length_strncpy b src n : length (strncpy b src n) = length b.
Proof. apply length_store_bytes. Qed.

Lemma ok_HistoryNext d w :
  edit_ok N w -> edit_ok N (linenoiseEditHistoryNext linenoise_hints d w).
Proof.
  intros H. unfold linenoiseEditHistoryNext. cbv zeta.
  destruct (history_len w >? 1); [|exact H].
  match goal with |- context [if ?b then _ else _] => destruct b end;
    [revert H; apply edit_ok_ext; reflexivity|].
  match goal with |- context [if ?b then _ else _] => destruct b end;
    [revert H; apply edit_ok_ext; reflexivity|].
  apply ok_refreshLine. ok_start. unfold edit_ok. psimpl.
  rewrite Hb. sz_simpl.
  set (b := buf_set (strncpy (buf w) _ (N - 1)) (N - 1 - 1) 0).
  assert (Lb : Z.of_nat (length b) = N)
    by (subst b; now rewrite length_buf_set, length_strncpy).
  assert (Z0 : buf_get b (N - 1 - 1) = 0)
    by (subst b; apply buf_get_set_eq; rewrite length_strncpy; lia).
  pose proof (strlen_le_nul b (N - 1 - 1) ltac:(lia) Z0).
  pose proof (strlen_nonneg b).
  repeat split; try assumption; try lia. apply buf_get_strlen.
Qed.

Lemma ok_Delete w : edit_ok N w -> edit_ok N (linenoiseEditDelete linenoise_hints w).
Proof.
  intros H. unfold linenoiseEditDelete.
  destruct (Z.gtb_spec (len w) 0); [|exact H].
  destruct (Z.ltb_spec (pos w) (len w)); [|exact H]. cbn [andb].
  apply ok_refreshLine. ok_start. unfold edit_ok. psimpl.
  sz_simpl. rewrite length_buf_set, length_memmove.
  repeat split; try assumption; try lia.
  apply buf_get_set_eq. rewrite length_memmove. lia.
Qed.

Lemma ok_Backspace w : edit_ok N w -> edit_ok N (linenoiseEditBackspace linenoise_hints w).
Proof.
  intros H. unfold linenoiseEditBackspace.
  destruct (Z.gtb_spec (pos w) 0); [|exact H].
  destruct (Z.gtb_spec (len w) 0); [|exact H]. cbn [andb].
  apply ok_refreshLine. ok_start. unfold edit_ok. psimpl.
  sz_simpl. rewrite length_buf_set, length_memmove.
  repeat split; try assumption; try lia.
  apply buf_get_set_eq. rewrite length_memmove. lia.
Qed.

Lemma back_while_range fuel test b : forall p,
  0 <= p < SIZE_MOD -> 0 <= back_while fuel test b p <= p.
Proof.
  induction fuel as [|f IH]; intros p Hp; simpl; [lia|].
  destruct (Z.gtb_spec p 0); cbn [andb]; [|lia].
  destruct (test _); [|lia].
  rewrite sz_small by lia. specialize (IH (p - 1) ltac:(lia)). lia.
Qed.

Lemma ok_DeletePrevWord w :
  edit_ok N w -> edit_ok N (linenoiseEditDeletePrevWord linenoise_hints w).
Proof.
  intros H. unfold linenoiseEditDeletePrevWord. cbv zeta.
  apply ok_refreshLine. ok_start.
  set (p1 := back_while (Z.to_nat (pos w)) (fun x => x =? SPACE) (buf w) (pos w)).
  set (p2 := back_while (Z.to_nat p1) (fun x => negb (x =? SPACE)) (buf w) p1).
  assert (R1 : 0 <= p1 <= pos w) by (apply back_while_range; arith).
  assert (R2 : 0 <= p2 <= p1) by (apply back_while_range; arith).
  unfold edit_ok. psimpl. sz_simpl. rewrite length_memmove.
  repeat split; try assumption; try lia.
  rewrite buf_get_memmove_in by lia.
  replace (pos w + (len w - (pos w - p2) - p2)) with (len w) by lia. assumption.
Qed.

Lemma ok_set_mode m w :
  edit_ok N w -> m <> ln_completion -> edit_ok N (set_mode m w).
Proof. intros H Hm. ok_start. unfold edit_ok. psimpl. repeat split; try assumption; try lia. congruence. Qed.

Lemma ok_ShowCompletion w :
  edit_ok N w -> edit_ok N (lnShowCompletion linenoise_hints w).
Proof.
  apply edit_ok_ext; unfold lnShowCompletion; cbv zeta; psimpl;
    try reflexivity; split_ifs; fsimpl; reflexivity.
Qed.

Lemma fold_AddCompletion l : forall acc,
  fold_left linenoiseAddCompletion l acc = acc ++ map cstr l.
Proof.
  induction l as [|x l IH]; intros acc; simpl; [now rewrite app_nil_r|].
  rewrite IH. unfold linenoiseAddCompletion. now rewrite <- app_assoc.
Qed.

Lemma ok_completeLine w :
  edit_ok N w ->
  edit_ok N (completeLine linenoise_completion linenoise_hints w).
Proof.
  intros H. unfold completeLine. cbv zeta. psimpl.
  destruct (Z.of_nat (length _) =? 0).
  - ok_start. unfold edit_ok. psimpl. repeat split; try assumption; try lia. constructor.
  - apply ok_ShowCompletion. ok_start. unfold edit_ok. psimpl.
    repeat split; try assumption; try lia. intros _.
    rewrite fold_AddCompletion. cbn [app]. apply Forall_forall. intros s Hs.
    apply in_map_iff in Hs as (s0 & <- & Hs0). rewrite strlen_cstr.
    eapply candidates_fit. exact Hs0.
Qed.

Lemma ok_history_pop w : edit_ok N w -> edit_ok N (history_pop w).
Proof. apply edit_ok_ext; unfold history_pop; destruct (history_len w =? 0); reflexivity. Qed.

Lemma ok_HandleCharacter c w :
  edit_ok N w ->
  edit_ok N (snd (lnHandleCharacter linenoise_completion linenoise_hints c w)).
Proof.
  intros H. unfold lnHandleCharacter. cbv zeta.
  destruct (c =? TAB); [now apply ok_completeLine|].
  destruct (c =? ENTER).
  { cbn [snd]. unfold lnRestartState. apply ok_set_mode.
    - apply ok_refreshLineNoHints.
      destruct (mlmode (history_pop w)); [apply ok_MoveEnd|]; now apply ok_history_pop.
    - destruct (smart_term_connected _); discriminate. }
  destruct (c =? CTRL_C); [exact H|].
  destruct ((c =? BACKSPACE) || (c =? 8)); [now apply ok_Backspace|].
  destruct (c =? CTRL_D).
  { destruct (len w >? 0); [now apply ok_Delete|now apply ok_history_pop]. }
  destruct (c =? CTRL_T).
  { destruct (Z.gtb_spec (pos w) 0); [|exact H].
    destruct (Z.ltb_spec (pos w) (len w)); [|exact H]. cbn [andb snd].
    apply ok_refreshLine. ok_start. psimpl.
    assert (G : buf_get (buf_set (buf_set (buf w) (pos w - 1) (buf_get (buf w) (pos w)))
                           (pos w) (buf_get (buf w) (pos w - 1))) (len w) = 0)
      by (rewrite !buf_get_set_ne by lia; assumption).
    destruct (Z.eqb_spec (pos w) (sz (len w - 1))); cbn [negb];
      unfold edit_ok; psimpl; sz_simpl; rewrite !length_buf_set;
      repeat split; try assumption; lia. }
  destruct (c =? CTRL_B); [now apply ok_MoveLeft|].
  destruct (c =? CTRL_F); [now apply ok_MoveRight|].
  destruct (c =? CTRL_P); [now apply ok_HistoryNext|].
  destruct (c =? CTRL_N); [now apply ok_HistoryNext|].
  destruct (c =? ESC).
  { cbn [snd]. apply ok_set_mode; [|discriminate]. revert H. apply edit_ok_ext; reflexivity. }
  destruct (c =? CTRL_U).
  { cbn [snd]. apply ok_refreshLine. ok_start. unfold edit_ok. psimpl.
    rewrite length_buf_set. repeat split; try assumption; try lia.
    apply buf_get_set_eq. lia. }
  destruct (c =? CTRL_K).
  { cbn [snd]. apply ok_refreshLine. ok_start. unfold edit_ok. psimpl.
    rewrite length_buf_set. repeat split; try assumption; try lia.
    apply buf_get_set_eq. lia. }
  destruct (c =? CTRL_A); [now apply ok_MoveHome|].
  destruct (c =? CTRL_E); [now apply ok_MoveEnd|].
  destruct (c =? CTRL_L).
  { cbn [snd]. apply ok_refreshLine. unfold linenoiseClearScreen.
    apply ok_set_mode; [|discriminate]. revert H. apply edit_ok_ext; reflexivity. }
  destruct (c =? CTRL_W); [now apply ok_DeletePrevWord|].
  pose proof (ok_Insert c w H) as I.
  destruct (linenoiseEditInsert linenoise_hints c w) as [r w1].
  destruct (negb (r =? 0)); exact I.
Qed.

Lemma ok_ReadEscSequence c w :
  edit_ok N w ->
  mode w = ln_read_esc ->
  edit_ok N (snd (lnReadEscSequence linenoise_hints c w)).
Proof.
  intros H M. unfold lnReadEscSequence. cbv zeta.
  destruct (c <? 0); [exact H|]. destruct (seq_idx w >=? 3); [exact H|].
  match goal with
  | |- context [set_seq_idx ?i (set_seq ?q w)] =>
      set (w1 := set_seq_idx i (set_seq q w))
  end.
  assert (H1 : edit_ok N w1) by (revert H; apply edit_ok_ext; reflexivity).
  clearbody w1.
  assert (R : forall x, edit_ok N x -> edit_ok N (set_mode ln_read_regular x))
    by (intros x Hx; apply ok_set_mode; [assumption|discriminate]).
  split_ifs; cbn [snd]; try exact H1; apply R;
    first [ exact H1 | now apply ok_Delete | now apply ok_HistoryNext
          | now apply ok_MoveRight | now apply ok_MoveLeft
          | now apply ok_MoveHome | now apply ok_MoveEnd ].
Qed.

Lemma nth_app_terminator (s : list Z) :
  nth (length s) (s ++ [0]) 0 = 0.
Proof. rewrite app_nth2 by lia. now rewrite Nat.sub_diag. Qed.

Lemma ok_Completion c w :
  edit_ok N w -> mode w = ln_completion ->
  edit_ok N (snd (lnCompletion linenoise_completion linenoise_hints c w)).
Proof.
  intros H M. unfold lnCompletion. cbv zeta.
  destruct (c <? 0); [exact H|].
  destruct (c =? 9).
  { cbn [snd]. apply ok_ShowCompletion.
    match goal with |- edit_ok N (if ?b then _ else _) => destruct b end;
      revert H; apply edit_ok_ext; reflexivity. }
  apply ok_HandleCharacter. unfold freeCompletions.
  match goal with
  | |- edit_ok N (set_lc [] (set_mode ln_read_regular ?x)) =>
      assert (X : edit_ok N x); [|generalize X; generalize x]
  end.
  - destruct (c =? 27).
    + destruct (completion_idx w <? Z.of_nat (length (lc w))); [now apply ok_refreshLine|exact H].
    + destruct (Z.ltb_spec (completion_idx w) (Z.of_nat (length (lc w)))); [|exact H].
      unfold snprintf_s. ok_start. specialize (Hc M).
      set (cand := str_at (lc w) (completion_idx w)).
      assert (F : strlen cand < N - 1).
      { subst cand. apply (str_at_Forall (fun s => strlen s < N - 1)); [assumption|].
        unfold strlen. simpl. lia. }
      pose proof (strlen_nonneg cand) as P.
      rewrite Hb. destruct (Z.eqb_spec (N - 1) 0); [lia|].
      unfold edit_ok. psimpl. sz_simpl. rewrite length_store_bytes.
      repeat split; try assumption; try lia; [|intros _; assumption].
      unfold buf_get, strlen in *. rewrite Nat2Z.id.
      rewrite firstn_all2 by lia.
      rewrite nth_store_bytes_in by (rewrite length_app; simpl; lia).
      rewrite Nat.sub_0_r. apply nth_app_terminator.
  - intros x Hx. destruct Hx as (Hb & Hl & Hp & Hn & Hz & Hc).
    unfold edit_ok. psimpl. repeat split; try assumption; try lia. discriminate.
Qed.

(** a key of the completion mode other than Tab goes to [lnHandleCharacter]
    in a state of the regular reading mode *)
Lemma Completion_hands_over c w :
  edit_ok N w -> mode w = ln_completion -> 0 <= c -> c <> 9 ->
  exists w1,
    lnCompletion linenoise_completion linenoise_hints c w
    = lnHandleCharacter linenoise_completion linenoise_hints (to_char c) w1 /\
    edit_ok N w1 /\ smart_term_connected w1 = smart_term_connected w /\
    history w1 = history w.
Proof.
  intros H M Hc0 H9. unfold lnCompletion. cbv zeta.
  destruct (Z.ltb_spec c 0); [lia|].
  destruct (Z.eqb_spec c 9); [contradiction|].
  eexists. split; [reflexivity|]. unfold freeCompletions.
  match goal with
  | |- edit_ok N (set_lc [] (set_mode ln_read_regular ?x)) /\ _ =>
      assert (X : edit_ok N x /\ smart_term_connected x = smart_term_connected w
                  /\ history x = history w);
        [|generalize X; generalize x]
  end.
  - destruct (c =? 27).
    + destruct (completion_idx w <? Z.of_nat (length (lc w)));
        [split; [now apply ok_refreshLine|now autorewrite with frame]|now split].
    + destruct (Z.ltb_spec (completion_idx w) (Z.of_nat (length (lc w)))); [|now split].
      split; [|unfold snprintf_s; split; reflexivity].
      unfold snprintf_s. ok_start. specialize (Hc M).
      set (cand := str_at (lc w) (completion_idx w)).
      assert (F : strlen cand < N - 1).
      { subst cand. apply (str_at_Forall (fun s => strlen s < N - 1)); [assumption|].
        unfold strlen. simpl. lia. }
      pose proof (strlen_nonneg cand) as P.
      rewrite Hb. destruct (Z.eqb_spec (N - 1) 0); [lia|].
      unfold edit_ok. psimpl. sz_simpl. rewrite length_store_bytes.
      repeat split; try assumption; try lia; [|intros _; assumption].
      unfold buf_get, strlen in *. rewrite Nat2Z.id.
      rewrite firstn_all2 by lia.
      rewrite nth_store_bytes_in by (rewrite length_app; simpl; lia).
      rewrite Nat.sub_0_r. apply nth_app_terminator.
  - intros x (Hx & Sx & Tx). destruct Hx as (Hb & Hl & Hp & Hn & Hz & Hc).
    split; [|split; [exact Sx | exact Tx]].
    unfold edit_ok. psimpl. repeat split; try assumption; try lia. discriminate.
Qed.

Lemma ok_HandleCharacterDumb c w :
  dumb_ok N w -> mode w = ln_read_regular -> smart_term_connected w = false ->
  dumb_ok N (snd (lnHandleCharacterDumb c w)).
Proof.
  intros (Hb & Hl & Hn & Hp & Hm) M S. rewrite M in Hm.
  unfold lnHandleCharacterDumb. cbv zeta. unfold lnRestartState.
  destruct ((c =? CR) || (c =? LF)).
  - unfold dumb_ok. psimpl. rewrite S, length_buf_set. repeat split; try assumption; lia.
  - psimpl. rewrite Hb. sz_simpl.
    destruct (Z.geb_spec (pos w + 1) (N - 1 - 1)).
    + unfold dumb_ok. psimpl. rewrite S, !length_buf_set.
      repeat split; try assumption; lia.
    + unfold dumb_ok. psimpl. rewrite M, length_buf_set.
      repeat split; try assumption; lia.
Qed.

(** the fields of the state that [lnInitState] leaves *)
Lemma lnInitState_state_ok hbuf n p w :
  Z.of_nat (length hbuf) = N -> n = N -> state_ok N (lnInitState hbuf n p w).
Proof.
  intros Hl Hn.
  destruct (lnInitState_fields hbuf n p w) as (B & L & P & Z0 & M & S).
  unfold state_ok, edit_ok, dumb_ok. rewrite S, B, L, P, Z0, M, Hn, length_buf_set, Hl.
  sz_simpl.
  destruct (smart_term_connected w); repeat split; try lia; try discriminate;
    try (apply buf_get_set_eq; lia).
Qed.

Lemma ReadUserInput_state_ok c s :
  state_ok N s -> mode s = ln_read_regular ->
  state_ok N (snd (lnReadUserInput linenoise_completion linenoise_hints c s)).
Proof.
  intros H M. unfold lnReadUserInput. destruct (c <? 0); [exact H|].
  unfold state_ok in *. destruct (smart_term_connected s) eqn:S.
  - pose proof (statics_HandleCharacter linenoise_completion linenoise_hints (to_char c) s) as T.
    apply statics_inv in T. destruct T as (T & _). rewrite T, S.
    now apply ok_HandleCharacter.
  - pose proof (statics_HandleCharacterDumb (to_char c) s) as T.
    apply statics_inv in T. destruct T as (T & _). rewrite T, S.
    now apply ok_HandleCharacterDumb.
Qed.

(** one call keeps the invariant, and sets it up at the start of a session *)
Lemma Edit_state_ok call w :
  wf_call N call ->
  between_sessions (mode w) = true \/ state_ok N w ->
  state_ok N (snd (edit_step linenoise_completion linenoise_hints call w)).
Proof.
  destruct call as [[[hbuf n] p] c]. intros [Hl Hn] H.
  unfold edit_step. rewrite Edit_session_state. cbv zeta.
  assert (Hs : state_ok N (session_state hbuf n p w)).
  { unfold session_state. destruct (mode w) eqn:M;
      try (now apply lnInitState_state_ok);
      destruct H as [H|H]; try discriminate; exact H. }
  destruct (session_state_mode hbuf n p w) as [M|[M|M]]; rewrite M.
  - now apply ReadUserInput_state_ok.
  - unfold state_ok in *.
    pose proof (statics_ReadEscSequence linenoise_hints c (session_state hbuf n p w)) as T.
    apply statics_inv in T. destruct T as (T & _). rewrite T.
    destruct (smart_term_connected (session_state hbuf n p w)).
    + now apply ok_ReadEscSequence.
    + destruct Hs as (_ & _ & _ & _ & F). rewrite M in F. contradiction.
  - unfold state_ok in *.
    pose proof (statics_Completion linenoise_completion linenoise_hints c
                  (session_state hbuf n p w)) as T.
    apply statics_inv in T. destruct T as (T & _). rewrite T.
    destruct (smart_term_connected (session_state hbuf n p w)).
    + now apply ok_Completion.
    + destruct Hs as (_ & _ & _ & _ & F). rewrite M in F. contradiction.
Qed.

Lemma state_ok_cursor_inv w : state_ok N w -> cursor_inv N w.
Proof.
  unfold state_ok, cursor_inv, edit_ok, dumb_ok.
  destruct (smart_term_connected w).
  - intros (_ & _ & Hp & Hn & Hz & _). repeat split; try lia; try assumption; discriminate.
  - intros (_ & _ & Hl & Hp & _). repeat split; try lia; try discriminate.
Qed.

Lemma edit_trace_state_ok calls : forall w,
  Forall (wf_call N) calls ->
  between_sessions (mode w) = true \/ state_ok N w ->
  Forall (state_ok N) (edit_trace linenoise_completion linenoise_hints calls w).
Proof.
  induction calls as [|call calls IH]; intros w Hc H; cbn [edit_trace]; [constructor|].
  inversion Hc as [|? ? C1 C2]; subst.
  pose proof (Edit_state_ok call w C1 H) as O.
  constructor; [exact O|]. apply IH; [assumption|now right].
Qed.

End Invariant.




(** ** The value that a call returns, for each handler *)

Section CallResult.

Variable N : Z.
Hypothesis N_range : 3 <= N <= INT_MAX.
Variable linenoise_completion : list Z -> list (list Z).
Variable linenoise_hints : list Z -> option (list Z * list Z).

(** the smart handler in the regular reading mode *)
Lemma HandleCharacter_value c s :
  edit_ok N s ->
  let r := lnHandleCharacter linenoise_completion linenoise_hints c s in
  fst r = (if c =? ENTER then len s
           else if (c =? CTRL_D) && (len s =? 0) then -2 else -1) /\
  (0 <= fst r -> len (snd r) = len s /\ mode (snd r) = (if smart_term_connected s then ln_getColumns else ln_init)) /\
  (fst r = -2 -> c = CTRL_D /\ len (snd r) = 0 /\ snd r = history_pop s).
Proof.
  intros (Hb & Hl & Hp & Hn & Hz & Hc) r.
  pose proof (HandleCharacter_result linenoise_completion linenoise_hints c s) as R.
  cbv zeta in R. fold r in R.
  destruct R as [(R1 & R2)|[(R1 & R2 & R3 & R4)|(R1 & R2 & R3 & R4 & R5)]].
  - rewrite R1. destruct (Z.eqb_spec c ENTER); [contradiction|].
    split; [|split; intros; lia].
    destruct (Z.eqb_spec c CTRL_D) as [E|E]; [|reflexivity].
    destruct (Z.eqb_spec (len s) 0) as [L|L]; [|reflexivity].
    exfalso. subst r c. revert R1. unfold lnHandleCharacter.
    cbn [Z.eqb CTRL_D TAB ENTER CTRL_C BACKSPACE Pos.eqb orb]. rewrite L. discriminate.
  - rewrite R1, R2. cbn [Z.eqb CTRL_D ENTER Pos.eqb].
    assert (L : len s = 0) by lia. rewrite L. cbn [Z.eqb andb].
    split; [reflexivity|]. split; [intros; lia|]. intros _. split; [reflexivity|].
    split; [|exact R4]. rewrite R4. rewrite history_pop_len. exact L.
  - rewrite R1, R2. cbn [Z.eqb ENTER Pos.eqb]. rewrite to_int_small by lia.
    split; [reflexivity|]. split; [intros _; split; assumption|]. intros; lia.
Qed.

(** the dumb handler *)
Lemma HandleCharacterDumb_value c s :
  dumb_ok N s -> mode s = ln_read_regular -> smart_term_connected s = false ->
  let r := lnHandleCharacterDumb c s in
  fst r = (if (c =? CR) || (c =? LF) then pos s
           else if N - 2 <=? pos s + 1 then pos s + 1 else -1) /\
  (0 <= fst r ->
   fst r = pos (snd r) /\ buf_get (buf (snd r)) (pos (snd r)) = 0 /\ mode (snd r) = ln_init) /\
  (fst r = -1 \/ 0 <= fst r).
Proof.
  intros (Hb & Hl & Hn & Hp & Hm) M S r. rewrite M in Hm. subst r.
  unfold lnHandleCharacterDumb. cbv zeta. unfold lnRestartState.
  destruct ((c =? CR) || (c =? LF)).
  - psimpl. rewrite S, to_int_small by (unfold INT_MAX in *; lia).
    split; [reflexivity|]. split; [|right; lia]. intros _.
    split; [reflexivity|]. split; [|reflexivity]. apply buf_get_set_eq. lia.
  - psimpl. rewrite Hb.
    rewrite (sz_small (pos s + 1)) by (unfold SIZE_MOD, INT_MAX in *; lia).
    rewrite (sz_small (N - 1 - 1)) by (unfold SIZE_MOD, INT_MAX in *; lia).
    destruct (Z.geb_spec (pos s + 1) (N - 1 - 1)) as [G|G];
      destruct (Z.leb_spec (N - 2) (pos s + 1)) as [G'|G']; try lia.
    + psimpl. rewrite S, to_int_small by (unfold INT_MAX in *; lia).
      split; [reflexivity|]. split; [|right; lia]. intros _.
      split; [reflexivity|]. split; [|reflexivity].
      replace (pos s + 1) with (N - 1 - 1) by lia.
      apply buf_get_set_eq. rewrite length_buf_set. lia.
    + psimpl. split; [reflexivity|]. split; [intros; lia|left; reflexivity].
Qed.


Hypothesis candidates_fit :
  forall b s : list Z, In s (linenoise_completion b) -> strlen s < N - 1.

Lemma N_range2 : 2 <= N <= INT_MAX.
Proof. lia. Qed.

Lemma smart_value_facts c s :
  edit_ok N s -> smart_term_connected s = true ->
  let r := fst (lnHandleCharacter linenoise_completion linenoise_hints c s) in
  let w' := snd (lnHandleCharacter linenoise_completion linenoise_hints c s) in
  (r = -1 \/ r = -2 \/ 0 <= r) /\
  (0 <= r -> handed_over r w') /\
  (r = -2 -> c = CTRL_D /\ len w' = 0 /\ w' = history_pop s).
Proof.
  intros O S r w'.
  destruct (HandleCharacter_value c s O) as (V1 & V2 & V3).
  fold r w' in V1, V2, V3.
  pose proof (ok_HandleCharacter N N_range2 linenoise_completion linenoise_hints
                candidates_fit c s O) as O'.
  fold w' in O'.
  pose proof (statics_HandleCharacter linenoise_completion linenoise_hints c s) as T.
  apply statics_inv in T. destruct T as (T & _). fold w' in T. rewrite S in T.
  destruct O as (Hb & Hl & Hp & Hn & Hz & Hc).
  destruct O' as (Hb' & Hl' & Hp' & Hn' & Hz' & Hc').
  split; [|split].
  - rewrite V1. destruct (c =? ENTER); [right; right; lia|].
    destruct ((c =? CTRL_D) && (len s =? 0)); auto.
  - intros Hr. destruct (V2 Hr) as [L M]. rewrite S in M.
    assert (E : r = len w').
    { revert V1 Hr. destruct (c =? ENTER); [lia|].
      destruct ((c =? CTRL_D) && (len s =? 0)); lia. }
    unfold handed_over. rewrite T, E.
    split; [reflexivity|]. split; [exact Hz'|]. split; [|exact M].
    intros Hnul. apply (strlen_counter (buf w') (len w')); [lia | exact Hz' | exact Hnul].
  - exact V3.
Qed.

Lemma dumb_value_facts c s :
  dumb_ok N s -> mode s = ln_read_regular -> smart_term_connected s = false ->
  let r := fst (lnHandleCharacterDumb c s) in
  let w' := snd (lnHandleCharacterDumb c s) in
  (r = -1 \/ r = -2 \/ 0 <= r) /\
  (0 <= r -> handed_over r w') /\
  r <> -2.
Proof.
  intros O M S r w'.
  destruct (HandleCharacterDumb_value c s O M S) as (V1 & V2 & V3).
  fold r w' in V1, V2, V3.
  pose proof (ok_HandleCharacterDumb N N_range2 c s O M S) as O'. fold w' in O'.
  pose proof (statics_HandleCharacterDumb c s) as T.
  apply statics_inv in T. destruct T as (T & _). fold w' in T. rewrite S in T.
  destruct O' as (Hb' & Hl' & Hn' & Hp' & Hm').
  split; [|split].
  - destruct V3; auto.
  - intros Hr. destruct (V2 Hr) as (E & Z0 & M').
    unfold handed_over. rewrite T, E.
    split; [reflexivity|]. split; [exact Z0|]. split; [|exact M'].
    intros Hnul. apply (strlen_counter (buf w') (pos w')); [lia | exact Z0 | exact Hnul].
  - destruct V3; lia.
Qed.

End CallResult.

(** Enter, and no other key, makes the smart handler hand the line over *)
Lemma Enter_commits (c r l : Z) :
  0 <= l ->
  r = (if c =? ENTER then l else if (c =? CTRL_D) && (l =? 0) then -2 else -1) ->
  (0 <= r -> c = ENTER) /\ (c = ENTER -> 0 <= r).
Proof.
  intros Hl ->. destruct (Z.eqb_spec c ENTER) as [E|E].
  - split; intros; [exact E | exact Hl].
  - split; [|intros; contradiction].
    destruct ((c =? CTRL_D) && (l =? 0)); lia.
Qed.

Ltac sweep :=
  try (intros; first [ lia | congruence | contradiction
                           | match goal with
                             | Y : ?c = 9, X : to_char ?c = ENTER |- _ =>
                                 rewrite Y in X; vm_compute in X; discriminate X
                             end ]).




(** * Further properties *)

Lemma lastn_all {A : Type} (n : nat) (l : list A) : (length l <= n)%nat -> lastn n l = l.
Proof. intros H. unfold lastn. replace (length l - n)%nat with O by lia. reflexivity. Qed.

Lemma length_lastn {A : Type} (n : nat) (l : list A) :
  length (lastn n l) = Nat.min n (length l).
Proof. unfold lastn. rewrite length_skipn. lia. Qed.

Lemma lastn_app_one {A : Type} (n : nat) (l : list A) (x : A) :
  (1 <= n)%nat ->
  lastn n (l ++ [x]) =
  (if (length (lastn n l) =? n)%nat then skipn 1 (lastn n l) else lastn n l) ++ [x].
Proof.
  intros Hn. rewrite length_lastn. unfold lastn. rewrite length_app. cbn [length].
  destruct (Nat.eqb_spec (Nat.min n (length l)) n) as [E|E].
  - rewrite skipn_skipn.
    replace (length l + 1 - n)%nat with (1 + (length l - n))%nat by lia.
    rewrite skipn_app.
    replace (1 + (length l - n) - length l)%nat with O by lia. reflexivity.
  - replace (length l + 1 - n)%nat with O by lia.
    replace (length l - n)%nat with O by lia. reflexivity.
Qed.

Lemma last_lastn (n : nat) (l : list (list Z)) :
  (1 <= n)%nat -> last (lastn n l) [] = last l [].
Proof.
  intros Hn. destruct l as [|a r] using rev_ind; [reflexivity|].
  rewrite lastn_app_one by assumption. now rewrite !last_last.
Qed.

Lemma squeeze_app_one (l : list (list Z)) (x : list Z) :
  squeeze (l ++ [x]) =
  match l with
  | [] => [x]
  | _ => if bytes_eqb (last l []) x then squeeze l else squeeze l ++ [x]
  end.
Proof.
  induction l as [|a r IH]; [reflexivity|].
  destruct r as [|b r'].
  - cbn. destruct (bytes_eqb a x) eqn:E; [|reflexivity].
    apply bytes_eqb_eq in E. now subst.
  - change ((a :: b :: r') ++ [x]) with (a :: (b :: r') ++ [x]).
    change (squeeze (a :: (b :: r') ++ [x]))
      with (if bytes_eqb a b then squeeze ((b :: r') ++ [x])
            else a :: squeeze ((b :: r') ++ [x])).
    change (squeeze (a :: b :: r'))
      with (if bytes_eqb a b then squeeze (b :: r') else a :: squeeze (b :: r')).
    rewrite IH. change (last (a :: b :: r') []) with (last (b :: r') []).
    destruct (bytes_eqb a b); destruct (bytes_eqb (last (b :: r') []) x); reflexivity.
Qed.

Lemma squeeze_nil (l : list (list Z)) : squeeze l = [] -> l = [].
Proof.
  induction l as [|a r IH]; [reflexivity|].
  destruct r as [|b r']; [discriminate|].
  change (squeeze (a :: b :: r'))
    with (if bytes_eqb a b then squeeze (b :: r') else a :: squeeze (b :: r')).
  destruct (bytes_eqb a b); [|discriminate]. intros H. apply IH in H. discriminate.
Qed.

Lemma last_squeeze (l : list (list Z)) : last (squeeze l) [] = last l [].
Proof.
  induction l as [|x r IH] using rev_ind; [reflexivity|].
  rewrite squeeze_app_one, last_last. destruct r as [|a r']; [reflexivity|].
  destruct (bytes_eqb (last (a :: r') []) x) eqn:E.
  - apply bytes_eqb_eq in E. now rewrite IH.
  - now rewrite last_last.
Qed.

Lemma squeeze_id (l : list (list Z)) : no_adjacent_equal l = true -> squeeze l = l.
Proof.
  induction l as [|a r IH]; [reflexivity|].
  destruct r as [|b r']; [reflexivity|].
  change (no_adjacent_equal (a :: b :: r'))
    with (negb (bytes_eqb a b) && no_adjacent_equal (b :: r')).
  change (squeeze (a :: b :: r'))
    with (if bytes_eqb a b then squeeze (b :: r') else a :: squeeze (b :: r')).
  intros H. apply andb_true_iff in H as [H1 H2]. apply negb_true_iff in H1.
  rewrite H1, IH by assumption. reflexivity.
Qed.

Lemma forallb_lastn {A : Type} (f : A -> bool) n (l : list A) :
  forallb f l = true -> forallb f (lastn n l) = true.
Proof. apply forallb_skipn. Qed.

(** one call of [linenoiseHistoryAdd] on a store that holds the newest
    [m] lines of a list *)
Lemma linenoiseHistoryAdd_lastn (m : nat) (Q : list (list Z)) (x : list Z) (w : linenoiseState) :
  (1 <= m)%nat -> history_max_len w = Z.of_nat m ->
  history w = lastn m Q -> forallb nul_free Q = true ->
  history (snd (linenoiseHistoryAdd x w)) =
    lastn m (match Q with
             | [] => [cstr x]
             | _ => if bytes_eqb (last Q []) (cstr x) then Q else Q ++ [cstr x]
             end) /\
  history_max_len (snd (linenoiseHistoryAdd x w)) = Z.of_nat m.
Proof.
  intros Hm Hmax Hh Hn. unfold linenoiseHistoryAdd, history_len.
  destruct (Z.eqb_spec (history_max_len w) 0) as [E|_]; [lia|].
  rewrite Hh.
  destruct Q as [|q Q'].
  - rewrite (lastn_all m [cstr x]) by (cbn; lia).
    cbn [lastn length Nat.sub skipn negb Z.of_nat Z.eqb andb snd].
    psimpl. split; [|assumption]. clear. destruct (history_max_len w); reflexivity.
  - set (Q := q :: Q') in *.
    assert (Hlen : length (lastn m Q) <> O).
    { rewrite length_lastn. subst Q. cbn [length]. lia. }
    destruct (Z.eqb_spec (Z.of_nat (length (lastn m Q))) 0) as [E|_]; [lia|].
    cbn [negb andb].
    assert (Hlast : str_at (lastn m Q) (Z.of_nat (length (lastn m Q)) - 1) = last Q []).
    { rewrite str_at_last by (intros E; rewrite E in Hlen; now apply Hlen).
      now apply last_lastn. }
    rewrite Hlast. unfold strcmp0.
    assert (Hc : cstr (last Q []) = last Q []).
    { apply cstr_id. apply last_nul_free. exact Hn. }
    rewrite Hc.
    destruct (bytes_eqb (last Q []) (cstr x)) eqn:D.
    + cbn [snd]. split; assumption.
    + cbn [snd]. psimpl. split; [|assumption].
      rewrite lastn_app_one by assumption. rewrite Hmax.
      destruct (Z.eqb_spec (Z.of_nat (length (lastn m Q))) (Z.of_nat m)) as [E|E];
        destruct (Nat.eqb_spec (length (lastn m Q)) m) as [E'|E']; try lia; reflexivity.
Qed.

Lemma forallb_squeeze (f : list Z -> bool) (l : list (list Z)) :
  forallb f l = true -> forallb f (squeeze l) = true.
Proof.
  induction l as [|a r IH]; [reflexivity|].
  destruct r as [|b r']; [trivial|].
  change (squeeze (a :: b :: r'))
    with (if bytes_eqb a b then squeeze (b :: r') else a :: squeeze (b :: r')).
  intros H. cbn [forallb] in H. apply andb_true_iff in H as [H1 H2].
  destruct (bytes_eqb a b).
  - apply IH. exact H2.
  - cbn [forallb]. rewrite H1. apply IH. exact H2.
Qed.

Lemma forallb_map_cstr (lines : list (list Z)) : forallb nul_free (map cstr lines) = true.
Proof.
  induction lines as [|a r IH]; [reflexivity|].
  cbn [map forallb]. now rewrite cstr_nul_free, IH.
Qed.

Lemma history_add_all_lastn (lines : list (list Z)) (w : linenoiseState) :
  1 <= history_max_len w -> history_len w <= history_max_len w ->
  forallb nul_free (history w) = true ->
  no_adjacent_equal (history w) = true ->
  history (history_add_all lines w) =
    lastn (Z.to_nat (history_max_len w)) (squeeze (history w ++ map cstr lines)) /\
  history_max_len (history_add_all lines w) = history_max_len w.
Proof.
  intros Hm Hl Hn Ha. set (m := Z.to_nat (history_max_len w)).
  induction lines as [|x ls IH] using rev_ind.
  - cbn [history_add_all fold_left map]. rewrite app_nil_r, squeeze_id by assumption.
    split; [|reflexivity]. symmetry. apply lastn_all. unfold history_len in Hl. lia.
  - destruct IH as [IH1 IH2]. unfold history_add_all in *. rewrite fold_left_app.
    cbn [fold_left].
    set (s := fold_left (fun s l => snd (linenoiseHistoryAdd l s)) ls w) in *.
    assert (Hq : forallb nul_free (squeeze (history w ++ map cstr ls)) = true).
    { apply forallb_squeeze. rewrite forallb_app, Hn. apply forallb_map_cstr. }
    destruct (linenoiseHistoryAdd_lastn m (squeeze (history w ++ map cstr ls)) x s)
      as [A1 A2]; try assumption; [lia | lia |].
    split; [|lia]. rewrite A1. f_equal.
    rewrite map_app. cbn [map]. rewrite app_assoc, squeeze_app_one.
    destruct (history w ++ map cstr ls) as [|a r] eqn:E; [reflexivity|].
    rewrite last_squeeze.
    destruct (squeeze (a :: r)) eqn:F; [apply squeeze_nil in F; discriminate|].
    reflexivity.
Qed.

(** ** More on the history store *)

(** X1.  Lines added one after the other with [linenoiseHistoryAdd], to a
    store with a cap of at least 1 that holds no more strings than its cap,
    none with a terminator inside and no two neighbours equal.  The store
    then holds the old entries followed by the new lines (each cut at its
    terminator), without the lines that repeat the one before them, and of
    these the newest [history_max_len].  The cap stays as it was. *)
Theorem history_add_keeps_the_newest_lines :
  forall (lines : list (list Z)) (w : linenoiseState),
    1 <= history_max_len w -> history_len w <= history_max_len w ->
    forallb nul_free (history w) = true ->
    no_adjacent_equal (history w) = true ->
    history (history_add_all lines w) =
      lastn (Z.to_nat (history_max_len w)) (squeeze (history w ++ map cstr lines)) /\
    history_max_len (history_add_all lines w) = history_max_len w.
Proof. intros lines w. apply history_add_all_lastn. Qed.

Lemma history_add_keeps_the_newest_lines_witness :
  history (history_add_all [bytes_of "a"; bytes_of "b"; bytes_of "b"; bytes_of "c"]
             (set_history_max_len 2 l_state0))
  = [bytes_of "b"; bytes_of "c"].
Proof.
  destruct (history_add_keeps_the_newest_lines
              [bytes_of "a"; bytes_of "b"; bytes_of "b"; bytes_of "c"]
              (set_history_max_len 2 l_state0)) as [H _];
    [vm_compute; congruence | vm_compute; congruence | reflexivity | reflexivity |].
  rewrite H. vm_compute. reflexivity.
Defined.

Lemma linenoiseHistorySetMaxLen_lastn (n : Z) (w : linenoiseState) :
  1 <= n ->
  linenoiseHistorySetMaxLen n w
  = (1, set_history_max_len n (set_history (lastn (Z.to_nat n) (history w)) w)).
Proof.
  intros Hn. unfold linenoiseHistorySetMaxLen, history_len, drop, lastn.
  destruct (Z.ltb_spec n 1); [lia|]. do 3 f_equal.
  destruct (Z.ltb_spec n (Z.of_nat (length (history w)))); f_equal; lia.
Qed.

Lemma lastn_lastn {A : Type} (n m : nat) (l : list A) :
  lastn m (lastn n l) = lastn (Nat.min n m) l.
Proof.
  unfold lastn. rewrite skipn_skipn, length_skipn. f_equal. lia.
Qed.

(** X2.  [linenoiseHistorySetMaxLen(n)] with [n >= 1] returns 1, keeps the
    newest [n] entries and sets the cap to [n].  A second call with
    [m >= 1] leaves the newest [min n m] of the first entries: a larger cap
    does not bring back what the smaller one dropped.  With 0 the call
    returns 0 and changes nothing. *)
Theorem history_set_max_len_keeps_the_newest :
  forall (n m : Z) (w : linenoiseState),
    1 <= n -> 1 <= m ->
    let r1 := linenoiseHistorySetMaxLen n w in
    let r2 := linenoiseHistorySetMaxLen m (snd r1) in
    fst r1 = 1 /\ history (snd r1) = lastn (Z.to_nat n) (history w) /\
    history_max_len (snd r1) = n /\
    fst r2 = 1 /\ history (snd r2) = lastn (Z.to_nat (Z.min n m)) (history w) /\
    history_max_len (snd r2) = m /\
    linenoiseHistorySetMaxLen 0 w = (0, w).
Proof.
  intros n m w Hn Hm r1 r2. subst r1 r2.
  rewrite (linenoiseHistorySetMaxLen_lastn n w Hn). cbn [fst snd].
  rewrite linenoiseHistorySetMaxLen_lastn by assumption. cbn [fst snd]. psimpl.
  rewrite lastn_lastn. repeat split. f_equal. lia.
Qed.

Lemma history_set_max_len_keeps_the_newest_witness :
  history (snd (linenoiseHistorySetMaxLen 5
                  (snd (linenoiseHistorySetMaxLen 1
                          (set_history [bytes_of "a"; bytes_of "b"; bytes_of "c"] l_state0)))))
  = [bytes_of "c"].
Proof.
  destruct (history_set_max_len_keeps_the_newest 1 5
              (set_history [bytes_of "a"; bytes_of "b"; bytes_of "c"] l_state0))
    as (_ & _ & _ & _ & H & _); [lia | lia |].
  rewrite H. reflexivity.
Defined.

(** *** What a load can add *)

Lemma fgets_shape (n : nat) : forall file l r,
  fgets n file = (l, r) ->
  (length l <= n)%nat /\
  (existsb (fun x => x =? LF) l = false \/
   exists l0, l = l0 ++ [LF] /\ existsb (fun x => x =? LF) l0 = false).
Proof.
  induction n as [|n IH]; intros file l r H.
  - destruct file; cbn in H; injection H as <- <-; cbn; split; auto.
  - destruct file as [|c f]; cbn [fgets] in H.
    + injection H as <- <-. cbn. split; [lia|auto].
    + destruct (Z.eqb_spec c LF) as [->|Hc].
      * injection H as <- <-. cbn [length]. split; [lia|].
        right. exists []. split; reflexivity.
      * destruct (fgets n f) as [l1 r1] eqn:F. injection H as <- <-.
        destruct (IH f l1 r1 F) as [L [N|(l0 & -> & N)]].
        -- split; [cbn [length]; lia|]. left. cbn [existsb].
           destruct (Z.eqb_spec c LF); [contradiction|]. exact N.
        -- split; [cbn [length]; lia|]. right. exists (c :: l0). split; [reflexivity|].
           cbn [existsb]. destruct (Z.eqb_spec c LF); [contradiction|]. exact N.
Qed.

Lemma cut_at_clean c s : existsb (fun x => x =? c) (cut_at c s) = false.
Proof.
  induction s as [|x r IH]; [reflexivity|].
  cbn [cut_at]. destruct (x =? c) eqn:E; [reflexivity|]. cbn [existsb]. now rewrite E.
Qed.

Lemma cut_at_keeps (P : Z -> bool) c s :
  existsb P s = false -> existsb P (cut_at c s) = false.
Proof.
  induction s as [|x r IH]; [reflexivity|].
  cbn [cut_at existsb]. intros H. apply orb_false_iff in H as [H1 H2].
  destruct (x =? c); [reflexivity|]. cbn [existsb]. now rewrite H1, IH.
Qed.

Lemma cut_at_length c s : (length (cut_at c s) <= length s)%nat.
Proof.
  induction s as [|x r IH]; [cbn; lia|].
  cbn [cut_at]. destruct (x =? c); cbn [length]; lia.
Qed.

Lemma cstr_cut_at s : cstr s = cut_at 0 s.
Proof. induction s as [|x r IH]; [reflexivity|]. cbn. now rewrite IH. Qed.

Lemma cut_at_first_stop c d l0 :
  existsb (fun x => x =? d) l0 = false ->
  existsb (fun x => x =? c) (cut_at 0 (l0 ++ [d])) = true ->
  existsb (fun x => x =? d) (cut_at c (cut_at 0 (l0 ++ [d]))) = false.
Proof.
  induction l0 as [|x r IH]; intros Hd Hc.
  - cbn [app cut_at] in *. destruct (d =? 0); [discriminate|].
    cbn [existsb cut_at] in *. rewrite orb_false_r in Hc.
    rewrite Z.eqb_sym in Hc. now rewrite Z.eqb_sym, Hc.
  - cbn [app cut_at existsb] in *. apply orb_false_iff in Hd as [Hd1 Hd2].
    destruct (x =? 0); [discriminate|]. cbn [existsb cut_at] in *.
    destruct (x =? c) eqn:E; [reflexivity|]. cbn [existsb orb] in *.
    rewrite Hd1. cbn [orb]. now apply IH.
Qed.

(** the line that the loop of [linenoiseHistoryLoad] hands to the store *)
Lemma strip_eol_clean (n : nat) file l r :
  fgets n file = (l, r) -> Z.of_nat n <= LINENOISE_MAX_LINE - 1 ->
  clean_entry (cstr (strip_eol l)) = true.
Proof.
  intros F Hn. destruct (fgets_shape n file l r F) as [L S].
  unfold clean_entry. rewrite cstr_nul_free. cbn [andb].
  assert (Hlen : (length (cstr (strip_eol l)) <= length l)%nat).
  { unfold strip_eol. rewrite !cstr_cut_at.
    destruct (strchr_found l CR);
      repeat (etransitivity; [apply cut_at_length|]); lia. }
  assert (Hlf : existsb (fun x => x =? LF) (cstr (strip_eol l)) = false
                /\ existsb (fun x => x =? CR) (cstr (strip_eol l)) = false).
  { unfold strip_eol, strchr_found. rewrite !cstr_cut_at.
    destruct (existsb (fun x => x =? CR) (cut_at 0 l)) eqn:E.
    - split; [|apply cut_at_keeps, cut_at_clean].
      apply cut_at_keeps.
      destruct S as [N|(l0 & -> & N)].
      + now apply cut_at_keeps, cut_at_keeps.
      + now apply cut_at_first_stop.
    - split; [apply cut_at_keeps, cut_at_clean|].
      now apply cut_at_keeps, cut_at_keeps. }
  destruct Hlf as [-> ->]. cbn [negb andb].
  apply Z.leb_le. lia.
Qed.

Lemma linenoiseHistoryAdd_forallb (P : list Z -> bool) line w :
  forallb P (history w) = true -> P (cstr line) = true ->
  forallb P (history (snd (linenoiseHistoryAdd line w))) = true.
Proof.
  intros H Hl. unfold linenoiseHistoryAdd. split_ifs; cbn [snd]; psimpl; try assumption.
  - rewrite forallb_app. unfold drop. rewrite forallb_skipn by assumption.
    cbn. now rewrite Hl.
  - rewrite forallb_app, H. cbn. now rewrite Hl.
Qed.

Lemma load_loop_clean fuel : forall file w,
  forallb clean_entry (history w) = true ->
  forallb clean_entry (history (load_loop fuel file w)) = true.
Proof.
  induction fuel as [|f IH]; intros file w H; [exact H|].
  cbn [load_loop]. destruct file as [|c r]; [exact H|].
  destruct (fgets (Z.to_nat (LINENOISE_MAX_LINE - 1)) (c :: r)) as [l rest] eqn:F.
  apply IH. apply linenoiseHistoryAdd_forallb; [exact H|].
  apply (strip_eol_clean _ _ _ _ F). unfold LINENOISE_MAX_LINE. lia.
Qed.

(** X3.  [linenoiseHistoryLoad] returns 0 for every file that opens,
    whatever its bytes are.  If every entry of the store was free of
    terminator, newline and carriage return and at most
    [LINENOISE_MAX_LINE - 1] bytes long, every entry is so afterwards.  For a
    file that does not open the call returns -1 and leaves the store as it
    is. *)
Theorem history_load_adds_clean_entries :
  forall (file : list Z) (w : linenoiseState),
    forallb clean_entry (history w) = true ->
    fst (linenoiseHistoryLoad (Some file) w) = 0 /\
    forallb clean_entry (history (snd (linenoiseHistoryLoad (Some file) w))) = true /\
    linenoiseHistoryLoad None w = (-1, w).
Proof.
  intros file w H. cbn [linenoiseHistoryLoad fst snd]. repeat split.
  now apply load_loop_clean.
Qed.

Lemma history_load_adds_clean_entries_witness :
  history (snd (linenoiseHistoryLoad (Some (bytes_of "ls" ++ [CR; LF] ++ bytes_of "cd" ++ [LF] ++ bytes_of "pwd"))
                  l_state0))
  = [bytes_of "ls"; bytes_of "cd"; bytes_of "pwd"] /\
  forallb clean_entry
    (history (snd (linenoiseHistoryLoad (Some (bytes_of "ls" ++ [CR; LF] ++ bytes_of "cd" ++ [LF] ++ bytes_of "pwd"))
                     l_state0))) = true.
Proof.
  split; [vm_compute; reflexivity|].
  apply (history_load_adds_clean_entries
           (bytes_of "ls" ++ [CR; LF] ++ bytes_of "cd" ++ [LF] ++ bytes_of "pwd") l_state0).
  reflexivity.
Defined.

Lemma firstn_upd_snoc {A : Type} (v : A) : forall (b t : list A),
  firstn (length t) b = t -> (length t < length b)%nat ->
  firstn (S (length t)) (upd (length t) v b) = t ++ [v].
Proof.
  intros b t. revert b. induction t as [|x t IH]; intros b H L.
  - destruct b; [cbn in L; lia|]. reflexivity.
  - destruct b as [|y b]; [discriminate|]. cbn [length firstn upd app] in *.
    injection H as -> H. f_equal. apply IH; [exact H|lia].
Qed.

Lemma firstn_upd_keep {A : Type} (v : A) : forall (b : list A) (k : nat),
  firstn k (upd k v b) = firstn k b.
Proof.
  induction b as [|y b IH]; intros k; [destruct k; reflexivity|].
  destruct k; [reflexivity|]. cbn [upd firstn]. now rewrite IH.
Qed.

Lemma edit_results_app comp hints (a b : list edit_call) (w : linenoiseState) :
  edit_results comp hints (a ++ b) w
  = edit_results comp hints a w ++ edit_results comp hints b (edit_run comp hints a w).
Proof.
  revert w. induction a as [|x a IH]; intros w; [reflexivity|].
  cbn [app edit_results edit_run fold_left].
  destruct (edit_step comp hints x w) as [r w1] eqn:E. cbn [snd].
  cbn [app]. f_equal. apply IH.
Qed.

Lemma edit_run_app comp hints (a b : list edit_call) (w : linenoiseState) :
  edit_run comp hints (a ++ b) w = edit_run comp hints b (edit_run comp hints a w).
Proof. unfold edit_run. apply fold_left_app. Qed.

Section Dumb.

Variable linenoise_completion : list Z -> list (list Z).
Variable linenoise_hints : list Z -> option (list Z * list Z).
Variable N : Z.
Hypothesis N_range : 3 <= N <= INT_MAX.
Variables (hbuf hprompt : list Z).

Local Abbreviation Edit := (linenoiseEdit linenoise_completion linenoise_hints hbuf N hprompt).
Local Abbreviation calls := (calls_with hbuf N hprompt).
Local Abbreviation dumb_session := (dumb_session N).

Lemma dumb_idle c s :
  mode s = ln_read_regular -> c < 0 -> Edit c s = (-1, s).
Proof.
  intros M Hc. unfold linenoiseEdit, lnReadUserInput. rewrite M.
  destruct (Z.ltb_spec c 0); [reflexivity|lia].
Qed.

Lemma dumb_store c t s :
  dumb_session t s -> 0 < c < 256 -> c <> CR -> c <> LF ->
  Z.of_nat (length t) + 1 < N - 2 ->
  fst (Edit c s) = -1 /\ dumb_session (t ++ [c]) (snd (Edit c s)) /\
  history (snd (Edit c s)) = history s /\ out (snd (Edit c s)) = out s.
Proof.
  intros (Hs & Hm & Hb & Hl & Hp & Ht & Hn) Hc Hcr Hlf Hfit.
  unfold linenoiseEdit, lnReadUserInput. rewrite Hm.
  destruct (Z.ltb_spec c 0); [lia|]. rewrite Hs.
  rewrite to_char_small by lia. unfold lnHandleCharacterDumb.
  destruct (Z.eqb_spec c CR); [contradiction|].
  destruct (Z.eqb_spec c LF); [contradiction|]. cbn [orb]. psimpl.
  rewrite Hb, Hp.
  rewrite !sz_small by (unfold SIZE_MOD, INT_MAX in *; lia).
  destruct (Z.geb_spec (Z.of_nat (length t) + 1) (N - 1 - 1)); [lia|].
  cbn [fst snd]. psimpl. unfold dumb_session. psimpl.
  unfold buf_set. rewrite Nat2Z.id, length_upd, length_app. cbn [length].
  repeat split; try assumption; try lia.
  - replace (length t + 1)%nat with (S (length t)) by lia.
    apply firstn_upd_snoc; [assumption|lia].
  - unfold nul_free in *. rewrite forallb_app, Hn. cbn.
    destruct (Z.eqb_spec c 0); [lia|reflexivity].
Qed.

Lemma dumb_commit c t s :
  dumb_session t s -> c = CR \/ c = LF -> Z.of_nat (length t) < N - 1 ->
  fst (Edit c s) = Z.of_nat (length t) /\
  cstr (buf (snd (Edit c s))) = t /\ mode (snd (Edit c s)) = ln_init /\
  history (snd (Edit c s)) = history s /\ out (snd (Edit c s)) = out s.
Proof.
  intros (Hs & Hm & Hb & Hl & Hp & Ht & Hn) Hc Hfit.
  unfold linenoiseEdit, lnReadUserInput. rewrite Hm.
  assert (C0 : 0 <= c) by (unfold CR, LF in Hc; lia).
  destruct (Z.ltb_spec c 0); [lia|]. rewrite Hs.
  rewrite to_char_small by (unfold CR, LF in Hc; lia). unfold lnHandleCharacterDumb.
  assert (E : (c =? CR) || (c =? LF) = true).
  { destruct Hc as [-> | ->]; reflexivity. }
  rewrite E. cbn [fst snd]. unfold lnRestartState. psimpl. rewrite Hs, Hp.
  rewrite to_int_small by lia. repeat split.
  unfold buf_set. rewrite Nat2Z.id. apply cstr_prefix.
  - now rewrite firstn_upd_keep.
  - assumption.
  - apply nth_upd_eq. lia.
Qed.

Lemma dumb_typing (keys : list Z) : forall (t : list Z) (s : linenoiseState),
  dumb_session t s -> forallb dumb_key keys = true ->
  Z.of_nat (length t) + Z.of_nat (length (typed_bytes keys)) < N - 2 ->
  edit_results linenoise_completion linenoise_hints (calls keys) s
    = repeat (-1) (length keys) /\
  dumb_session (t ++ typed_bytes keys) (edit_run linenoise_completion linenoise_hints (calls keys) s) /\
  history (edit_run linenoise_completion linenoise_hints (calls keys) s) = history s /\
  out (edit_run linenoise_completion linenoise_hints (calls keys) s) = out s.
Proof.
  induction keys as [|c keys IH]; intros t s D K Hfit.
  - cbn. rewrite app_nil_r. auto.
  - cbn [forallb] in K. apply andb_true_iff in K as [Kc K].
    cbn [calls_with map edit_results edit_run fold_left edit_step typed_bytes filter].
    fold (typed_bytes keys). fold (calls keys).
    change (fold_left (fun s0 call => snd (edit_step linenoise_completion linenoise_hints call s0))
              (calls keys))
      with (edit_run linenoise_completion linenoise_hints (calls keys)).
    unfold dumb_key in Kc. cbn [typed_bytes filter] in Hfit. fold (typed_bytes keys) in Hfit.
    destruct (Z.ltb_spec c 0) as [Cn|Cp].
    + assert (F : (0 <=? c) = false) by (apply Z.leb_gt; lia).
      rewrite F in *.
      rewrite dumb_idle by (assumption || apply D). cbn [snd length repeat].
      destruct (IH t s D K Hfit) as (I1 & I2 & I3 & I4).
      rewrite I1. auto.
    + cbn [orb] in Kc.
      assert (F : (0 <=? c) = true) by (apply Z.leb_le; lia).
      rewrite F in *. cbn [length] in Hfit.
      apply andb_true_iff in Kc as [Kc K4]. apply andb_true_iff in Kc as [Kc K3].
      apply andb_true_iff in Kc as [K1 K2].
      apply Z.ltb_lt in K1, K2. apply negb_true_iff in K3, K4.
      apply Z.eqb_neq in K3, K4.
      destruct (dumb_store c t s D) as (S1 & S2 & S3 & S4); try assumption; try lia.
      destruct (Edit c s) as [r s1] eqn:E. cbn [fst snd] in *.
      destruct (IH (t ++ [c]) s1 S2 K) as (I1 & I2 & I3 & I4).
      { rewrite length_app. cbn [length]. lia. }
      rewrite I1, I3, I4, S1. rewrite <- app_assoc in I2. cbn [length repeat].
      split; [reflexivity|]. split; [exact I2|]. split; congruence.
Qed.

End Dumb.

Section DumbSession.

Variable linenoise_completion : list Z -> list (list Z).
Variable linenoise_hints : list Z -> option (list Z * list Z).

Lemma session_state_idem hbuf n p w :
  session_state hbuf n p (session_state hbuf n p w) = session_state hbuf n p w.
Proof.
  destruct (session_state_mode hbuf n p w) as [M|[M|M]];
    unfold session_state at 1; rewrite M; reflexivity.
Qed.

Lemma Edit_from_session hbuf n p c w :
  linenoiseEdit linenoise_completion linenoise_hints hbuf n p c w
  = linenoiseEdit linenoise_completion linenoise_hints hbuf n p c (session_state hbuf n p w).
Proof.
  rewrite (Edit_session_state _ _ hbuf n p c w).
  rewrite (Edit_session_state _ _ hbuf n p c (session_state hbuf n p w)).
  now rewrite session_state_idem.
Qed.

Lemma edit_run_from_session hbuf n p keys w :
  keys <> [] ->
  edit_run linenoise_completion linenoise_hints (calls_with hbuf n p keys) w
  = edit_run linenoise_completion linenoise_hints (calls_with hbuf n p keys)
      (session_state hbuf n p w) /\
  edit_results linenoise_completion linenoise_hints (calls_with hbuf n p keys) w
  = edit_results linenoise_completion linenoise_hints (calls_with hbuf n p keys)
      (session_state hbuf n p w).
Proof.
  destruct keys as [|c keys]; [congruence|]. intros _.
  cbn [calls_with map edit_run fold_left edit_results edit_step].
  rewrite <- Edit_from_session. split; reflexivity.
Qed.

(** the session that a call opens on a terminal that is not smart *)
Lemma dumb_session_start N hbuf p w :
  3 <= N <= INT_MAX -> Z.of_nat (length hbuf) = N ->
  between_sessions (mode w) = true ->
  smart_term_connected w = false \/ is_getColumns (mode w) = true ->
  let s := session_state hbuf N p w in
  dumb_session N [] s /\ out s = out w ++ cstr p /\
  history s = history (snd (linenoiseHistoryAdd [] w)).
Proof.
  intros HN Hl Hb Hs s.
  assert (E : exists w0, s = lnInitState hbuf N p w0 /\ smart_term_connected w0 = false /\
                         out w0 = out w /\ history w0 = history w /\
                         history_max_len w0 = history_max_len w).
  { subst s. unfold session_state. destruct (mode w) eqn:M; try discriminate.
    - exists w. destruct Hs as [Hs|Hs]; [auto|discriminate].
    - eexists. split; [reflexivity|]. cbn. auto.
    - eexists. split; [reflexivity|]. cbn. auto.
    - eexists. split; [reflexivity|]. cbn. auto. }
  destruct E as (w0 & -> & S0 & O0 & H0 & M0).
  pose proof (lnInitState_fields hbuf N p w0) as F. cbv zeta in F.
  destruct F as (F1 & F2 & F3 & F4 & F5 & F6).
  split; [|split].
  - unfold dumb_session. rewrite F1, F2, F3, F5, F6, S0, length_buf_set.
    rewrite sz_small by (unfold SIZE_MOD, INT_MAX in *; lia). repeat split; auto.
  - rewrite lnInitState_out, S0. now rewrite O0.
  - rewrite lnInitState_history. unfold linenoiseHistoryAdd, history_len.
    rewrite H0, M0. split_ifs; psimpl; congruence.
Qed.

End DumbSession.

(** ** The terminal that is not smart *)

(** X4.  A line typed on the dumb terminal.  The engine is between two
    sessions and the terminal is dumb (or the engine is about to ask for the
    columns, which makes it dumb); the host calls [linenoiseEdit] with an
    array of [N >= 3] bytes.  [linenoise_getch()] gives values that are
    negative (no key) or a byte other than the terminator, carriage return
    and newline, fewer than [N - 2] bytes in all, and then carriage return.
    Every call but the last returns -1; the last returns the number of bytes
    typed; the array holds these bytes as a C string; the engine is back in
    [ln_init]; and all that the session wrote is the prompt. *)
Theorem dumb_terminal_returns_the_typed_line :
  forall (linenoise_completion : list Z -> list (list Z))
         (linenoise_hints : list Z -> option (list Z * list Z))
         (N : Z) (hbuf hprompt keys : list Z) (w : linenoiseState),
    3 <= N <= INT_MAX -> Z.of_nat (length hbuf) = N ->
    between_sessions (mode w) = true ->
    smart_term_connected w = false \/ is_getColumns (mode w) = true ->
    forallb dumb_key keys = true ->
    Z.of_nat (length (typed_bytes keys)) < N - 2 ->
    let calls := calls_with hbuf N hprompt (keys ++ [CR]) in
    let w' := edit_run linenoise_completion linenoise_hints calls w in
    edit_results linenoise_completion linenoise_hints calls w
      = repeat (-1) (length keys) ++ [Z.of_nat (length (typed_bytes keys))] /\
    cstr (buf w') = typed_bytes keys /\
    mode w' = ln_init /\
    out w' = out w ++ cstr hprompt.
Proof.
  intros comp hints N hbuf p keys w HN Hl Hb Hs K Hfit calls w'.
  destruct (edit_run_from_session comp hints hbuf N p (keys ++ [CR]) w) as [R1 R2].
  { destruct keys; discriminate. }
  subst calls w'. rewrite R1, R2. clear R1 R2.
  destruct (dumb_session_start N hbuf p w HN Hl Hb Hs) as (D & O & _).
  set (s := session_state hbuf N p w) in *.
  unfold calls_with. rewrite map_app. fold (calls_with hbuf N p keys).
  rewrite edit_results_app, edit_run_app.
  destruct (dumb_typing comp hints N HN hbuf p keys [] s D K) as (T1 & T2 & T3 & T4).
  { cbn [length]. lia. }
  cbn [app] in T2.
  destruct (dumb_commit comp hints N HN hbuf p CR (typed_bytes keys) _ T2)
    as (C1 & C2 & C3 & C4 & C5); [now left | lia |].
  cbn [map edit_results edit_run fold_left edit_step].
  destruct (linenoiseEdit comp hints hbuf N p CR
              (edit_run comp hints (calls_with hbuf N p keys) s)) as [r s1] eqn:E.
  cbn [fst snd] in *. rewrite T1, C1, C2, C3, C5, T4, O. auto.
Qed.

Lemma dumb_terminal_returns_the_typed_line_witness :
  edit_results default_completion default_hints
    (calls_with ex_buf 16 ex_prompt ([-1; 108; -1; -1; 115] ++ [CR])) l_state0
  = [-1; -1; -1; -1; -1; 2] /\
  cstr (buf (edit_run default_completion default_hints
               (calls_with ex_buf 16 ex_prompt ([-1; 108; -1; -1; 115] ++ [CR])) l_state0))
  = bytes_of "ls".
Proof.
  destruct (dumb_terminal_returns_the_typed_line default_completion default_hints
              16 ex_buf ex_prompt [-1; 108; -1; -1; 115] l_state0)
    as (H1 & H2 & _); try reflexivity; [vm_compute; split; congruence | now right |].
  split; [exact H1 | exact H2].
Defined.

Section DumbCalls.

Variable linenoise_completion : list Z -> list (list Z).
Variable linenoise_hints : list Z -> option (list Z * list Z).

(** what one call does to the streams and to the history when the terminal
    is not smart *)
Lemma Edit_dumb_effects hbuf n p c w :
  smart_term_connected w = false ->
  mode w <> ln_read_esc -> mode w <> ln_completion ->
  let w' := snd (linenoiseEdit linenoise_completion linenoise_hints hbuf n p c w) in
  out w' = out w ++ (if between_sessions (mode w) then cstr p else []) /\
  err w' = err w /\
  history w' = (if between_sessions (mode w) then history (snd (linenoiseHistoryAdd [] w))
                else history w) /\
  history_max_len w' = history_max_len w.
Proof.
  intros Hs He Hc w'. subst w'. rewrite Edit_session_state. cbv zeta.
  set (s := session_state hbuf n p w).
  assert (S : smart_term_connected s = false /\ mode s = ln_read_regular /\
              out s = out w ++ (if between_sessions (mode w) then cstr p else []) /\
              err s = err w /\
              history s = (if between_sessions (mode w)
                           then history (snd (linenoiseHistoryAdd [] w)) else history w) /\
              history_max_len s = history_max_len w).
  { subst s. unfold session_state.
    destruct (mode w) eqn:M; try congruence; cbn [between_sessions];
      rewrite ?lnInitState_smart, ?lnInitState_mode, ?lnInitState_out, ?lnInitState_history;
      cbn [getColumns snd]; psimpl; rewrite ?Hs, ?app_nil_r;
      repeat split; try reflexivity; try assumption;
      try (unfold lnInitState; cbv zeta;
           match goal with |- context [linenoiseHistoryAdd [] ?x] => set (y := x) end;
           assert (A : err (snd (linenoiseHistoryAdd [] y)) = err w /\
                       history_max_len (snd (linenoiseHistoryAdd [] y)) = history_max_len w)
             by (unfold linenoiseHistoryAdd; subst y; split_ifs; psimpl; auto);
           destruct A as [A1 A2];
           destruct (smart_term_connected (snd (linenoiseHistoryAdd [] y))); psimpl;
           assumption);
      try (unfold linenoiseHistoryAdd, history_len; psimpl; split_ifs; reflexivity). }
  destruct S as (S1 & S2 & S3 & S4 & S5 & S6). rewrite S2.
  unfold lnReadUserInput. destruct (c <? 0); cbn [snd]; [auto|].
  rewrite S1. unfold lnHandleCharacterDumb, lnRestartState.
  split_ifs; cbn [snd]; psimpl; auto.
Qed.

End DumbCalls.

(** X5.  In every state that the calls of the API reach from the static
    initializer, a call of [linenoiseEdit] writes the prompt if it starts a
    session and nothing otherwise, and never beeps: the dumb handler does
    not echo.  [linenoiseRefreshEditor] and [linenoiseUpdatePrompt] write
    nothing there. *)
Theorem dumb_terminal_gets_only_the_prompt :
  forall (linenoise_completion : list Z -> list (list Z))
         (linenoise_hints : list Z -> option (list Z * list Z)) (w : linenoiseState),
    reachable linenoise_completion linenoise_hints w ->
    forall (hbuf : list Z) (n : Z) (p : list Z) (c : Z),
      let w' := snd (linenoiseEdit linenoise_completion linenoise_hints hbuf n p c w) in
      out w' = out w ++ (if between_sessions (mode w) then cstr p else []) /\
      err w' = err w /\
      out (linenoiseRefreshEditor linenoise_hints w) = out w /\
      out (linenoiseUpdatePrompt linenoise_hints p w) = out w.
Proof.
  intros comp hints w R hbuf n p c w'.
  destruct (reachable_dumb comp hints w R) as (Hs & He & Hc).
  destruct (Edit_dumb_effects comp hints hbuf n p c w Hs He Hc) as (E1 & E2 & _).
  split; [exact E1|]. split; [exact E2|].
  unfold linenoiseUpdatePrompt, linenoiseRefreshEditor, smartTerminalConnected.
  psimpl. rewrite Hs. cbn [negb]. split; reflexivity.
Qed.

Lemma dumb_terminal_gets_only_the_prompt_witness :
  out (snd (linenoiseEdit default_completion default_hints ex_buf 16 ex_prompt 120 l_state0))
  = bytes_of "> " /\
  out (snd (linenoiseEdit default_completion default_hints ex_buf 16 ex_prompt 120
              dumb_empty_line))
  = bytes_of "> ".
Proof.
  split.
  - destruct (dumb_terminal_gets_only_the_prompt default_completion default_hints l_state0
                (reachable_start _ _) ex_buf 16 ex_prompt 120) as [H _].
    rewrite H. reflexivity.
  - destruct (dumb_terminal_gets_only_the_prompt default_completion default_hints
                dumb_empty_line
                (reachable_call _ _ (CallEdit ex_buf 16 ex_prompt (-1)) _ (reachable_start _ _))
                ex_buf 16 ex_prompt 120) as [H _].
    rewrite H. vm_compute. reflexivity.
Defined.

Lemma linenoiseHistoryAdd_scratch_again h w :
  history w = h ++ [[]] -> 1 <= history_max_len w ->
  history (snd (linenoiseHistoryAdd [] w)) = h ++ [[]].
Proof.
  intros H Hm. unfold linenoiseHistoryAdd, history_len.
  destruct (Z.eqb_spec (history_max_len w) 0); [lia|].
  rewrite H, length_app. cbn [length].
  destruct (Z.eqb_spec (Z.of_nat (length h + 1)) 0); [lia|]. cbn [negb andb].
  assert (L : str_at (h ++ [[]]) (Z.of_nat (length h + 1) - 1) = []).
  { unfold str_at. replace (Z.to_nat (Z.of_nat (length h + 1) - 1)) with (length h) by lia.
    rewrite app_nth2 by lia. now rewrite Nat.sub_diag. }
  rewrite L. cbn. exact H.
Qed.

Lemma linenoiseHistoryAdd_scratch w :
  history_ok w -> history_len w < history_max_len w ->
  history w = [] \/ last (history w) [] <> [] ->
  history (snd (linenoiseHistoryAdd [] w)) = history w ++ [[]].
Proof.
  intros (Hm & Hl & Hf & Ha) Hlt Hn.
  rewrite linenoiseHistoryAdd_appends; try assumption; [reflexivity | reflexivity |].
  rewrite no_adjacent_equal_app, Ha. cbn [andb].
  destruct Hn as [-> | Hn]; [reflexivity|].
  destruct (history w) as [|a r] eqn:E; [reflexivity|].
  destruct (bytes_eqb (last (a :: r) []) []) eqn:D; [|reflexivity].
  apply bytes_eqb_eq in D. contradiction.
Qed.

Lemma linenoiseHistoryAdd_scratch_last w :
  history_ok w -> exists q, history (snd (linenoiseHistoryAdd [] w)) = q ++ [[]].
Proof.
  intros (Hm & Hl & Hf & Ha). unfold linenoiseHistoryAdd.
  destruct (Z.eqb_spec (history_max_len w) 0); [lia|].
  destruct (negb (history_len w =? 0) && strcmp0 _ []) eqn:D.
  - cbn [snd]. apply andb_true_iff in D as [D1 D2].
    apply negb_true_iff, Z.eqb_neq in D1. unfold history_len in D1.
    assert (Hne : history w <> []) by (intros E; rewrite E in D1; now apply D1).
    rewrite str_at_last in D2 by assumption.
    unfold strcmp0 in D2. apply bytes_eqb_eq in D2.
    rewrite cstr_id in D2 by (now apply last_nul_free). cbn in D2.
    exists (removelast (history w)). rewrite <- D2. now apply app_removelast_last.
  - cbn [snd]. psimpl. eexists. reflexivity.
Qed.

Section DumbHistory.

Variable linenoise_completion : list Z -> list (list Z).
Variable linenoise_hints : list Z -> option (list Z * list Z).

Lemma edit_run_keeps_scratch q (calls : list edit_call) : forall w,
  smart_term_connected w = false -> mode w <> ln_read_esc -> mode w <> ln_completion ->
  1 <= history_max_len w -> history w = q ++ [[]] ->
  history (edit_run linenoise_completion linenoise_hints calls w) = q ++ [[]].
Proof.
  induction calls as [|[[[hbuf n] p] c] calls IH]; intros w Hs He Hc Hm Hh; [exact Hh|].
  cbn [edit_run fold_left edit_step].
  change (fold_left (fun s call => snd (edit_step linenoise_completion linenoise_hints call s))
            calls)
    with (edit_run linenoise_completion linenoise_hints calls).
  destruct (Edit_dumb_effects linenoise_completion linenoise_hints hbuf n p c w Hs He Hc)
    as (_ & _ & E3 & E4).
  destruct (Edit_dumb linenoise_completion linenoise_hints hbuf n p c w Hs He Hc) as [D1 D2].
  apply IH; try assumption.
  - destruct D2 as [D2|D2]; rewrite D2; discriminate.
  - destruct D2 as [D2|D2]; rewrite D2; discriminate.
  - lia.
  - rewrite E3. destruct (between_sessions (mode w)); [|exact Hh].
    now apply linenoiseHistoryAdd_scratch_again.
Qed.

End DumbHistory.

(** X6.  In a state that the calls of the API reach from the static
    initializer, between two sessions: after one or more calls of
    [linenoiseEdit] the history store is what [linenoiseHistoryAdd] with
    the empty string made of it at the start of the session, whatever the
    keys were and also when a line was returned.  The store ends with the
    empty string; if it was not full and did not end with an empty string
    before, it is the old store with the empty string appended. *)
Theorem dumb_session_leaves_the_scratch_entry :
  forall (linenoise_completion : list Z -> list (list Z))
         (linenoise_hints : list Z -> option (list Z * list Z))
         (w : linenoiseState) (call : edit_call) (calls : list edit_call),
    reachable linenoise_completion linenoise_hints w ->
    between_sessions (mode w) = true ->
    let w' := edit_run linenoise_completion linenoise_hints (call :: calls) w in
    history w' = history (snd (linenoiseHistoryAdd [] w)) /\
    (exists q, history w' = q ++ [[]]) /\
    (history_len w < history_max_len w ->
     history w = [] \/ last (history w) [] <> [] ->
     history w' = history w ++ [[]]).
Proof.
  intros comp hints w [[[hbuf n] p] c] calls R Hb w'.
  destruct (reachable_dumb comp hints w R) as (Hs & He & Hc).
  pose proof (reachable_history_ok comp hints w R) as Hok.
  destruct (linenoiseHistoryAdd_scratch_last w Hok) as [q Hq].
  assert (H : history w' = q ++ [[]]).
  { subst w'. cbn [edit_run fold_left edit_step].
    change (fold_left (fun s call => snd (edit_step comp hints call s)) calls)
      with (edit_run comp hints calls).
    destruct (Edit_dumb_effects comp hints hbuf n p c w Hs He Hc) as (_ & _ & E3 & E4).
    destruct (Edit_dumb comp hints hbuf n p c w Hs He Hc) as [D1 D2].
    rewrite Hb in E3. destruct Hok as (Hm & _).
    apply edit_run_keeps_scratch; try assumption.
    - destruct D2 as [D2|D2]; rewrite D2; discriminate.
    - destruct D2 as [D2|D2]; rewrite D2; discriminate.
    - lia.
    - congruence. }
  split; [congruence|]. split; [now exists q|].
  intros Hl Hn. rewrite H, <- Hq. now apply linenoiseHistoryAdd_scratch.
Qed.

Lemma dumb_session_leaves_the_scratch_entry_witness :
  history (edit_run default_completion default_hints
             (calls_with ex_buf 16 ex_prompt [108; 115; CR])
             (snd (linenoiseHistoryAdd (bytes_of "pwd") l_state0)))
  = [bytes_of "pwd"; []].
Proof.
  destruct (dumb_session_leaves_the_scratch_entry default_completion default_hints
              (snd (linenoiseHistoryAdd (bytes_of "pwd") l_state0))
              (ex_buf, 16, ex_prompt, 108) (calls_with ex_buf 16 ex_prompt [115; CR])
              (reachable_call _ _ (CallHistoryAdd (bytes_of "pwd")) _ (reachable_start _ _))
              eq_refl) as (_ & _ & H).
  apply H; [reflexivity | right; discriminate].
Defined.



(** ** Lists by their elements *)

Ltac zarith := unfold SIZE_MOD, INT_MAX in *; lia.

Ltac sz_norm :=
  repeat match goal with
         | |- context [sz ?x] => rewrite (sz_small x) by zarith
         end.

Lemma list_eq_by_get (a b : list Z) :
  length a = length b ->
  (forall i : Z, 0 <= i < Z.of_nat (length a) -> buf_get a i = buf_get b i) ->
  a = b.
Proof.
  intros L H. apply (nth_ext a b 0 0 L). intros n Hn.
  specialize (H (Z.of_nat n)). unfold buf_get in H. rewrite Nat2Z.id in H.
  apply H. lia.
Qed.

Lemma length_take (n : Z) (b : list Z) :
  0 <= n <= Z.of_nat (length b) -> Z.of_nat (length (take n b)) = n.
Proof. intros H. unfold take. rewrite length_firstn. lia. Qed.

Lemma length_drop (n : Z) (b : list Z) :
  0 <= n <= Z.of_nat (length b) -> Z.of_nat (length (drop n b)) = Z.of_nat (length b) - n.
Proof. intros H. unfold drop. rewrite length_skipn. lia. Qed.

Lemma buf_get_take (n : Z) (b : list Z) (i : Z) :
  0 <= i < n -> buf_get (take n b) i = buf_get b i.
Proof.
  intros H. unfold buf_get, take. rewrite nth_firstn.
  destruct (Nat.ltb_spec (Z.to_nat i) (Z.to_nat n)); [reflexivity|lia].
Qed.

Lemma buf_get_drop (n : Z) (b : list Z) (i : Z) :
  0 <= n -> 0 <= i -> buf_get (drop n b) i = buf_get b (n + i).
Proof.
  intros Hn Hi. unfold buf_get, drop. rewrite nth_skipn. f_equal. lia.
Qed.

Lemma buf_get_app_l (a b : list Z) (i : Z) :
  0 <= i < Z.of_nat (length a) -> buf_get (a ++ b) i = buf_get a i.
Proof. intros H. unfold buf_get. apply app_nth1. lia. Qed.

Lemma buf_get_app_r (a b : list Z) (i : Z) :
  Z.of_nat (length a) <= i -> buf_get (a ++ b) i = buf_get b (i - Z.of_nat (length a)).
Proof.
  intros H. unfold buf_get. rewrite app_nth2 by lia. f_equal. lia.
Qed.

Lemma length_splice (p q : Z) (x l : list Z) :
  0 <= p <= Z.of_nat (length l) -> 0 <= q <= Z.of_nat (length l) ->
  Z.of_nat (length (splice p q x l))
  = p + Z.of_nat (length x) + (Z.of_nat (length l) - q).
Proof.
  intros Hp Hq. unfold splice. rewrite !length_app.
  rewrite !Nat2Z.inj_add, length_take, length_drop by assumption. lia.
Qed.

Lemma buf_get_splice (p q : Z) (x l : list Z) (i : Z) :
  0 <= p <= Z.of_nat (length l) -> 0 <= q -> 0 <= i ->
  buf_get (splice p q x l) i =
  if i <? p then buf_get l i
  else if i <? p + Z.of_nat (length x) then buf_get x (i - p)
       else buf_get l (q + (i - p - Z.of_nat (length x))).
Proof.
  intros Hp Hq Hi. unfold splice.
  pose proof (length_take p l Hp) as Lt.
  destruct (Z.ltb_spec i p).
  - rewrite buf_get_app_l by lia. apply buf_get_take. lia.
  - rewrite buf_get_app_r by lia. rewrite Lt.
    destruct (Z.ltb_spec i (p + Z.of_nat (length x))).
    + apply buf_get_app_l. lia.
    + rewrite buf_get_app_r by lia. rewrite buf_get_drop by lia. f_equal.
Qed.

(** the line of a state whose array is [b'], whose length is [n'] *)
Lemma line_eq_splice (b b' : list Z) (n n' p q : Z) (x : list Z) :
  0 <= n <= Z.of_nat (length b) -> 0 <= n' <= Z.of_nat (length b') ->
  0 <= p <= n -> 0 <= q <= n ->
  n' = p + Z.of_nat (length x) + (n - q) ->
  (forall i, 0 <= i < n' ->
     buf_get b' i = if i <? p then buf_get b i
                    else if i <? p + Z.of_nat (length x) then buf_get x (i - p)
                         else buf_get b (q + (i - p - Z.of_nat (length x)))) ->
  take n' b' = splice p q x (take n b).
Proof.
  intros Hn Hn' Hp Hq E H.
  pose proof (length_take n b Hn) as L.
  apply list_eq_by_get.
  - apply Nat2Z.inj. rewrite length_take, length_splice by lia. lia.
  - rewrite length_take by lia. intros i Hi.
    rewrite buf_get_take by lia. rewrite buf_get_splice by lia.
    rewrite (H i Hi).
    destruct (Z.ltb_spec i p); [now rewrite buf_get_take by lia|].
    destruct (Z.ltb_spec i (p + Z.of_nat (length x))); [reflexivity|].
    now rewrite buf_get_take by lia.
Qed.

(** ** The edit operations on the line *)

Section LineOps.

Variable linenoise_hints : list Z -> option (list Z * list Z).
Variable N : Z.
Hypothesis N_range : 2 <= N <= INT_MAX.

Lemma Insert_line c w :
  edit_ok N w -> len w < buflen w ->
  let w' := snd (linenoiseEditInsert linenoise_hints c w) in
  line w' = splice (pos w) (pos w) [c] (line w) /\
  pos w' = pos w + 1 /\ len w' = len w + 1.
Proof.
  intros (Hb & Hl & Hp & Hn & Hz & Hc) Hlt w'. subst w'.
  unfold linenoiseEditInsert, line.
  destruct (Z.ltb_spec (len w) (buflen w)); [|lia].
  destruct (Z.eqb_spec (len w) (pos w)) as [E|E]; cbn [snd]; fsimpl; sz_norm.
  - split; [|lia].
    apply line_eq_splice; rewrite ?length_buf_set; cbn [length Z.of_nat Pos.of_succ_nat]; try lia.
    intros i Hi. rewrite buf_get_set_ne by (rewrite ?length_buf_set; lia).
    destruct (Z.ltb_spec i (pos w)).
    + apply buf_get_set_ne; lia.
    + destruct (Z.ltb_spec i (pos w + 1)); [|lia].
      replace i with (pos w) by lia. rewrite Z.sub_diag.
      apply buf_get_set_eq. lia.
  - split; [|lia].
    apply line_eq_splice; rewrite ?length_buf_set, ?length_memmove; cbn [length Z.of_nat Pos.of_succ_nat]; try lia.
    intros i Hi.
    rewrite buf_get_set_ne by (rewrite ?length_buf_set, ?length_memmove; lia).
    destruct (Z.ltb_spec i (pos w)).
    + rewrite buf_get_set_ne by (rewrite ?length_memmove; lia).
      apply buf_get_memmove_out; lia.
    + destruct (Z.ltb_spec i (pos w + 1)).
      * replace i with (pos w) by lia. rewrite Z.sub_diag.
        apply buf_get_set_eq. rewrite length_memmove. lia.
      * rewrite buf_get_set_ne by (rewrite ?length_memmove; lia).
        rewrite buf_get_memmove_in by lia. f_equal. lia.
Qed.

Lemma Insert_full c w :
  buflen w <= len w -> linenoiseEditInsert linenoise_hints c w = (0, w).
Proof.
  intros H. unfold linenoiseEditInsert. destruct (Z.ltb_spec (len w) (buflen w)); [lia|reflexivity].
Qed.

Lemma Backspace_line w :
  edit_ok N w -> 0 < pos w ->
  let w' := linenoiseEditBackspace linenoise_hints w in
  line w' = splice (pos w - 1) (pos w) [] (line w) /\
  pos w' = pos w - 1 /\ len w' = len w - 1.
Proof.
  intros (Hb & Hl & Hp & Hn & Hz & Hc) Hlt w'. subst w'.
  unfold linenoiseEditBackspace, line.
  destruct (Z.gtb_spec (pos w) 0); [|lia].
  destruct (Z.gtb_spec (len w) 0); [|lia]. cbn [andb]. fsimpl. sz_norm.
  split; [|lia].
  apply line_eq_splice; rewrite ?length_buf_set, ?length_memmove; cbn [length Z.of_nat Pos.of_succ_nat]; try lia.
  intros i Hi.
  rewrite buf_get_set_ne by (rewrite ?length_buf_set, ?length_memmove; lia).
  destruct (Z.ltb_spec i (pos w - 1)).
  - apply buf_get_memmove_out; lia.
  - destruct (Z.ltb_spec i (pos w - 1 + 0)); [lia|].
    rewrite buf_get_memmove_in by lia. f_equal. lia.
Qed.

Lemma Delete_line w :
  edit_ok N w -> pos w < len w ->
  let w' := linenoiseEditDelete linenoise_hints w in
  line w' = splice (pos w) (pos w + 1) [] (line w) /\
  pos w' = pos w /\ len w' = len w - 1.
Proof.
  intros (Hb & Hl & Hp & Hn & Hz & Hc) Hlt w'. subst w'.
  unfold linenoiseEditDelete, line.
  destruct (Z.gtb_spec (len w) 0); [|lia].
  destruct (Z.ltb_spec (pos w) (len w)); [|lia]. cbn [andb]. fsimpl. sz_norm.
  split; [|lia].
  apply line_eq_splice; rewrite ?length_buf_set, ?length_memmove; cbn [length Z.of_nat Pos.of_succ_nat]; try lia.
  intros i Hi.
  rewrite buf_get_set_ne by (rewrite ?length_buf_set, ?length_memmove; lia).
  destruct (Z.ltb_spec i (pos w)).
  - apply buf_get_memmove_out; lia.
  - destruct (Z.ltb_spec i (pos w + 0)); [lia|].
    rewrite buf_get_memmove_in by lia. f_equal. lia.
Qed.

End LineOps.

(** ** Keys of the smart handler *)

Ltac plain_key_facts H :=
  unfold plain_key in H; cbn [existsb] in H; apply negb_true_iff in H;
  repeat (let K := fresh "K" in apply orb_false_iff in H as [K H]).

Section SmartKeys.

Variable linenoise_completion : list Z -> list (list Z).
Variable linenoise_hints : list Z -> option (list Z * list Z).

Lemma HandleCharacter_plain c w :
  plain_key c = true ->
  lnHandleCharacter linenoise_completion linenoise_hints c w
  = (-1, snd (linenoiseEditInsert linenoise_hints c w)).
Proof.
  intros H. plain_key_facts H. unfold lnHandleCharacter.
  change (c =? 8) with (c =? CTRL_H).
  rewrite K, K0, K1, K2, K3, K4, K5, K6, K7, K8, K9, K10, K11, K12, K13, K14, K15, K16.
  cbn [orb]. destruct (linenoiseEditInsert linenoise_hints c w) as [r w1].
  cbn [snd]. destruct (negb (r =? 0)); reflexivity.
Qed.

Lemma Edit_smart_key hbuf n p c s :
  smart_term_connected s = true -> mode s = ln_read_regular -> 0 <= c ->
  linenoiseEdit linenoise_completion linenoise_hints hbuf n p c s
  = lnHandleCharacter linenoise_completion linenoise_hints (to_char c) s.
Proof.
  intros Hs Hm Hc. unfold linenoiseEdit, lnReadUserInput. rewrite Hm, Hs.
  destruct (Z.ltb_spec c 0); [lia|reflexivity].
Qed.

End SmartKeys.


Ltac concrete_session :=
  unfold smart_session, edit_ok; repeat split;
  try (vm_compute; congruence);
  try (let M := fresh "M" in intros M; vm_compute in M; discriminate).

Lemma smart_one_byte_session : smart_session 16 smart_one_byte.
Proof. concrete_session. Qed.

Lemma smart_typed_ls_session : smart_session 16 smart_typed_ls.
Proof. concrete_session. Qed.


Section SmartDeletes.

Variable linenoise_completion : list Z -> list (list Z).
Variable linenoise_hints : list Z -> option (list Z * list Z).
Variable N : Z.
Hypothesis N_range : 2 <= N <= INT_MAX.

(** an operation that keeps the handler in its session *)
Lemma smart_session_step (f : linenoiseState -> linenoiseState) s :
  smart_session N s -> statics (f s) = statics s -> mode (f s) = mode s ->
  edit_ok N (f s) -> smart_session N (f s).
Proof.
  intros (Hs & Hm & _) T M O. apply statics_inv in T. destruct T as (T & _).
  split; [congruence|]. split; [congruence|exact O].
Qed.

Lemma Backspace_mode w : mode (linenoiseEditBackspace linenoise_hints w) = mode w.
Proof. unfold linenoiseEditBackspace. split_ifs; fsimpl; reflexivity. Qed.

Lemma Delete_mode w : mode (linenoiseEditDelete linenoise_hints w) = mode w.
Proof. unfold linenoiseEditDelete. split_ifs; fsimpl; reflexivity. Qed.

Lemma Backspace_at_start w :
  pos w <= 0 -> linenoiseEditBackspace linenoise_hints w = w.
Proof.
  intros H. unfold linenoiseEditBackspace. destruct (Z.gtb_spec (pos w) 0); [lia|reflexivity].
Qed.

Lemma Delete_at_end w :
  len w <= pos w -> linenoiseEditDelete linenoise_hints w = w.
Proof.
  intros H. unfold linenoiseEditDelete.
  destruct (Z.ltb_spec (pos w) (len w)); [lia|]. now rewrite andb_false_r.
Qed.

End SmartDeletes.




Lemma smart_ls_home_session : smart_session 16 smart_ls_home.
Proof. concrete_session. Qed.


Lemma splice_insert_delete (p : Z) (c : Z) (l : list Z) :
  0 <= p <= Z.of_nat (length l) ->
  splice p (p + 1) [] (splice p p [c] l) = l.
Proof.
  intros Hp.
  assert (L : Z.of_nat (length (splice p p [c] l)) = Z.of_nat (length l) + 1).
  { rewrite length_splice by lia. cbn [length Z.of_nat Pos.of_succ_nat]. lia. }
  apply list_eq_by_get.
  - apply Nat2Z.inj. rewrite length_splice by lia. cbn [length Z.of_nat]. lia.
  - rewrite length_splice by lia. cbn [length Z.of_nat]. intros i Hi.
    rewrite buf_get_splice by lia. cbn [length Z.of_nat].
    destruct (Z.ltb_spec i p).
    + rewrite buf_get_splice by lia. destruct (Z.ltb_spec i p); [reflexivity|lia].
    + destruct (Z.ltb_spec i (p + 0)); [lia|].
      rewrite buf_get_splice by lia. cbn [length Z.of_nat Pos.of_succ_nat].
      destruct (Z.ltb_spec (p + 1 + (i - p - 0)) p); [lia|].
      destruct (Z.ltb_spec (p + 1 + (i - p - 0)) (p + 1)); [lia|]. f_equal. lia.
Qed.



Lemma take_buf_set_out (n i v : Z) (b : list Z) :
  0 <= n <= i -> take n (buf_set b i v) = take n b.
Proof.
  intros H. unfold take, buf_set.
  apply (nth_ext _ _ 0 0).
  - now rewrite !length_firstn, length_upd.
  - intros k Hk. rewrite !nth_firstn. destruct (Nat.ltb_spec k (Z.to_nat n)); [|reflexivity].
    apply nth_upd_ne. lia.
Qed.

Lemma take_take (n m : Z) (b : list Z) : 0 <= n <= m -> take n (take m b) = take n b.
Proof.
  intros H. unfold take. rewrite firstn_firstn. f_equal. lia.
Qed.





Lemma back_while_spec (test : Z -> bool) (b : list Z) (fuel : nat) : forall p : Z,
  0 <= p < SIZE_MOD -> (Z.to_nat p <= fuel)%nat ->
  let r := back_while fuel test b p in
  0 <= r <= p /\
  (forall i, r <= i < p -> test (buf_get b i) = true) /\
  (r = 0 \/ test (buf_get b (r - 1)) = false).
Proof.
  induction fuel as [|f IH]; intros p Hp Hf r; subst r.
  - cbn [back_while]. assert (p = 0) by lia. subst p.
    split; [lia|]. split; [intros; lia | now left].
  - cbn [back_while]. destruct (Z.gtb_spec p 0); cbn [andb].
    + destruct (test (buf_get b (p - 1))) eqn:T.
      * rewrite sz_small by zarith.
        destruct (IH (p - 1)) as (I1 & I2 & I3); [zarith | lia |].
        split; [lia|]. split; [|exact I3].
        intros i Hi. destruct (Z.eq_dec i (p - 1)) as [->|Hne]; [exact T|].
        apply I2. lia.
      * split; [lia|]. split; [intros; lia | now right].
    + split; [lia|]. split; [intros; lia | left; lia].
Qed.





(** ** Escape sequences *)

Section Escapes.

Variable linenoise_completion : list Z -> list (list Z).
Variable linenoise_hints : list Z -> option (list Z * list Z).

Lemma refreshLine_with_esc m q i w :
  refreshLine linenoise_hints (with_esc m q i w)
  = with_esc m q i (refreshLine linenoise_hints w).
Proof.
  destruct w. unfold refreshLine, refreshSingleLine, refreshMultiLine, with_esc, copy_check.
  psimpl.
  match goal with |- (if ?b then _ else _) = _ => destruct b end.
  - destruct (_ <=? _); reflexivity.
  - destruct (scroll_left _ _ _ _ _ _) as [[off ln1] ps].
    destruct (_ <=? Z.of_nat _); reflexivity.
Qed.

Ltac esc_commute :=
  repeat match goal with
         | |- context [if ?b then _ else _] => destruct b
         end;
  rewrite ?refreshLine_with_esc; reflexivity.

Lemma MoveLeft_with_esc m q i w :
  linenoiseEditMoveLeft linenoise_hints (with_esc m q i w)
  = with_esc m q i (linenoiseEditMoveLeft linenoise_hints w).
Proof.
  unfold linenoiseEditMoveLeft.
  change (pos (with_esc m q i w)) with (pos w).
  change (set_pos (sz (pos w - 1)) (with_esc m q i w))
    with (with_esc m q i (set_pos (sz (pos w - 1)) w)).
  esc_commute.
Qed.

Lemma MoveRight_with_esc m q i w :
  linenoiseEditMoveRight linenoise_hints (with_esc m q i w)
  = with_esc m q i (linenoiseEditMoveRight linenoise_hints w).
Proof.
  unfold linenoiseEditMoveRight.
  change (pos (with_esc m q i w)) with (pos w).
  change (len (with_esc m q i w)) with (len w).
  change (set_pos (sz (pos w + 1)) (with_esc m q i w))
    with (with_esc m q i (set_pos (sz (pos w + 1)) w)).
  esc_commute.
Qed.

Lemma MoveHome_with_esc m q i w :
  linenoiseEditMoveHome linenoise_hints (with_esc m q i w)
  = with_esc m q i (linenoiseEditMoveHome linenoise_hints w).
Proof.
  unfold linenoiseEditMoveHome.
  change (pos (with_esc m q i w)) with (pos w).
  change (set_pos 0 (with_esc m q i w)) with (with_esc m q i (set_pos 0 w)).
  esc_commute.
Qed.

Lemma MoveEnd_with_esc m q i w :
  linenoiseEditMoveEnd linenoise_hints (with_esc m q i w)
  = with_esc m q i (linenoiseEditMoveEnd linenoise_hints w).
Proof.
  unfold linenoiseEditMoveEnd.
  change (pos (with_esc m q i w)) with (pos w).
  change (len (with_esc m q i w)) with (len w).
  change (set_pos (len w) (with_esc m q i w)) with (with_esc m q i (set_pos (len w) w)).
  esc_commute.
Qed.

Lemma Delete_with_esc m q i w :
  linenoiseEditDelete linenoise_hints (with_esc m q i w)
  = with_esc m q i (linenoiseEditDelete linenoise_hints w).
Proof.
  unfold linenoiseEditDelete. cbv zeta.
  change (pos (with_esc m q i w)) with (pos w).
  change (len (with_esc m q i w)) with (len w).
  destruct ((len w >? 0) && (pos w <? len w)); [|reflexivity].
  rewrite <- refreshLine_with_esc. reflexivity.
Qed.

Lemma HistoryNext_with_esc d m q i w :
  linenoiseEditHistoryNext linenoise_hints d (with_esc m q i w)
  = with_esc m q i (linenoiseEditHistoryNext linenoise_hints d w).
Proof.
  unfold linenoiseEditHistoryNext. cbv zeta.
  match goal with
  | |- (if ?a then _ else _) = with_esc _ _ _ (if ?a' then _ else _) =>
      change a with a'; destruct a'
  end; [|reflexivity].
  match goal with
  | |- (if ?a then _ else _) = with_esc _ _ _ (if ?a' then _ else _) =>
      change a with a'; destruct a'
  end; [reflexivity|].
  match goal with
  | |- (if ?a then _ else _) = with_esc _ _ _ (if ?a' then _ else _) =>
      change a with a'; destruct a'
  end; [reflexivity|].
  match goal with
  | |- refreshLine _ ?x = with_esc _ _ _ (refreshLine _ ?y) =>
      change x with (with_esc m q i y)
  end.
  apply refreshLine_with_esc.
Qed.

Lemma Edit_esc hbuf n p s :
  smart_term_connected s = true -> mode s = ln_read_regular ->
  linenoiseEdit linenoise_completion linenoise_hints hbuf n p ESC s
  = (-1, with_esc ln_read_esc (seq s) 0 s).
Proof.
  intros Hs Hm. rewrite Edit_smart_key by (try assumption; unfold ESC; lia).
  destruct s. reflexivity.
Qed.

Lemma ReadEsc_first hbuf n p a q s :
  0 <= a ->
  linenoiseEdit linenoise_completion linenoise_hints hbuf n p a (with_esc ln_read_esc q 0 s)
  = (-1, with_esc ln_read_esc (buf_set q 0 (to_char a)) 1 s).
Proof.
  intros Ha. unfold linenoiseEdit.
  change (mode (with_esc ln_read_esc q 0 s)) with ln_read_esc. cbv iota.
  unfold lnReadEscSequence. destruct (Z.ltb_spec a 0); [lia|]. reflexivity.
Qed.

(** the second byte of a sequence that is no extended one *)
Lemma ReadEsc_second hbuf n p b q s :
  0 <= b -> length q = 3%nat ->
  let s0 := buf_get q 0 in
  let s1 := to_char b in
  let w1 := with_esc ln_read_esc (buf_set q 1 s1) 2 s in
  linenoiseEdit linenoise_completion linenoise_hints hbuf n p b (with_esc ln_read_esc q 1 s)
  = if (s0 =? 91) && (s1 >=? 48) && (s1 <=? 57) then (-1, w1)
    else
      (-1, set_mode ln_read_regular
             (if s0 =? 91 then
                if s1 =? 65 then linenoiseEditHistoryNext linenoise_hints LINENOISE_HISTORY_PREV w1
                else if s1 =? 66
                     then linenoiseEditHistoryNext linenoise_hints LINENOISE_HISTORY_NEXT w1
                else if s1 =? 67 then linenoiseEditMoveRight linenoise_hints w1
                else if s1 =? 68 then linenoiseEditMoveLeft linenoise_hints w1
                else if s1 =? 72 then linenoiseEditMoveHome linenoise_hints w1
                else if s1 =? 70 then linenoiseEditMoveEnd linenoise_hints w1
                else w1
              else if s0 =? 79 then
                if s1 =? 72 then linenoiseEditMoveHome linenoise_hints w1
                else if s1 =? 70 then linenoiseEditMoveEnd linenoise_hints w1
                else w1
              else w1)).
Proof.
  intros Hb Hq s0 s1 w1. unfold linenoiseEdit.
  change (mode (with_esc ln_read_esc q 1 s)) with ln_read_esc. cbv iota.
  unfold lnReadEscSequence. destruct (Z.ltb_spec b 0); [lia|].
  change (seq_idx (with_esc ln_read_esc q 1 s)) with 1.
  change (1 >=? 3) with false. cbv iota zeta.
  change (set_seq_idx (sz (1 + 1))
            (set_seq (buf_set (seq (with_esc ln_read_esc q 1 s)) 1 (to_char b))
               (with_esc ln_read_esc q 1 s))) with w1.
  change (seq_idx w1) with 2. change (2 <? 2) with false. change (2 <? 3) with true.
  cbv iota. change (seq w1) with (buf_set q 1 s1).
  rewrite (buf_get_set_ne q 1 0 s1) by lia.
  rewrite (buf_get_set_eq q 1 s1) by lia.
  fold s0. destruct (s0 =? 91); cbn [andb].
  - destruct ((s1 >=? 48) && (s1 <=? 57)); reflexivity.
  - destruct (s0 =? 79); reflexivity.
Qed.

(** the third byte of an extended sequence *)
Lemma ReadEsc_third hbuf n p d q s :
  0 <= d -> length q = 3%nat -> buf_get q 0 = 91 ->
  48 <= buf_get q 1 <= 57 ->
  let q' := buf_set q 2 (to_char d) in
  linenoiseEdit linenoise_completion linenoise_hints hbuf n p d (with_esc ln_read_esc q 2 s)
  = (-1, with_esc ln_read_regular q' 3
           (if (to_char d =? 126) && (buf_get q 1 =? 51)
            then linenoiseEditDelete linenoise_hints s else s)).
Proof.
  intros Hd Hq H0 H1 q'. unfold linenoiseEdit.
  change (mode (with_esc ln_read_esc q 2 s)) with ln_read_esc. cbv iota.
  unfold lnReadEscSequence. destruct (Z.ltb_spec d 0); [lia|].
  change (seq_idx (with_esc ln_read_esc q 2 s)) with 2.
  change (2 >=? 3) with false. cbv iota zeta.
  change (set_seq_idx (sz (2 + 1))
            (set_seq (buf_set (seq (with_esc ln_read_esc q 2 s)) 2 (to_char d))
               (with_esc ln_read_esc q 2 s))) with (with_esc ln_read_esc q' 3 s).
  change (seq_idx (with_esc ln_read_esc q' 3 s)) with 3.
  change (3 <? 2) with false. change (3 <? 3) with false. cbv iota.
  change (seq (with_esc ln_read_esc q' 3 s)) with q'. subst q'.
  rewrite (buf_get_set_ne q 2 0 (to_char d)) by lia.
  rewrite (buf_get_set_ne q 2 1 (to_char d)) by lia.
  rewrite (buf_get_set_eq q 2 (to_char d)) by lia.
  rewrite H0. change (91 =? 91) with true. cbv iota.
  destruct (Z.geb_spec (buf_get q 1) 48); [|lia].
  destruct (Z.leb_spec (buf_get q 1) 57); [|lia]. cbn [andb].
  destruct ((to_char d =? 126) && (buf_get q 1 =? 51)).
  - now rewrite Delete_with_esc.
  - reflexivity.
Qed.

End Escapes.

Lemma with_esc_mode m m' q i w : set_mode m (with_esc m' q i w) = with_esc m q i w.
Proof. reflexivity. Qed.

Ltac esc_run :=
  cbn [calls_with map edit_results edit_run fold_left edit_step];
  rewrite !Edit_esc by assumption; cbn [fst snd];
  rewrite !ReadEsc_first by lia; cbn [fst snd].

Ltac in_table := unfold esc_table; cbn [In]; repeat first [left; reflexivity | right].





(** ** Walking through the history *)

Lemma firstn_repeat_le (x : Z) (k : nat) : forall n : nat,
  (k <= n)%nat -> firstn k (repeat x n) = repeat x k.
Proof.
  induction k as [|k IH]; intros n H; [reflexivity|].
  destruct n; [lia|]. cbn [repeat firstn]. f_equal. apply IH. lia.
Qed.

Lemma firstn_app_repeat (src : list Z) (n : nat) :
  (length src <= n)%nat ->
  firstn n (src ++ repeat 0 n) = src ++ repeat 0 (n - length src).
Proof.
  intros H. rewrite firstn_app. rewrite firstn_all2 by lia. f_equal.
  apply firstn_repeat_le. lia.
Qed.

(** [strncpy] and the store of the terminator behind it, as
    [linenoiseEditHistoryNext] does them, for a string that fits *)
Lemma strncpy_fits (b src : list Z) (n : Z) :
  nul_free src = true -> Z.of_nat (length src) < n -> n <= Z.of_nat (length b) ->
  let b' := buf_set (strncpy b src n) (n - 1) 0 in
  cstr b' = src /\ take (Z.of_nat (length src)) b' = src /\ length b' = length b.
Proof.
  intros Hn Hl Hb b'.
  assert (Lb : length b' = length b).
  { subst b'. now rewrite length_buf_set, length_strncpy. }
  assert (D : firstn (Z.to_nat n) (cstr src ++ repeat 0 (Z.to_nat n))
              = src ++ repeat 0 (Z.to_nat n - length src)).
  { rewrite cstr_id by assumption. apply firstn_app_repeat. lia. }
  assert (G : forall j : nat, (j <= length src)%nat ->
                nth j b' 0 = nth j (src ++ [0]) 0).
  { intros j Hj. subst b'. unfold buf_set, strncpy. rewrite D.
    destruct (Nat.eq_dec j (Z.to_nat (n - 1))) as [E|E].
    - subst j. rewrite nth_upd_eq.
      + assert (length src = Z.to_nat (n - 1)) by lia.
        rewrite app_nth2 by lia. replace (Z.to_nat (n - 1) - length src)%nat with O by lia.
        reflexivity.
      + rewrite length_store_bytes. lia.
    - rewrite nth_upd_ne by lia.
      rewrite nth_store_bytes_in
        by (rewrite ?length_app, ?repeat_length; lia).
      rewrite Nat.sub_0_r.
      destruct (Nat.eq_dec j (length src)) as [->|Hne].
      + rewrite !app_nth2 by lia. rewrite Nat.sub_diag.
        destruct (Z.to_nat n - length src)%nat eqn:F; [lia|]. reflexivity.
      + rewrite !app_nth1 by lia. reflexivity. }
  assert (T : firstn (length src) b' = src).
  { apply (nth_ext _ _ 0 0).
    - rewrite length_firstn. lia.
    - intros k Hk. rewrite length_firstn in Hk. rewrite nth_firstn.
      destruct (Nat.ltb_spec k (length src)); [|lia].
      rewrite G by lia. apply app_nth1. lia. }
  split; [|split; [|exact Lb]].
  - apply cstr_prefix; [exact T | exact Hn |].
    rewrite G by lia. apply nth_app_terminator.
  - unfold take. now rewrite Nat2Z.id.
Qed.

Section Navigation.

Variable linenoise_hints : list Z -> option (list Z * list Z).
Variable N : Z.
Hypothesis N_range : 2 <= N <= INT_MAX.

Lemma HistoryNext_move d s (e : list Z) :
  edit_ok N s -> 2 <= history_len s -> history_len s <= INT_MAX ->
  0 <= history_index s < history_len s ->
  let idx := history_index s + (if d =? LINENOISE_HISTORY_PREV then 1 else -1) in
  0 <= idx < history_len s ->
  let h1 := upd (Z.to_nat (history_len s - 1 - history_index s)) (cstr (buf s)) (history s) in
  str_at h1 (history_len s - 1 - idx) = e ->
  nul_free e = true -> Z.of_nat (length e) < N - 1 ->
  let s' := linenoiseEditHistoryNext linenoise_hints d s in
  line s' = e /\ cstr (buf s') = e /\
  pos s' = Z.of_nat (length e) /\ len s' = Z.of_nat (length e) /\
  history s' = h1 /\ history_index s' = idx.
Proof.
  intros (Hb & Hl & Hp & Hn & Hz & Hc) H2 Hmax Hi idx Hidx h1 He Hnul Hfit s'.
  subst s'. unfold linenoiseEditHistoryNext. cbv zeta.
  destruct (Z.gtb_spec (history_len s) 1); [|lia].
  unfold history_len in *. psimpl. rewrite !length_upd. fold idx.
  rewrite (sz_small (history_index s)) by zarith.
  rewrite (sz_small (Z.of_nat (length (history s)) - 1 - history_index s)) by zarith.
  rewrite (sz_small idx) by zarith.
  rewrite (sz_small (Z.of_nat (length (history s)) - 1 - idx)) by zarith.
  fold h1. rewrite He.
  destruct (Z.ltb_spec idx 0); [lia|].
  destruct (Z.geb_spec idx (Z.of_nat (length (history s)))); [lia|].
  unfold line. fsimpl. rewrite Hb. rewrite (sz_small (N - 1 - 1)) by zarith.
  destruct (strncpy_fits (buf s) e (N - 1) Hnul) as (S1 & S2 & S3); [lia | lia |].
  cbv zeta in S1, S2, S3.
  assert (L : strlen (buf_set (strncpy (buf s) e (N - 1)) (N - 1 - 1) 0) = Z.of_nat (length e)).
  { unfold strlen. now rewrite S1. }
  rewrite L. repeat split; auto.
Qed.

End Navigation.

Lemma upd_same {A : Type} (d : A) : forall (l : list A) (i : nat),
  upd i (nth i l d) l = l.
Proof.
  induction l as [|x l IH]; intros i; [reflexivity|].
  destruct i; [reflexivity|]. cbn [upd nth]. now rewrite IH.
Qed.

Lemma upd_upd {A : Type} (u v : A) : forall (l : list A) (i : nat),
  upd i v (upd i u l) = upd i v l.
Proof.
  induction l as [|x l IH]; intros i; [reflexivity|].
  destruct i; [reflexivity|]. cbn [upd]. now rewrite IH.
Qed.

Lemma cstr_line N s :
  edit_ok N s -> nul_free (line s) = true -> cstr (buf s) = line s.
Proof.
  intros (Hb & Hl & Hp & Hn & Hz & Hc) Hnul.
  assert (L : length (line s) = Z.to_nat (len s)).
  { unfold line, take. rewrite length_firstn. lia. }
  apply cstr_prefix.
  - rewrite L. reflexivity.
  - exact Hnul.
  - rewrite L. exact Hz.
Qed.



(** ** Completion *)

Lemma snprintf_fits (b src : list Z) (n : Z) :
  strlen src < n -> n <= Z.of_nat (length b) ->
  cstr (fst (snprintf_s b n src)) = cstr src /\
  snd (snprintf_s b n src) = strlen src /\
  length (fst (snprintf_s b n src)) = length b.
Proof.
  intros Hl Hb. pose proof (strlen_nonneg src) as P. unfold snprintf_s. cbn [fst snd].
  destruct (Z.eqb_spec n 0); [lia|].
  unfold strlen in *. rewrite firstn_all2 by lia.
  split; [|split; [reflexivity|apply length_store_bytes]].
  apply cstr_prefix.
  - apply (nth_ext _ _ 0 0).
    + rewrite length_firstn, length_store_bytes. lia.
    + intros k Hk. rewrite length_firstn, length_store_bytes in Hk.
      rewrite nth_firstn. destruct (Nat.ltb_spec k (length (cstr src))); [|lia].
      rewrite nth_store_bytes_in by (rewrite length_app; cbn [length]; lia).
      rewrite Nat.sub_0_r. apply app_nth1. lia.
  - apply cstr_nul_free.
  - rewrite nth_store_bytes_in by (rewrite length_app; cbn [length]; lia).
    rewrite Nat.sub_0_r. apply nth_app_terminator.
Qed.

Section Completion.

Variable linenoise_completion : list Z -> list (list Z).
Variable linenoise_hints : list Z -> option (list Z * list Z).

Lemma Edit_tab hbuf n p s :
  smart_term_connected s = true -> mode s = ln_read_regular ->
  linenoiseEdit linenoise_completion linenoise_hints hbuf n p TAB s
  = (-1, completeLine linenoise_completion linenoise_hints s).
Proof.
  intros Hs Hm. rewrite Edit_smart_key by (try assumption; unfold TAB; lia). reflexivity.
Qed.

Lemma completeLine_lc s :
  lc (set_lc (fold_left linenoiseAddCompletion (linenoise_completion (cstr (buf s))) []) s)
  = map cstr (linenoise_completion (cstr (buf s))).
Proof. psimpl. now rewrite fold_AddCompletion. Qed.

End Completion.

(** X19.  Tab on the smart terminal when the completion callback offers
    nothing for the line: the call returns -1, writes the bell to the error
    stream and nothing to the terminal, and leaves the line, the cursor and
    the mode as they are. *)
Theorem tab_without_candidates_beeps :
  forall (linenoise_completion : list Z -> list (list Z))
         (linenoise_hints : list Z -> option (list Z * list Z))
         (hbuf : list Z) (n : Z) (p : list Z) (s : linenoiseState),
    smart_term_connected s = true -> mode s = ln_read_regular ->
    linenoise_completion (cstr (buf s)) = [] ->
    let r := linenoiseEdit linenoise_completion linenoise_hints hbuf n p TAB s in
    fst r = -1 /\ err (snd r) = err s ++ [7] /\ out (snd r) = out s /\
    mode (snd r) = ln_read_regular /\ lc (snd r) = [] /\
    buf (snd r) = buf s /\ pos (snd r) = pos s /\ len (snd r) = len s.
Proof.
  intros comp hints hbuf n p s Hs Hm Hc r. subst r.
  rewrite Edit_tab by assumption. cbn [fst snd].
  unfold completeLine. cbv zeta. rewrite Hc. cbn [fold_left]. psimpl.
  cbn [length Z.of_nat Z.eqb]. psimpl. auto 10.
Qed.

Lemma tab_without_candidates_beeps_witness :
  err (snd (linenoiseEdit default_completion default_hints ex_buf 16 ex_prompt TAB
              smart_one_byte)) = [7].
Proof.
  destruct (tab_without_candidates_beeps default_completion default_hints
              ex_buf 16 ex_prompt smart_one_byte) as (_ & H & _);
    [reflexivity | reflexivity | reflexivity | exact H].
Defined.

Section CompletionShow.

Variable linenoise_completion : list Z -> list (list Z).
Variable linenoise_hints : list Z -> option (list Z * list Z).

(** what a redraw writes depends on these fields only *)
Lemma out_refreshLine_ext w1 w2 :
  buf w1 = buf w2 -> len w1 = len w2 -> pos w1 = pos w2 -> oldpos w1 = oldpos w2 ->
  prompt w1 = prompt w2 -> cols w1 = cols w2 -> maxrows w1 = maxrows w2 ->
  mlmode w1 = mlmode w2 -> out w1 = out w2 ->
  out (refreshLine linenoise_hints w1) = out (refreshLine linenoise_hints w2).
Proof.
  destruct w1, w2. psimpl. intros -> -> -> -> -> -> -> -> ->.
  unfold refreshLine, refreshSingleLine, refreshMultiLine.
  psimpl.
  match goal with |- context [if ?b then _ else _] => is_var b; destruct b end.
  - fsimpl. reflexivity.
  - destruct (scroll_left _ _ _ _ _ _) as [[off ln1] ps]. fsimpl. reflexivity.
Qed.

Lemma skip_identical_stay f b cvec idx :
  strcmp0 b (str_at cvec idx) = false -> skip_identical (S f) b cvec idx = idx.
Proof.
  intros H. cbn [skip_identical]. rewrite H. destruct (idx <? Z.of_nat (length cvec)); reflexivity.
Qed.

(** [lnShowCompletion] shows the candidate (or, behind the last one, the
    line) and puts the line back *)
Lemma ShowCompletion_effect w :
  let i := skip_identical (S (length (lc w))) (buf w) (lc w) (completion_idx w) in
  let cand := str_at (lc w) i in
  let shown :=
    if i <? Z.of_nat (length (lc w))
    then set_buf (cand ++ [0]) (set_pos (strlen cand) (set_len (strlen cand) w))
    else w in
  let w' := lnShowCompletion linenoise_hints w in
  completion_idx w' = i /\ buf w' = buf w /\ pos w' = pos w /\ len w' = len w /\
  lc w' = lc w /\ mode w' = mode w /\ history w' = history w /\ err w' = err w /\
  out w' = out (refreshLine linenoise_hints shown).
Proof.
  cbv zeta. unfold lnShowCompletion. cbv zeta. psimpl.
  set (i := skip_identical (S (length (lc w))) (buf w) (lc w) (completion_idx w)).
  destruct (i <? Z.of_nat (length (lc w))).
  - fsimpl. repeat split. apply out_refreshLine_ext; psimpl; reflexivity.
  - fsimpl. repeat split. apply out_refreshLine_ext; psimpl; reflexivity.
Qed.

(** the state in which [completeLine] leaves a line with candidates of
    which the first is not the line itself *)
Lemma completeLine_first s c0 rest :
  linenoise_completion (cstr (buf s)) = c0 :: rest ->
  cstr c0 <> cstr (buf s) ->
  let s1 := completeLine linenoise_completion linenoise_hints s in
  mode s1 = ln_completion /\ completion_idx s1 = 0 /\
  lc s1 = cstr c0 :: map cstr rest /\
  buf s1 = buf s /\ pos s1 = pos s /\ len s1 = len s /\
  history s1 = history s /\ err s1 = err s /\
  out s1 = out (refreshLine linenoise_hints
                  (set_buf (cstr c0 ++ [0])
                     (set_pos (strlen (cstr c0)) (set_len (strlen (cstr c0)) s)))).
Proof.
  intros Hc Hne s1.
  assert (E : s1 = lnShowCompletion linenoise_hints
                     (set_mode ln_completion
                        (set_completion_idx 0 (set_lc (cstr c0 :: map cstr rest) s)))).
  { subst s1. unfold completeLine. cbv zeta. psimpl.
    rewrite Hc, fold_AddCompletion. cbn [app map length].
    destruct (Z.eqb_spec (Z.of_nat (S (length (map cstr rest)))) 0); [lia|reflexivity]. }
  rewrite E. clear E s1.
  set (W := set_mode ln_completion
              (set_completion_idx 0 (set_lc (cstr c0 :: map cstr rest) s))).
  pose proof (ShowCompletion_effect W) as S. cbv zeta in S.
  assert (D : strcmp0 (buf W) (str_at (lc W) (completion_idx W)) = false).
  { subst W. psimpl. unfold strcmp0, str_at. cbn [nth Z.to_nat]. rewrite cstr_cstr.
    destruct (bytes_eqb (cstr (buf s)) (cstr c0)) eqn:E; [|reflexivity].
    apply bytes_eqb_eq in E. congruence. }
  rewrite (skip_identical_stay _ _ _ _ D) in S.
  destruct S as (S1 & S2 & S3 & S4 & S5 & S6 & S7 & S8 & S9).
  rewrite S1, S2, S3, S4, S5, S6, S7, S8, S9. subst W. psimpl.
  cbn [length]. destruct (Z.ltb_spec 0 (Z.of_nat (S (length (map cstr rest))))); [|lia].
  unfold str_at. cbn [nth Z.to_nat].
  repeat split. apply out_refreshLine_ext; psimpl; reflexivity.
Qed.

End CompletionShow.

Section CompletionAccept.

Variable linenoise_completion : list Z -> list (list Z).
Variable linenoise_hints : list Z -> option (list Z * list Z).

Lemma MoveEnd_history w :
  history (linenoiseEditMoveEnd linenoise_hints w) = history w.
Proof. unfold linenoiseEditMoveEnd. split_ifs; fsimpl; reflexivity. Qed.

Lemma MoveEnd_lc w : lc (linenoiseEditMoveEnd linenoise_hints w) = lc w.
Proof. unfold linenoiseEditMoveEnd. split_ifs; fsimpl; reflexivity. Qed.

(** Enter takes the scratch slot off the history *)
Lemma Enter_history w :
  history (snd (lnHandleCharacter linenoise_completion linenoise_hints ENTER w))
  = removelast (history w) /\
  lc (snd (lnHandleCharacter linenoise_completion linenoise_hints ENTER w)) = lc w.
Proof.
  change (lnHandleCharacter linenoise_completion linenoise_hints ENTER w)
    with (let w1 := history_pop w in
          let w2 := if mlmode w1 then linenoiseEditMoveEnd linenoise_hints w1 else w1 in
          let w3 := lnRestartState (refreshLineNoHints linenoise_hints w2) in
          (to_int (len w3), w3)).
  cbv zeta. cbn [snd]. fsimpl.
  destruct (mlmode w); rewrite ?MoveEnd_history, ?MoveEnd_lc; fsimpl; auto.
Qed.

(** a key other than Tab and Escape takes the candidate that is shown *)
Lemma Completion_accept hbuf n p c s :
  mode s = ln_completion -> 0 <= c -> c <> 9 -> c <> 27 ->
  completion_idx s < Z.of_nat (length (lc s)) ->
  linenoiseEdit linenoise_completion linenoise_hints hbuf n p c s
  = lnHandleCharacter linenoise_completion linenoise_hints (to_char c)
      (set_lc [] (set_mode ln_read_regular
         (set_pos (sz (snd (snprintf_s (buf s) (buflen s) (str_at (lc s) (completion_idx s)))))
            (set_len (sz (snd (snprintf_s (buf s) (buflen s)
                                 (str_at (lc s) (completion_idx s)))))
               (set_buf (fst (snprintf_s (buf s) (buflen s)
                                (str_at (lc s) (completion_idx s)))) s))))).
Proof.
  intros Hm Hc H9 H27 Hi. unfold linenoiseEdit. rewrite Hm. unfold lnCompletion. cbv zeta.
  destruct (Z.ltb_spec c 0); [lia|].
  destruct (Z.eqb_spec c 9); [contradiction|].
  destruct (Z.eqb_spec c 27); [contradiction|].
  destruct (Z.ltb_spec (completion_idx s) (Z.of_nat (length (lc s)))); [|lia].
  destruct (snprintf_s (buf s) (buflen s) (str_at (lc s) (completion_idx s))) as [b k].
  reflexivity.
Qed.

End CompletionAccept.



(** ** A line typed on the smart terminal *)

Lemma splice_at_end (c : Z) (l : list Z) :
  splice (Z.of_nat (length l)) (Z.of_nat (length l)) [c] l = l ++ [c].
Proof.
  unfold splice, take, drop. rewrite Nat2Z.id, firstn_all, skipn_all. reflexivity.
Qed.

Section SmartTyping.

Variable linenoise_completion : list Z -> list (list Z).
Variable linenoise_hints : list Z -> option (list Z * list Z).
Variable N : Z.
Hypothesis N_range : 2 <= N <= INT_MAX.
Variables (hbuf hprompt : list Z).

Local Abbreviation Edit := (linenoiseEdit linenoise_completion linenoise_hints hbuf N hprompt).
Local Abbreviation calls := (calls_with hbuf N hprompt).
Local Abbreviation run := (edit_run linenoise_completion linenoise_hints).

Lemma Insert_frame c w :
  history (snd (linenoiseEditInsert linenoise_hints c w)) = history w /\
  mode (snd (linenoiseEditInsert linenoise_hints c w)) = mode w /\
  err (snd (linenoiseEditInsert linenoise_hints c w)) = err w.
Proof. unfold linenoiseEditInsert. split_ifs; cbn [snd]; fsimpl; auto. Qed.

Lemma length_line t s : smart_typed N t s -> Z.of_nat (length t) = len s.
Proof.
  intros ((_ & _ & Hok) & L & _). destruct Hok as (Hb & Hl & Hp & Hn & _).
  rewrite <- L. unfold line. apply length_take. lia.
Qed.

Lemma smart_idle c s :
  mode s = ln_read_regular -> c < 0 -> Edit c s = (-1, s).
Proof.
  intros M Hc. unfold linenoiseEdit, lnReadUserInput. rewrite M.
  destruct (Z.ltb_spec c 0); [reflexivity|lia].
Qed.

Lemma smart_store c t s :
  smart_typed N t s -> 0 < c < 256 -> plain_key c = true -> len s < N - 1 ->
  fst (Edit c s) = -1 /\ smart_typed N (t ++ [c]) (snd (Edit c s)) /\
  history (snd (Edit c s)) = history s.
Proof.
  intros T Hc Hk Hfit. pose proof (length_line t s T) as Lt.
  destruct T as ((Hs & Hm & Hok) & L & Hp & Hn).
  rewrite Edit_smart_key by (try assumption; lia).
  rewrite to_char_small by lia. rewrite HandleCharacter_plain by assumption.
  cbn [fst snd].
  destruct (Insert_line linenoise_hints N N_range c s Hok) as (L1 & L2 & L3).
  { destruct Hok as (Hb & _). lia. }
  destruct (Insert_frame c s) as (F1 & F2 & F3).
  pose proof (statics_Insert linenoise_hints c s) as St. apply statics_inv in St.
  destruct St as (St & _).
  split; [reflexivity|]. split; [|exact F1].
  split; [|split; [|split]].
  - split; [congruence|]. split; [congruence|]. now apply ok_Insert.
  - rewrite L1, L, Hp, <- Lt. apply splice_at_end.
  - lia.
  - unfold nul_free in *. rewrite forallb_app, Hn. cbn.
    destruct (Z.eqb_spec c 0); [lia|reflexivity].
Qed.

Lemma smart_commit t s :
  smart_typed N t s ->
  fst (Edit ENTER s) = Z.of_nat (length t) /\
  cstr (buf (snd (Edit ENTER s))) = t /\ mode (snd (Edit ENTER s)) = ln_getColumns /\
  history (snd (Edit ENTER s)) = removelast (history s).
Proof.
  intros T. pose proof (length_line t s T) as Lt.
  destruct T as ((Hs & Hm & Hok) & L & Hp & Hn).
  rewrite Edit_smart_key by (try assumption; unfold ENTER; lia).
  change (to_char ENTER) with ENTER.
  pose proof (HandleCharacter_result linenoise_completion linenoise_hints ENTER s) as R.
  destruct (Enter_history linenoise_completion linenoise_hints s) as [E1 _].
  cbv zeta in R. destruct R as [[_ R]|[(_ & R & _)|(_ & R1 & R2 & R3 & R4)]];
    [contradiction | discriminate |].
  rewrite R1, R3, R4, E1, Hs.
  assert (Hlen : 0 <= len s <= INT_MAX) by (destruct Hok as (_ & _ & ? & ? & _); lia).
  rewrite to_int_small by lia.
  split; [lia|]. split; [|split; reflexivity].
  rewrite (cstr_line N s Hok) by (now rewrite L). exact L.
Qed.

Lemma smart_typing (keys : list Z) : forall (t : list Z) (s : linenoiseState),
  smart_typed N t s -> forallb smart_key keys = true ->
  Z.of_nat (length t) + Z.of_nat (length (typed_bytes keys)) <= N - 1 ->
  edit_results linenoise_completion linenoise_hints (calls keys) s
    = repeat (-1) (length keys) /\
  smart_typed N (t ++ typed_bytes keys) (run (calls keys) s) /\
  history (run (calls keys) s) = history s.
Proof.
  induction keys as [|c keys IH]; intros t s T K Hfit.
  - cbn. rewrite app_nil_r. auto.
  - cbn [forallb] in K. apply andb_true_iff in K as [Kc K].
    cbn [calls_with map edit_results edit_run fold_left edit_step typed_bytes filter].
    fold (typed_bytes keys). fold (calls keys).
    change (fold_left (fun s0 call => snd (edit_step linenoise_completion linenoise_hints call s0))
              (calls keys))
      with (run (calls keys)).
    unfold smart_key in Kc. cbn [typed_bytes filter] in Hfit. fold (typed_bytes keys) in Hfit.
    destruct (Z.ltb_spec c 0) as [Cn|Cp].
    + assert (F : (0 <=? c) = false) by (apply Z.leb_gt; lia).
      rewrite F in *.
      rewrite smart_idle by (assumption || apply T). cbn [snd length repeat].
      destruct (IH t s T K Hfit) as (I1 & I2 & I3).
      rewrite I1. auto.
    + cbn [orb] in Kc.
      assert (F : (0 <=? c) = true) by (apply Z.leb_le; lia).
      rewrite F in *. cbn [length] in Hfit.
      apply andb_true_iff in Kc as [Kc K3]. apply andb_true_iff in Kc as [K1 K2].
      apply Z.ltb_lt in K1, K2.
      pose proof (length_line t s T) as Lt.
      destruct (smart_store c t s T) as (S1 & S2 & S3); try assumption; try lia.
      destruct (Edit c s) as [r s1] eqn:E. cbn [fst snd] in *.
      destruct (IH (t ++ [c]) s1 S2 K) as (I1 & I2 & I3).
      { rewrite length_app. cbn [length]. lia. }
      rewrite I1, I3, S1. rewrite <- app_assoc in I2. cbn [length repeat].
      split; [reflexivity|]. split; [exact I2|]. congruence.
Qed.

End SmartTyping.

Lemma session_state_init hbuf n p w0 :
  mode w0 = ln_init -> session_state hbuf n p w0 = lnInitState hbuf n p w0.
Proof. intros Hm. unfold session_state. now rewrite Hm. Qed.

Lemma line_empty w : len w = 0 -> line w = [].
Proof. intros H. unfold line. now rewrite H. Qed.

Lemma state_ok_smart N w : state_ok N w -> smart_term_connected w = true -> edit_ok N w.
Proof. unfold state_ok. intros O E. rewrite E in O. exact O. Qed.

Lemma lnInitState_edit_ok N hbuf p w0 :
  2 <= N <= INT_MAX -> Z.of_nat (length hbuf) = N ->
  smart_term_connected w0 = true ->
  edit_ok N (lnInitState hbuf N p w0).
Proof.
  intros HN Hl Hs. apply state_ok_smart.
  - apply lnInitState_state_ok; [exact HN | exact Hl | reflexivity].
  - now rewrite lnInitState_smart.
Qed.

Lemma smart_session_start N hbuf p w0 :
  2 <= N <= INT_MAX -> Z.of_nat (length hbuf) = N ->
  mode w0 = ln_init -> smart_term_connected w0 = true ->
  let s := session_state hbuf N p w0 in
  smart_typed N [] s /\ history s = history (snd (linenoiseHistoryAdd [] w0)).
Proof.
  intros HN Hl Hm Hs s. subst s. rewrite session_state_init by exact Hm.
  pose proof (lnInitState_fields hbuf N p w0) as F. cbv zeta in F.
  destruct F as (F1 & F2 & F3 & F4 & F5 & F6).
  split; [|apply lnInitState_history].
  unfold smart_typed, smart_session.
  split; [|split; [|split]].
  - split; [rewrite F6; exact Hs|]. split; [exact F5|now apply lnInitState_edit_ok].
  - apply line_empty. exact F4.
  - rewrite F3, F4; reflexivity.
  - reflexivity.
Qed.

Lemma smart_typed_line :
  forall (linenoise_completion : list Z -> list (list Z))
         (linenoise_hints : list Z -> option (list Z * list Z))
         (N : Z) (hbuf hprompt keys : list Z) (w : linenoiseState),
    2 <= N <= INT_MAX -> Z.of_nat (length hbuf) = N ->
    mode w = ln_init -> smart_term_connected w = true ->
    forallb smart_key keys = true ->
    Z.of_nat (length (typed_bytes keys)) <= N - 1 ->
    let calls := calls_with hbuf N hprompt (keys ++ [ENTER]) in
    let w' := edit_run linenoise_completion linenoise_hints calls w in
    edit_results linenoise_completion linenoise_hints calls w
      = repeat (-1) (length keys) ++ [Z.of_nat (length (typed_bytes keys))] /\
    cstr (buf w') = typed_bytes keys /\
    mode w' = ln_getColumns /\
    history w' = removelast (history (snd (linenoiseHistoryAdd [] w))).
Proof.
  intros comp hints N hbuf p keys w HN Hl Hm Hs K Hfit calls w'.
  destruct (edit_run_from_session comp hints hbuf N p (keys ++ [ENTER]) w) as [R1 R2].
  { destruct keys; discriminate. }
  subst calls w'. rewrite R1, R2. clear R1 R2.
  destruct (smart_session_start N hbuf p w HN Hl Hm Hs) as (T & H0).
  set (s := session_state hbuf N p w) in *.
  unfold calls_with. rewrite map_app. fold (calls_with hbuf N p keys).
  rewrite edit_results_app, edit_run_app.
  destruct (smart_typing comp hints N HN hbuf p keys [] s T K) as (T1 & T2 & T3).
  { cbn [length]. lia. }
  cbn [app] in T2.
  destruct (smart_commit comp hints N HN hbuf p (typed_bytes keys) _ T2) as (C1 & C2 & C3 & C4).
  cbn [map edit_results edit_run fold_left edit_step].
  destruct (linenoiseEdit comp hints hbuf N p ENTER
              (edit_run comp hints (calls_with hbuf N p keys) s)) as [r s1] eqn:E.
  cbn [fst snd] in *. rewrite T1, C1, C2, C3, C4, T3, H0. auto.
Qed.



Lemma removelast_app_one {A : Type} (l : list A) (x : A) : removelast (l ++ [x]) = l.
Proof. apply removelast_last. Qed.



(** ** The window of the single-line redraw *)

Lemma scroll_left_spec (pl cl : Z) (fuel : nat) : forall off ln ps : Z,
  0 <= pl < cl -> cl < SIZE_MOD -> 0 <= ps <= ln -> pl + ln < SIZE_MOD ->
  (Z.to_nat ps <= fuel)%nat ->
  let k := Z.max 0 (pl + ps - cl + 1) in
  scroll_left fuel pl cl off ln ps = (off + k, ln - k, ps - k).
Proof.
  induction fuel as [|f IH]; intros off ln ps Hpl Hcl Hps Hln Hf k; subst k.
  - cbn [scroll_left]. assert (ps = 0) by lia. subst ps.
    replace (Z.max 0 (pl + 0 - cl + 1)) with 0 by lia.
    now rewrite Z.add_0_r, !Z.sub_0_r.
  - cbn [scroll_left]. rewrite (sz_small (pl + ps)) by zarith.
    destruct (Z.geb_spec (pl + ps) cl).
    + rewrite (sz_small (ln - 1)), (sz_small (ps - 1)) by zarith.
      rewrite IH by lia. f_equal; [f_equal|]; lia.
    + replace (Z.max 0 (pl + ps - cl + 1)) with 0 by lia.
      now rewrite Z.add_0_r, !Z.sub_0_r.
Qed.

Lemma clip_right_spec (pl cl : Z) (fuel : nat) : forall ln : Z,
  0 <= pl <= cl -> cl < SIZE_MOD -> 0 <= ln -> pl + ln < SIZE_MOD ->
  (Z.to_nat ln <= fuel)%nat ->
  clip_right fuel pl cl ln = Z.min ln (cl - pl).
Proof.
  induction fuel as [|f IH]; intros ln Hpl Hcl Hln Hb Hf.
  - cbn [clip_right]. lia.
  - cbn [clip_right]. rewrite (sz_small (pl + ln)) by zarith.
    destruct (Z.gtb_spec (pl + ln) cl).
    + rewrite (sz_small (ln - 1)) by zarith. rewrite IH by lia. lia.
    + lia.
Qed.

Lemma nth_map_in {A B : Type} (f : A -> B) (l : list A) (d : B) (d' : A) (k : nat) :
  (k < length l)%nat -> nth k (map f l) d = f (nth k l d').
Proof.
  intros H. rewrite (nth_indep _ d (f d')) by (rewrite length_map; exact H).
  apply map_nth.
Qed.

Lemma read_bytes_in_range (b : list Z) (off n : Z) :
  0 <= off -> 0 <= n -> off + n <= Z.of_nat (length b) ->
  read_bytes b off n = take n (drop off b).
Proof.
  intros Ho Hn H.
  assert (L : length (read_bytes b off n) = Z.to_nat n)
    by (unfold read_bytes; now rewrite length_map, length_seq).
  apply list_eq_by_get.
  - rewrite L. apply Nat2Z.inj. rewrite length_take; [lia|]. rewrite length_drop; lia.
  - rewrite L. intros i Hi. rewrite buf_get_take, buf_get_drop by lia.
    unfold read_bytes. unfold buf_get at 1.
    rewrite (nth_map_in _ _ _ 0%nat) by (rewrite length_seq; lia).
    rewrite seq_nth by lia. f_equal. lia.
Qed.

(** X23.  The single-line redraw, for a prompt shorter than the terminal
    is wide, a cursor inside the line and a line inside its array ([len] at
    most the size of the array).  It writes carriage return, the prompt, the
    bytes of the line from [off] on, at most as many as fit beside the
    prompt, the hint if asked for, the erase sequence and the move to the
    cursor column, where [off] is the least offset that brings the cursor
    into the width of the terminal.  The cursor is inside the window shown,
    and its column is less than the width. *)
Theorem single_line_redraw_shows_a_window_around_the_cursor :
  forall (linenoise_hints : list Z -> option (list Z * list Z))
         (h : bool) (w : linenoiseState),
    let pl := strlen (prompt w) in
    pl < cols w -> cols w < SIZE_MOD -> 0 <= pos w <= len w -> pl + len w <= INT_MAX ->
    len w <= Z.of_nat (length (buf w)) ->
    let off := Z.max 0 (pl + pos w - cols w + 1) in
    let n := Z.min (len w - off) (cols w - pl) in
    refreshSingleLine linenoise_hints h w
      = linenoise_write
          ([CR] ++ PROMPT_HDR ++ cstr (prompt w) ++ PROMPT_TLR
           ++ take n (drop off (buf w))
           ++ (if h then refreshShowHints linenoise_hints w pl else [])
           ++ ERASE_RIGHT
           ++ (CR :: ESC :: bytes_of "[") ++ sdec (pos w - off + pl) ++ bytes_of "C") w /\
    0 <= off <= pos w /\ pos w - off <= n /\ pl + n <= cols w /\ pl + (pos w - off) < cols w.
Proof.
  intros hints h w pl Hpl Hc Hp Hl Hb off n.
  pose proof (strlen_nonneg (prompt w)) as P. fold pl in P.
  split; [|subst off n; lia].
  unfold refreshSingleLine. fold pl.
  rewrite (sz_small (pl + pos w)) by zarith.
  rewrite scroll_left_spec by (try lia; zarith). fold off.
  rewrite (sz_small (pl + (len w - off))) by (subst off; zarith).
  rewrite clip_right_spec by (subst off; try lia; zarith). fold n.
  rewrite Z.add_0_l.
  rewrite (sz_small (pos w - off + pl)) by (subst off; zarith).
  rewrite copy_check_in_range by (subst off n; lia).
  rewrite read_bytes_in_range by (subst off n; lia).
  reflexivity.
Qed.

Lemma single_line_redraw_shows_a_window_around_the_cursor_witness :
  out (refreshSingleLine default_hints false narrow_terminal)
  = [CR] ++ PROMPT_HDR ++ bytes_of "> " ++ PROMPT_TLR ++ bytes_of "fghijklm"
    ++ ERASE_RIGHT ++ (CR :: ESC :: bytes_of "[9C").
Proof.
  destruct (single_line_redraw_shows_a_window_around_the_cursor default_hints false
              narrow_terminal) as [H _];
    [vm_compute; reflexivity | vm_compute; reflexivity | vm_compute; split; congruence
    | vm_compute; congruence | vm_compute; congruence |].
  rewrite H. vm_compute. reflexivity.
Defined.

(** ** The row counters of the multi-line redraw *)

Lemma div_facts (a c : Z) :
  0 < c -> 0 <= a -> a = c * (a / c) + a mod c /\ 0 <= a mod c < c /\ 0 <= a / c.
Proof.
  intros Hc Ha. split; [apply Z.div_mod; lia|]. split; [apply Z.mod_pos_bound; lia|].
  apply Z.div_pos; lia.
Qed.

Lemma rows_cover_the_cursor (c x y : Z) :
  0 < c -> 0 <= x <= y ->
  x / c <= (y + c - 1) / c /\
  (x < y \/ x mod c <> 0 -> x / c + 1 <= (y + c - 1) / c).
Proof.
  intros Hc Hx. split.
  - apply Z.div_le_mono; lia.
  - intros H. replace (x / c + 1) with ((x + 1 * c) / c) by (rewrite Z.div_add; lia).
    destruct (Z_lt_le_dec x y) as [L|L].
    + apply Z.div_le_mono; lia.
    + assert (x = y) by lia. subst y.
      destruct (div_facts x c Hc ltac:(lia)) as (A1 & A2 & A3).
      assert (M : x mod c <> 0) by (destruct H; [lia|assumption]).
      rewrite Z.div_add by lia.
      assert (E : (x + c - 1) / c = x / c + 1).
      { symmetry. apply (Z.div_unique (x + c - 1) c (x / c + 1) (x mod c - 1)); lia. }
      lia.
Qed.

(** X24.  The multi-line redraw, for a line that fits the range of [int]
    and is not the empty line after a prompt that fills whole rows.  It
    leaves [oldpos] at the cursor and never lowers [maxrows]; and in the
    state it leaves, the row of the cursor that the next redraw computes is
    between 1 and [maxrows], so that neither [old_rows - rpos] nor
    [old_rows - 1] wraps around there. *)
Theorem multi_line_redraw_leaves_consistent_row_counters :
  forall (linenoise_hints : list Z -> option (list Z * list Z))
         (h : bool) (w : linenoiseState),
    let pl := strlen (prompt w) in
    0 < cols w -> 0 <= pos w <= len w -> 0 <= maxrows w <= INT_MAX ->
    pl + len w + cols w < INT_MAX ->
    pos w < len w \/ 0 < pos w \/ pl mod cols w <> 0 ->
    let w' := refreshMultiLine linenoise_hints h w in
    oldpos w' = pos w /\ maxrows w <= maxrows w' /\
    1 <= ml_rpos w' <= maxrows w' /\
    ml_go_down w' = maxrows w' - ml_rpos w' /\
    ml_clear_bound w' = maxrows w' - 1.
Proof.
  intros hints h w pl Hc Hp Hm Hb Hcase w'.
  pose proof (strlen_nonneg (prompt w)) as P. fold pl in P.
  assert (R : ml_rpos w' = (pl + pos w) / cols w + 1).
  { subst w'. unfold ml_rpos, refreshMultiLine. fsimpl. fold pl.
    rewrite sz_small by zarith.
    replace (pl + pos w + cols w) with (pl + pos w + 1 * cols w) by lia.
    rewrite Z.div_add by lia. reflexivity. }
  assert (A3 : 0 <= (pl + pos w) / cols w) by (apply Z.div_pos; lia).
  assert (Rows : ml_rows w = (pl + len w + cols w - 1) / cols w).
  { unfold ml_rows. fold pl. now rewrite sz_small by zarith. }
  assert (Rle : (pl + len w + cols w - 1) / cols w <= pl + len w + cols w - 1).
  { apply Z.div_le_upper_bound; nia. }
  destruct (rows_cover_the_cursor (cols w) (pl + pos w) (pl + len w) Hc ltac:(lia))
    as [C1 C2].
  assert (M : maxrows w <= maxrows w' /\ (pl + pos w) / cols w + 1 <= maxrows w'
              /\ maxrows w' <= INT_MAX).
  { subst w'. unfold refreshMultiLine. fsimpl. fold pl. rewrite Rows.
    rewrite (sz_small (pos w + pl)) by zarith.
    rewrite (sz_small ((pl + len w + cols w - 1) / cols w + 1)) by zarith.
    replace (pos w + pl) with (pl + pos w) by lia.
    set (r := (pl + len w + cols w - 1) / cols w) in *.
    set (q := (pl + pos w) / cols w) in *.
    destruct (Z.gtb_spec r (maxrows w));
      destruct (Z.eqb_spec (pos w) 0) as [Z0|Z0];
      destruct (Z.eqb_spec (pos w) (len w)) as [E|E];
      destruct (Z.eqb_spec ((pl + pos w) mod cols w) 0) as [D|D];
      cbn [negb andb];
      repeat match goal with
             | |- context [?a >? ?b] => destruct (Z.gtb_spec a b)
             end; cbn [andb];
      try (assert (Hq : q + 1 <= r)
             by (apply C2; try (right; exact D); try (left; lia);
                 right; rewrite Z0, Z.add_0_r; destruct Hcase as [?|[?|?]]; (lia || assumption)));
      unfold INT_MAX in *; lia. }
  destruct M as (M1 & M2 & M3).
  split; [reflexivity|]. split; [exact M1|]. rewrite R.
  split; [lia|]. unfold ml_go_down, ml_clear_bound, ml_old_rows. rewrite R.
  split; apply sz_small; zarith.
Qed.

Lemma multi_line_redraw_leaves_consistent_row_counters_witness :
  let w' := refreshMultiLine default_hints true (appended 120 ml_empty_line) in
  1 <= ml_rpos w' <= maxrows w' /\ ml_clear_bound w' = maxrows w' - 1.
Proof.
  intros w'.
  destruct (multi_line_redraw_leaves_consistent_row_counters default_hints true
              (appended 120 ml_empty_line)) as (_ & _ & H1 & _ & H2).
  - vm_compute. reflexivity.
  - vm_compute. split; congruence.
  - vm_compute. split; congruence.
  - vm_compute. reflexivity.
  - right. left. vm_compute. reflexivity.
  - split; [exact H1 | exact H2].
Defined.

(** ** The key code mode *)

Lemma keycodes_shift q x :
  length q = 4%nat -> buf_set (memmove q 0 1 3) 3 x = tl q ++ [x].
Proof.
  destruct q as [|a [|b [|c [|d [|e q]]]]]; try discriminate. intros _. reflexivity.
Qed.

Lemma starts_with_app p : forall s, starts_with p (p ++ s) = true.
Proof.
  induction p as [|x p IH]; intros s; cbn; [reflexivity|].
  rewrite Z.eqb_refl. apply IH.
Qed.

(** a window that is not yet "quit", read off the search *)
Lemma keycodes_window q0 x s :
  length q0 = 3%nat ->
  find_after (bytes_of "quit") (q0 ++ x :: s) = None ->
  bytes_eqb (q0 ++ [x]) (bytes_of "quit") = false.
Proof.
  intros L H. destruct (bytes_eqb (q0 ++ [x]) (bytes_of "quit")) eqn:E; [|reflexivity].
  apply bytes_eqb_eq in E.
  replace (q0 ++ x :: s) with ((q0 ++ [x]) ++ s) in H by (rewrite <- app_assoc; reflexivity).
  rewrite E in H. destruct s; discriminate.
Qed.

Lemma find_after_tail pat x s :
  find_after pat (x :: s) = None -> find_after pat s = None.
Proof.
  cbn [find_after]. destruct (starts_with pat (x :: s)); [discriminate|]. tauto.
Qed.

Lemma occurs_tail pat x s : occurs pat (x :: s) = false -> occurs pat s = false.
Proof.
  unfold occurs. destruct (find_after pat (x :: s)) eqn:E; [discriminate|].
  intros _. now rewrite (find_after_tail _ _ _ E).
Qed.

Lemma occurs_none pat s : occurs pat s = false -> find_after pat s = None.
Proof. unfold occurs. destruct (find_after pat s); [discriminate|reflexivity]. Qed.

Lemma keycodes_loop_goes_on keys : forall q printed,
  length q = 4%nat ->
  occurs (bytes_of "quit") (q ++ map to_char (typed_bytes keys)) = false ->
  keycodes_loop keys q printed = None.
Proof.
  induction keys as [|c keys IH]; intros q printed L H; [reflexivity|].
  cbn [keycodes_loop]. unfold typed_bytes in H. cbn [filter] in H.
  fold (typed_bytes keys) in H.
  destruct (Z.ltb_spec c 0) as [C|C].
  - replace (0 <=? c) with false in H by (symmetry; apply Z.leb_gt; lia).
    now apply IH.
  - replace (0 <=? c) with true in H by (symmetry; apply Z.leb_le; lia).
    cbn [map] in H. rewrite keycodes_shift by assumption.
    destruct q as [|x q0]; [discriminate|]. cbn [tl].
    cbn [app] in H. apply occurs_tail in H.
    rewrite (keycodes_window q0 (to_char c) (map to_char (typed_bytes keys)));
      [|cbn in L; lia|now apply occurs_none].
    apply IH; [rewrite length_app; cbn in *; lia|].
    rewrite <- app_assoc. exact H.
Qed.

Lemma keycodes_loop_returns t rest pre : forall q printed a,
  0 <= t -> to_char t = 116 ->
  length q = 4%nat ->
  q ++ map to_char (typed_bytes pre) = a ++ bytes_of "qui" ->
  occurs (bytes_of "quit") (q ++ map to_char (typed_bytes pre)) = false ->
  keycodes_loop (pre ++ t :: rest) q printed
  = Some (printed ++ concat (map keycode_report (typed_bytes pre)), rest).
Proof.
  induction pre as [|c pre IH]; intros q printed a T0 T L E H.
  - cbn [app keycodes_loop typed_bytes filter map concat].
    replace (t <? 0) with false by (symmetry; apply Z.ltb_ge; lia).
    rewrite keycodes_shift by assumption. rewrite T, app_nil_r.
    cbn [typed_bytes filter map] in E. rewrite app_nil_r in E. subst q.
    destruct a as [|x [|y a]]; try discriminate.
    + reflexivity.
    + rewrite length_app in L. cbn in L. lia.
  - cbn [app keycodes_loop]. unfold typed_bytes in E, H |- *. cbn [filter] in E, H |- *.
    fold (typed_bytes pre) in E, H |- *.
    destruct (Z.ltb_spec c 0) as [C|C].
    + replace (0 <=? c) with false in * by (symmetry; apply Z.leb_gt; lia).
      now apply IH with (a := a).
    + replace (0 <=? c) with true in * by (symmetry; apply Z.leb_le; lia).
      cbn [map concat] in E, H |- *. rewrite keycodes_shift by assumption.
      destruct q as [|x q0]; [discriminate|]. cbn [tl].
      cbn [app] in H. apply occurs_tail in H.
      rewrite (keycodes_window q0 (to_char c) (map to_char (typed_bytes pre)));
        [|cbn in L; lia|now apply occurs_none].
      destruct a as [|x' a'].
      { apply (f_equal (@length Z)) in E. rewrite length_app in E. cbn in E, L. lia. }
      cbn [app] in E. injection E as _ E.
      rewrite (IH (q0 ++ [to_char c]) (printed ++ keycode_report c) a'); try assumption.
      * now rewrite <- app_assoc.
      * rewrite length_app; cbn in *; lia.
      * rewrite <- app_assoc. exact E.
      * rewrite <- app_assoc. exact H.
Qed.

Lemma occurs_spaces s :
  occurs (bytes_of "quit") (repeat SPACE 4 ++ s) = occurs (bytes_of "quit") s.
Proof. reflexivity. Qed.

(** X25.  [linenoisePrintKeyCodes] compares the last four bytes typed with
    "quit", each key cut to a [char] and the calls that find no key left
    out.  If the bytes typed end with "qui" and hold no "quit", and the next
    key is 't', the function returns at that key: it has printed the banner
    and one report for each byte typed before, none for the 't', and has
    read nothing after it.  As long as the bytes typed hold no "quit", the
    function does not return. *)
Theorem keycodes_mode_ends_at_the_first_quit :
  (forall (keys rest a : list Z) (t : Z),
     0 <= t -> to_char t = 116 ->
     map to_char (typed_bytes keys) = a ++ bytes_of "qui" ->
     occurs (bytes_of "quit") (map to_char (typed_bytes keys)) = false ->
     linenoisePrintKeyCodes (keys ++ t :: rest)
     = Some (KEYCODES_BANNER ++ concat (map keycode_report (typed_bytes keys)), rest)) /\
  (forall keys : list Z,
     occurs (bytes_of "quit") (map to_char (typed_bytes keys)) = false ->
     linenoisePrintKeyCodes keys = None).
Proof.
  split.
  - intros keys rest a t T0 T E H. unfold linenoisePrintKeyCodes.
    apply keycodes_loop_returns with (a := repeat SPACE 4 ++ a); try assumption.
    + reflexivity.
    + rewrite E, app_assoc. reflexivity.
  - intros keys H. unfold linenoisePrintKeyCodes.
    apply keycodes_loop_goes_on; [reflexivity|].
    rewrite occurs_spaces. exact H.
Qed.

Lemma keycodes_mode_ends_at_the_first_quit_witness :
  linenoisePrintKeyCodes [97; -1; 113; 117; -1; 105; 116; 120]
  = Some (KEYCODES_BANNER ++ keycode_report 97 ++ keycode_report 113
          ++ keycode_report 117 ++ keycode_report 105, [120]) /\
  keycode_report 97 = bytes_of "'a' 61 (97) (type quit to exit)" ++ [LF; CR] /\
  linenoisePrintKeyCodes [113; 117; -1; 105] = None.
Proof.
  destruct keycodes_mode_ends_at_the_first_quit as [H1 H2].
  split; [|split].
  - change [97; -1; 113; 117; -1; 105; 116; 120]
      with ([97; -1; 113; 117; -1; 105] ++ 116 :: [120]).
    rewrite (H1 [97; -1; 113; 117; -1; 105] [120] [97] 116).
    + cbn [typed_bytes filter Z.leb Z.compare map concat app]. rewrite app_nil_r. reflexivity.
    + lia.
    + reflexivity.
    + reflexivity.
    + reflexivity.
  - vm_compute. reflexivity.
  - apply H2. reflexivity.
Defined.

(** ** The sample host *)

Lemma Example_candidates_fit b s :
  In s (Example.linenoise_completion b) -> strlen s < 1024 - 1.
Proof.
  unfold Example.linenoise_completion.
  destruct (buf_get b 0 =? 104), (Example.strcasecmp0 b (bytes_of "/q")),
    (Example.strcasecmp0 b (bytes_of "/c")); cbn [app In];
    intuition (subst; vm_compute; reflexivity).
Qed.



(** ** The keys of the completion mode *)

Lemma div_step a m :
  0 < m -> 0 <= a -> (a + 1) / m = a / m + (if a mod m =? m - 1 then 1 else 0).
Proof.
  intros Hm Ha. pose proof (Z.div_mod a m) as D. pose proof (Z.mod_pos_bound a m Hm) as B.
  destruct (Z.eqb_spec (a mod m) (m - 1)) as [E|E]; symmetry.
  - apply Z.div_unique with (r := 0); [lia|]. lia.
  - apply Z.div_unique with (r := a mod m + 1); [lia|]. lia.
Qed.

Lemma skip_identical_none f b cvec idx :
  0 <= idx -> Forall (fun cand => strcmp0 b cand = false) cvec ->
  skip_identical (S f) b cvec idx = idx.
Proof.
  intros Hi F. cbn [skip_identical].
  destruct (Z.ltb_spec idx (Z.of_nat (length cvec))) as [L|L]; [|reflexivity].
  rewrite Forall_forall in F. rewrite F; [reflexivity|].
  unfold str_at. apply nth_In. lia.
Qed.

Section CompletionKeys.

Variable linenoise_completion : list Z -> list (list Z).
Variable linenoise_hints : list Z -> option (list Z * list Z).

Lemma Edit_completion hbuf n p c s :
  mode s = ln_completion ->
  linenoiseEdit linenoise_completion linenoise_hints hbuf n p c s
  = lnCompletion linenoise_completion linenoise_hints c s.
Proof.
  intros M. rewrite Edit_session_state. unfold session_state. rewrite M. cbv zeta.
  rewrite M. reflexivity.
Qed.

(** one more Tab *)
Lemma Tab_next hbuf n p cands s :
  Z.of_nat (length cands) < INT_MAX -> completing cands s ->
  let m := Z.of_nat (length cands) + 1 in
  let r := linenoiseEdit linenoise_completion linenoise_hints hbuf n p TAB s in
  fst r = -1 /\
  completion_idx (snd r) = (completion_idx s + 1) mod m /\
  err (snd r) = err s ++ (if (completion_idx s + 1) mod m =? m - 1 then [7] else []) /\
  buf (snd r) = buf s /\ pos (snd r) = pos s /\ len (snd r) = len s /\
  completing cands (snd r).
Proof.
  intros Hn (Hs & Hm & Hl & Hi & Hf) m r. subst r.
  rewrite Edit_completion by exact Hm.
  unfold lnCompletion. change (TAB <? 0) with false. change (TAB =? 9) with true.
  cbv zeta. cbn [fst snd]. rewrite Hl. fold m.
  rewrite (sz_small (completion_idx s + 1)) by zarith.
  rewrite (sz_small m) by (unfold m; zarith).
  assert (Hm0 : 0 < m) by (unfold m; lia).
  pose proof (Z.mod_pos_bound (completion_idx s + 1) m Hm0) as B.
  set (i := (completion_idx s + 1) mod m) in *.
  change (completion_idx (set_completion_idx i s)) with i.
  replace (Z.of_nat (length cands)) with (m - 1) by (unfold m; lia).
  match goal with
  | |- context [lnShowCompletion linenoise_hints ?w] =>
      set (W := w); pose proof (ShowCompletion_effect linenoise_hints W) as E
  end.
  cbv zeta in E. destruct E as (E1 & E2 & E3 & E4 & E5 & E6 & _ & E8 & _).
  assert (Wi : completion_idx W = i) by (unfold W; destruct (i =? m - 1); reflexivity).
  assert (Wb : buf W = buf s) by (unfold W; destruct (i =? m - 1); reflexivity).
  assert (Wp : pos W = pos s) by (unfold W; destruct (i =? m - 1); reflexivity).
  assert (Wn : len W = len s) by (unfold W; destruct (i =? m - 1); reflexivity).
  assert (Wl : lc W = cands) by (unfold W; destruct (i =? m - 1); psimpl; exact Hl).
  assert (Wm : mode W = ln_completion) by (unfold W; destruct (i =? m - 1); psimpl; exact Hm).
  assert (Ws : smart_term_connected (lnShowCompletion linenoise_hints W) = true).
  { pose proof (statics_ShowCompletion linenoise_hints W) as T.
    apply statics_inv in T. destruct T as (T & _). rewrite T.
    unfold W. destruct (i =? m - 1); psimpl; exact Hs. }
  assert (We : err W = err s ++ (if i =? m - 1 then [7] else [])).
  { unfold W. destruct (i =? m - 1); psimpl; [reflexivity|now rewrite app_nil_r]. }
  rewrite Wb, Wl, Wi in E1.
  rewrite skip_identical_none in E1 by (try assumption; lia).
  rewrite E1, E2, E3, E4, E8, Wb, Wp, Wn, We.
  repeat split; try reflexivity.
  - exact Ws.
  - rewrite E6. exact Wm.
  - rewrite E5. exact Wl.
  - lia.
  - unfold m in B. lia.
  - rewrite E2, Wb. exact Hf.
Qed.

Lemma Tab_cycle hbuf n p cands k : forall s,
  Z.of_nat (length cands) < INT_MAX -> completing cands s ->
  let m := Z.of_nat (length cands) + 1 in
  let calls := calls_with hbuf n p (repeat TAB k) in
  let s' := edit_run linenoise_completion linenoise_hints calls s in
  edit_results linenoise_completion linenoise_hints calls s = repeat (-1) k /\
  completion_idx s' = (completion_idx s + Z.of_nat k) mod m /\
  err s' = err s ++ repeat 7 (Z.to_nat ((completion_idx s + Z.of_nat k + 1) / m
                                        - (completion_idx s + 1) / m)) /\
  buf s' = buf s /\ pos s' = pos s /\ len s' = len s /\ completing cands s'.
Proof.
  induction k as [|k IH]; intros s Hn C m calls s'.
  - subst calls s'. cbn [repeat calls_with map edit_run fold_left edit_results Z.of_nat].
    destruct C as (Hs & Hm & Hl & Hi & Hf).
    rewrite Z.add_0_r, Z.sub_diag. cbn [Z.to_nat repeat]. rewrite app_nil_r.
    repeat split; try assumption; try lia.
    rewrite Z.mod_small by (unfold m; lia). reflexivity.
  - subst calls s'.
    replace (repeat TAB (S k)) with (repeat TAB k ++ [TAB])
      by (symmetry; apply repeat_cons).
    unfold calls_with. rewrite map_app. fold (calls_with hbuf n p (repeat TAB k)).
    rewrite edit_results_app, edit_run_app.
    destruct (IH s Hn C) as (R & I1 & I2 & I3 & I4 & I5 & C1). clear IH.
    set (sk := edit_run linenoise_completion linenoise_hints
                 (calls_with hbuf n p (repeat TAB k)) s) in *.
    destruct (Tab_next hbuf n p cands sk Hn C1) as (T0 & T1 & T2 & T3 & T4 & T5 & C2).
    cbn [map edit_results edit_run fold_left edit_step].
    destruct (linenoiseEdit linenoise_completion linenoise_hints hbuf n p TAB sk) as [r s1].
    cbn [fst snd] in *. subst r.
    destruct C as (_ & _ & _ & Hi & _).
    assert (Hm0 : 0 < m) by (unfold m; lia).
    fold m in T1, T2. rewrite I1 in T1, T2.
    rewrite Z.add_mod_idemp_l in T1, T2 by lia.
    replace (completion_idx s + Z.of_nat k + 1)
      with (completion_idx s + Z.of_nat (S k)) in T1, T2 by lia.
    rewrite R, T1, T2, T3, T4, T5, I2, I3, I4, I5.
    destruct C2 as (? & ? & ? & [? ?] & ?).
    repeat split; try assumption.
    + replace (repeat (-1) (S k)) with (repeat (-1) k ++ [-1]); [reflexivity|].
      symmetry. apply (repeat_cons k (-1)).
    + rewrite <- app_assoc. f_equal.
      pose proof (div_step (completion_idx s + Z.of_nat (S k)) m Hm0) as D.
      assert (L : (completion_idx s + 1) / m <= (completion_idx s + Z.of_nat k + 1) / m)
        by (apply Z.div_le_mono; lia).
      replace (completion_idx s + Z.of_nat k + 1)
        with (completion_idx s + Z.of_nat (S k)) in * by lia.
      rewrite D by lia.
      destruct ((completion_idx s + Z.of_nat (S k)) mod m =? m - 1).
      * replace (Z.to_nat ((completion_idx s + Z.of_nat (S k)) / m + 1
                           - (completion_idx s + 1) / m))
          with (S (Z.to_nat ((completion_idx s + Z.of_nat (S k)) / m
                             - (completion_idx s + 1) / m))) by lia.
        symmetry. apply (repeat_cons _ 7).
      * rewrite Z.add_0_r, app_nil_r. reflexivity.
Qed.

(** Escape *)
Lemma Esc_leaves hbuf n p cands s :
  completing cands s ->
  let r := linenoiseEdit linenoise_completion linenoise_hints hbuf n p ESC s in
  fst r = -1 /\ mode (snd r) = ln_read_esc /\ seq_idx (snd r) = 0 /\ lc (snd r) = [] /\
  buf (snd r) = buf s /\ pos (snd r) = pos s /\ len (snd r) = len s /\
  err (snd r) = err s.
Proof.
  intros (Hs & Hm & Hl & Hi & Hf) r. subst r.
  rewrite Edit_completion by exact Hm.
  unfold lnCompletion. change (ESC <? 0) with false. change (ESC =? 9) with false.
  change (ESC =? 27) with true. cbv zeta.
  match goal with
  | |- context [lnHandleCharacter _ _ _ ?w] => set (W := w)
  end.
  assert (Ws : smart_term_connected W = true).
  { subst W. destruct (completion_idx s <? Z.of_nat (length (lc s))); fsimpl; exact Hs. }
  assert (Wm : mode W = ln_read_regular) by (subst W; reflexivity).
  pose proof (Edit_esc linenoise_completion linenoise_hints hbuf n p W Ws Wm) as E.
  rewrite Edit_smart_key in E by (try assumption; unfold ESC; lia).
  rewrite E. cbn [fst snd]. unfold with_esc. psimpl.
  subst W. destruct (completion_idx s <? Z.of_nat (length (lc s))); fsimpl;
    repeat split; reflexivity.
Qed.

End CompletionKeys.


